(** * SnapFlow API: identity matching and entitlement-gated delivery

    A shallow embedding of the face index ([indexPhotoFace]), the selfie
    matcher ([findSelfieMatches]), the Stripe webhook reconciliation
    ([markPurchasePaid], [markPurchaseFailed]), the purchase access token
    and the paid-download routes, and further of the slug and file-name
    helpers, the user access token, the session and gallery routes, the
    realtime updates and the photographer's photo routes, followed by the
    properties proved about them.

    Conventions of the embedding.
    - An [async] function of the source is a computation in the monad
      [Async]: it threads the [World] (relational store, the module-level
      [collectionReady] flag and the log of commands sent to Rekognition)
      and either completes normally or throws a [JsError].  A thrown error
      keeps the state reached so far, as in JavaScript.
    - The Prisma tables are lists of rows in table order.  The columns
      [updatedAt] and the generated [id] of [FaceEmbedding] are left out:
      no modelled code reads them.  Store connectivity faults are not
      modelled; constraint violations of [create] are.
    - JavaScript numbers that carry similarities, confidences and
      thresholds are finite and only compared, so they are rationals [Q];
      timestamps and amounts are integers [Z].
    - Libraries outside the repository (the AWS SDK, the S3 presigner,
      jsonwebtoken, the Stripe SDK) are section variables. *)

From Stdlib Require Import List String Ascii ZArith QArith Qminmax Bool Lia Lqa.
From Stdlib Require Import Permutation Sorted.
Import ListNotations.

Local Open Scope string_scope.
Local Open Scope list_scope.
Local Open Scope Z_scope.

(** ** JavaScript values used by the code *)

(** A thrown value: [err_is_Error] is [error instanceof Error],
    [err_name] is [(error as { name?: string }).name]. *)
Record JsError := mkJsError {
  err_is_Error : bool;
  err_name : option string;
  err_message : string
}.

(** [new Error(message)] *)
Definition new_Error (message : string) : JsError :=
  {| err_is_Error := true; err_name := Some "Error"; err_message := message |}.

Inductive Completion (A : Type) : Type :=
| Normal (a : A)
| Thrown (e : JsError).
Arguments Normal {A} a.
Arguments Thrown {A} e.

(** The result of [Number(text)]. *)
Inductive JsNumber : Type :=
| JsNaN
| JsInfinity (negative : bool)
| JsFinite (q : Q).

#[warnings="-register-all"]
Inductive JsValue : Type :=
| JsUndefined
| JsNull
| JsBoolean (b : bool)
| JsNum (n : JsNumber)
| JsString (s : string)
| JsObject (fields : list (string * JsValue)).

(** [a === b] on strings. *)
Notation "a === b" := (String.eqb a b) (at level 70, no associativity).

(** [Boolean(s)] for a string. *)
Definition truthy (s : string) : bool := negb (s === "").

(** [Boolean(v)] for [v : string | undefined | null]. *)
Definition truthy_opt (o : option string) : bool :=
  match o with
  | Some s => truthy s
  | None => false
  end.

(** [a ?? b] *)
Definition nullish {A : Type} (a : option A) (b : A) : A :=
  match a with
  | Some x => x
  | None => b
  end.

(** [a ?? b] where [b] may be nullish too. *)
Definition nullish_opt {A : Type} (a b : option A) : option A :=
  match a with
  | Some x => Some x
  | None => b
  end.

(** Property lookup [obj.key] on the fields of an object literal. *)
Fixpoint js_field (key : string) (fields : list (string * JsValue)) : JsValue :=
  match fields with
  | [] => JsUndefined
  | (k, v) :: rest => if k === key then v else js_field key rest
  end.

Definition Qltb (x y : Q) : bool := negb (Qle_bool y x).

(** [String.prototype.toLowerCase] on the ASCII letters; other bytes are
    kept. *)
Definition lower_ascii (c : ascii) : ascii :=
  let n := nat_of_ascii c in
  if andb (Nat.leb 65 n) (Nat.leb n 90) then ascii_of_nat (n + 32) else c.

Fixpoint toLowerCase (s : string) : string :=
  match s with
  | EmptyString => EmptyString
  | String c rest => String (lower_ascii c) (toLowerCase rest)
  end.

(** White space removed by [String.prototype.trim], on ASCII. *)
Definition is_space (c : ascii) : bool :=
  let n := nat_of_ascii c in
  orb (Nat.eqb n 32) (andb (Nat.leb 9 n) (Nat.leb n 13)).

Fixpoint trimStart (s : string) : string :=
  match s with
  | EmptyString => EmptyString
  | String c rest => if is_space c then trimStart rest else s
  end.

Fixpoint string_rev_onto (s acc : string) : string :=
  match s with
  | EmptyString => acc
  | String c rest => string_rev_onto rest (String c acc)
  end.

Definition string_rev (s : string) : string := string_rev_onto s EmptyString.

Definition trim (s : string) : string :=
  string_rev (trimStart (string_rev (trimStart s))).

(** [s.startsWith(p)] *)
Definition startsWith (p s : string) : bool := String.prefix p s.

(** [s.slice(n)] for [0 <= n]. *)
Fixpoint string_drop (n : nat) (s : string) : string :=
  match n, s with
  | O, _ => s
  | S m, EmptyString => EmptyString
  | S m, String _ rest => string_drop m rest
  end.

(** [Array.prototype.slice(0, end)] for an integer [end]: a negative
    [end] counts from the end of the array. *)
Definition slice0 {A : Type} (l : list A) (end_ : Z) : list A :=
  if end_ <? 0
  then firstn (Z.to_nat (Z.max (Z.of_nat (List.length l) + end_) 0)) l
  else firstn (Z.to_nat end_) l.

(** A stable insertion sort: [before y x] says that [y] must come before
    [x]; elements that tie keep their order. *)
Fixpoint sort_insert {A : Type} (before : A -> A -> bool) (x : A) (l : list A) : list A :=
  match l with
  | [] => [x]
  | y :: rest => if before y x then y :: sort_insert before x rest else x :: y :: rest
  end.

Fixpoint stable_sort {A : Type} (before : A -> A -> bool) (l : list A) : list A :=
  match l with
  | [] => []
  | x :: rest => sort_insert before x (stable_sort before rest)
  end.

(** [Array.prototype.sort(compare)], which is stable: [y] moves before
    [x] when [compare(y, x) < 0]. *)
Definition js_sort {A : Type} (compare : A -> A -> Q) (l : list A) : list A :=
  stable_sort (fun y x => Qltb (compare y x) 0) l.

(** ** [Map<string, V>]: keys stay in the order of their first insertion *)

Module JsMap.

Definition t (V : Type) : Type := list (string * V).

Definition empty {V : Type} : t V := [].

Fixpoint get {V : Type} (k : string) (m : t V) : option V :=
  match m with
  | [] => None
  | (k', v) :: rest => if k' === k then Some v else get k rest
  end.

Fixpoint set {V : Type} (k : string) (v : V) (m : t V) : t V :=
  match m with
  | [] => [(k, v)]
  | (k', v') :: rest => if k' === k then (k, v) :: rest else (k', v') :: set k v rest
  end.

Definition keys {V : Type} (m : t V) : list string := map fst m.

Definition values {V : Type} (m : t V) : list V := map snd m.

End JsMap.

(** ** The relational store (prisma/migrations) *)

Inductive PhotoStatus : Type := DRAFT | PUBLISHED.

Inductive PurchaseStatus : Type := PENDING | PAID | FAILED | REFUNDED.

Definition PhotoStatus_eqb (a b : PhotoStatus) : bool :=
  match a, b with
  | DRAFT, DRAFT | PUBLISHED, PUBLISHED => true
  | _, _ => false
  end.

Definition PurchaseStatus_eqb (a b : PurchaseStatus) : bool :=
  match a, b with
  | PENDING, PENDING | PAID, PAID | FAILED, FAILED | REFUNDED, REFUNDED => true
  | _, _ => false
  end.

Record Event := mkEvent {
  event_id : string;
  event_ownerId : string;
  event_name : string;
  event_slug : string
}.

Record Photo := mkPhoto {
  photo_id : string;
  photo_eventId : string;
  photo_storageKey : string;
  photo_mimeType : string;
  photo_fileSize : option Z;
  photo_width : option Z;
  photo_height : option Z;
  photo_status : PhotoStatus;
  photo_capturedAt : option Z;
  photo_publishedAt : option Z;
  photo_createdAt : Z;
  photo_isUploaded : bool
}.

Record FaceEmbedding := mkFaceEmbedding {
  fe_photoId : string;
  fe_provider : string;
  fe_externalId : string;
  fe_confidence : option Q
}.

Record Purchase := mkPurchase {
  purchase_id : string;
  purchase_eventId : string;
  purchase_buyerEmail : string;
  purchase_stripeSessionId : string;
  purchase_stripePaymentId : option string;
  purchase_status : PurchaseStatus;
  purchase_amountTotal : Z;
  purchase_currency : string;
  purchase_payoutStatus : string;
  purchase_createdAt : Z
}.

Record PurchaseItem := mkPurchaseItem {
  item_id : string;
  item_purchaseId : string;
  item_photoId : option string;
  item_itemType : string;
  item_amount : Z
}.

Record Database := mkDatabase {
  events : list Event;
  photos : list Photo;
  faceEmbeddings : list FaceEmbedding;
  purchases : list Purchase;
  purchaseItems : list PurchaseItem
}.

(** ** The environment ([process.env]) *)

Record Env := mkEnv {
  S3_BUCKET : option string;
  S3_REGION : option string;
  AWS_REGION : option string;
  AWS_REKOGNITION_REGION : option string;
  AWS_REKOGNITION_COLLECTION_ID : option string;
  (** [Number(process.env.FACE_MATCH_THRESHOLD)] when the variable is set *)
  FACE_MATCH_THRESHOLD : option JsNumber;
  PURCHASE_ACCESS_TOKEN_SECRET : option string;
  JWT_SECRET : option string;
  STRIPE_SECRET_KEY : option string;
  STRIPE_WEBHOOK_SECRET : option string
}.

(** ** Rekognition commands and responses (@aws-sdk/client-rekognition) *)

Inductive Command : Type :=
| DescribeCollectionCommand (CollectionId : string)
| CreateCollectionCommand (CollectionId : string)
| DeleteFacesCommand (CollectionId : string) (FaceIds : list string)
| IndexFacesCommand (CollectionId ExternalImageId : string) (MaxFaces : Z)
    (Bucket Name : string)
| SearchFacesByImageCommand (CollectionId : string) (Bytes : list Byte.byte)
    (MaxFaces : Z) (FaceMatchThreshold : Q).

Record Face := mkFace {
  FaceId : option string;
  Confidence : option Q
}.

Record FaceRecord := mkFaceRecord {
  record_Face : option Face
}.

Record FaceMatch := mkFaceMatch {
  Similarity : option Q;
  match_Face : option Face
}.

Inductive Response : Type :=
| EmptyResponse
| IndexFacesResponse (FaceRecords : option (list FaceRecord))
| SearchFacesByImageResponse (FaceMatches : option (list FaceMatch)).

Definition response_FaceRecords (r : Response) : option (list FaceRecord) :=
  match r with
  | IndexFacesResponse o => o
  | _ => None
  end.

Definition response_FaceMatches (r : Response) : option (list FaceMatch) :=
  match r with
  | SearchFacesByImageResponse o => o
  | _ => None
  end.

(** The provider: what [client.send(command)] does, given the commands
    sent before. *)
Definition Rekognition : Type := list Command -> Command -> Completion Response.

(** ** The world and the monad of asynchronous code *)

Record World := mkWorld {
  db : Database;
  collectionReady : bool;
  sent : list Command
}.

Definition Async (A : Type) : Type := World -> Completion A * World.

Definition ret {A : Type} (a : A) : Async A := fun w => (Normal a, w).

Definition throw {A : Type} (e : JsError) : Async A := fun w => (Thrown e, w).

Definition bind {A B : Type} (m : Async A) (k : A -> Async B) : Async B :=
  fun w =>
    match m w with
    | (Normal a, w') => k a w'
    | (Thrown e, w') => (Thrown e, w')
    end.

(** [try { m } catch (error) { h error }] *)
Definition try_catch {A : Type} (m : Async A) (h : JsError -> Async A) : Async A :=
  fun w =>
    match m w with
    | (Normal a, w') => (Normal a, w')
    | (Thrown e, w') => h e w'
    end.

(** A synchronous call that may throw. *)
Definition lift {A : Type} (c : Completion A) : Async A := fun w => (c, w).

Declare Scope async_scope.
Delimit Scope async_scope with async.
Notation "x <- m ;; k" := (bind m (fun x => k))
  (at level 100, m at next level, right associativity) : async_scope.
Notation "m ;; k" := (bind m (fun _ => k))
  (at level 100, right associativity) : async_scope.
Local Open Scope async_scope.

(** [Promise.all(l.map(f))] *)
Fixpoint Promise_all {A B : Type} (f : A -> Async B) (l : list A) : Async (list B) :=
  match l with
  | [] => ret []
  | x :: rest =>
      y <- f x ;;
      ys <- Promise_all f rest ;;
      ret (y :: ys)
  end.

Definition get_db : Async Database := fun w => (Normal (db w), w).

Definition put_db (d : Database) : Async unit :=
  fun w => (Normal tt, {| db := d; collectionReady := collectionReady w; sent := sent w |}).

Definition get_collectionReady : Async bool := fun w => (Normal (collectionReady w), w).

Definition set_collectionReady (b : bool) : Async unit :=
  fun w => (Normal tt, {| db := db w; collectionReady := b; sent := sent w |}).

(** ** Prisma queries *)

Definition with_faceEmbeddings (l : list FaceEmbedding) (d : Database) : Database :=
  {| events := events d; photos := photos d; faceEmbeddings := l;
     purchases := purchases d; purchaseItems := purchaseItems d |}.

Definition with_purchases (l : list Purchase) (d : Database) : Database :=
  {| events := events d; photos := photos d; faceEmbeddings := faceEmbeddings d;
     purchases := l; purchaseItems := purchaseItems d |}.

Definition with_photos (l : list Photo) (d : Database) : Database :=
  {| events := events d; photos := l; faceEmbeddings := faceEmbeddings d;
     purchases := purchases d; purchaseItems := purchaseItems d |}.

(** [PrismaClientKnownRequestError] with the given code; the text of the
    message that Prisma composes is not modelled. *)
Definition PrismaClientKnownRequestError (code : string) : JsError :=
  {| err_is_Error := true;
     err_name := Some "PrismaClientKnownRequestError";
     err_message := "PrismaClientKnownRequestError " ++ code |}.

Definition faceEmbedding_findMany (where_ : FaceEmbedding -> bool) : Async (list FaceEmbedding) :=
  d <- get_db ;;
  ret (filter where_ (faceEmbeddings d)).

Definition faceEmbedding_deleteMany (where_ : FaceEmbedding -> bool) : Async unit :=
  d <- get_db ;;
  put_db (with_faceEmbeddings (filter (fun f => negb (where_ f)) (faceEmbeddings d)) d).

(** [create] checks the foreign key to [Photo] (P2003) and the unique index
    on (provider, externalId) (P2002). *)
Definition faceEmbedding_create (data : FaceEmbedding) : Async unit :=
  d <- get_db ;;
  if negb (existsb (fun p => photo_id p === fe_photoId data) (photos d)) then
    throw (PrismaClientKnownRequestError "P2003")
  else if existsb (fun f => andb (fe_provider f === fe_provider data)
                                 (fe_externalId f === fe_externalId data))
                  (faceEmbeddings d) then
    throw (PrismaClientKnownRequestError "P2002")
  else
    put_db (with_faceEmbeddings (faceEmbeddings d ++ [data]) d).

Definition photo_findFirst (where_ : Photo -> bool) : Async (option Photo) :=
  d <- get_db ;;
  ret (find where_ (photos d)).

Definition event_findUnique_slug (slug : string) : Async (option Event) :=
  d <- get_db ;;
  ret (find (fun e => event_slug e === slug) (events d)).

(** [orderBy: [{ publishedAt: "desc" }, { createdAt: "desc" }]]: in
    PostgreSQL a descending order puts NULL first. *)
Definition publishedAt_desc_before (a b : Photo) : bool :=
  match photo_publishedAt a, photo_publishedAt b with
  | None, None => photo_createdAt b <? photo_createdAt a
  | None, Some _ => true
  | Some _, None => false
  | Some ta, Some tb =>
      orb (tb <? ta) (andb (tb =? ta) (photo_createdAt b <? photo_createdAt a))
  end.

Definition photo_findMany_ordered (where_ : Photo -> bool) : Async (list Photo) :=
  d <- get_db ;;
  ret (stable_sort publishedAt_desc_before (filter where_ (photos d))).

(** [updateMany] on purchases: the rows matching [where_] get [data]. *)
Definition purchase_updateMany (where_ : Purchase -> bool) (data : Purchase -> Purchase) : Async unit :=
  d <- get_db ;;
  put_db (with_purchases (map (fun p => if where_ p then data p else p) (purchases d)) d).

(** [prisma.photo.update({ where: { id }, data })] *)
Definition photo_update (id : string) (data : Photo -> Photo) : Async unit :=
  d <- get_db ;;
  put_db (with_photos (map (fun p => if photo_id p === id then data p else p) (photos d)) d).

(** ** lib/storage: signed download URLs *)

Record StorageConfig := mkStorageConfig {
  storage_bucket : string;
  storage_region : string
}.

Definition getStorageConfig (env : Env) : Completion StorageConfig :=
  match S3_BUCKET env with
  | Some bucket =>
      if truthy bucket
      then Normal {| storage_bucket := bucket;
                     storage_region := nullish (S3_REGION env) "us-east-1" |}
      else Thrown (new_Error "S3_BUCKET is required")
  | None => Thrown (new_Error "S3_BUCKET is required")
  end.

(** ** face/rekognition-face-search *)

Definition FACE_PROVIDER : string := "aws-rekognition".

Module FaceIndexStatus.
Inductive t : Type := indexed | no_face_detected | disabled | error.
End FaceIndexStatus.

Record FaceIndexResult := mkFaceIndexResult {
  index_status : FaceIndexStatus.t;
  index_message : option string
}.

Module SelfieSearchStatus.
Inductive t : Type := ok | no_matches | no_face_detected | disabled | error.
End SelfieSearchStatus.

Record SerializedPhoto := mkSerializedPhoto {
  sp_id : string;
  sp_eventId : string;
  sp_status : PhotoStatus;
  sp_mimeType : string;
  sp_fileSize : option Z;
  sp_width : option Z;
  sp_height : option Z;
  sp_capturedAt : option Z;
  sp_publishedAt : option Z;
  sp_createdAt : Z;
  sp_previewUrl : string
}.

Record SelfieMatchItem := mkSelfieMatchItem {
  similarity : Q;
  photo : SerializedPhoto
}.

Record SelfieSearchResult := mkSelfieSearchResult {
  search_status : SelfieSearchStatus.t;
  matches : list SelfieMatchItem;
  search_message : option string
}.

Record FaceSearchConfig := mkFaceSearchConfig {
  bucket : string;
  collectionId : string;
  region : string
}.

Definition getFaceSearchConfig (env : Env) : option FaceSearchConfig :=
  match S3_BUCKET env, AWS_REKOGNITION_COLLECTION_ID env with
  | Some b, Some c =>
      if orb (negb (truthy b)) (negb (truthy c)) then None
      else Some {| bucket := b;
                   collectionId := c;
                   region :=
                     nullish
                       (nullish_opt (AWS_REKOGNITION_REGION env)
                          (nullish_opt (AWS_REGION env) (S3_REGION env)))
                       "us-east-1" |}
  | _, _ => None
  end.

Definition getMatchThreshold (env : Env) : Q :=
  match nullish (FACE_MATCH_THRESHOLD env) (JsFinite 80) with
  | JsFinite threshold => Qmax 0 (Qmin 100 threshold)
  | _ => 80%Q
  end.

(** The entry of [bestByPhotoId]. *)
Record Best := mkBest {
  best_similarity : Q;
  best_photo : Photo
}.

(** [match.Face?.FaceId] *)
Definition match_FaceId (match_ : FaceMatch) : option string :=
  match match_Face match_ with
  | Some face => FaceId face
  | None => None
  end.

(** The body of the first loop of [findSelfieMatches]. *)
Definition recordSimilarity (similarityByFaceId : JsMap.t Q) (match_ : FaceMatch) : JsMap.t Q :=
  match match_FaceId match_, Similarity match_ with
  | Some faceId, Some similarity =>
      if negb (truthy faceId) then similarityByFaceId
      else
        let previous := nullish (JsMap.get faceId similarityByFaceId) 0%Q in
        if Qltb previous similarity
        then JsMap.set faceId similarity similarityByFaceId
        else similarityByFaceId
  | _, _ => similarityByFaceId
  end.

(** The body of the second loop of [findSelfieMatches]. *)
Definition recordBest (similarityByFaceId : JsMap.t Q) (bestByPhotoId : JsMap.t Best)
    (embedding : FaceEmbedding * Photo) : JsMap.t Best :=
  let similarity := nullish (JsMap.get (fe_externalId (fst embedding)) similarityByFaceId) 0%Q in
  let entry := {| best_similarity := similarity; best_photo := snd embedding |} in
  match JsMap.get (fe_photoId (fst embedding)) bestByPhotoId with
  | Some previous =>
      if Qltb (best_similarity previous) similarity
      then JsMap.set (fe_photoId (fst embedding)) entry bestByPhotoId
      else bestByPhotoId
  | None => JsMap.set (fe_photoId (fst embedding)) entry bestByPhotoId
  end.

(** [(a, b) => b.similarity - a.similarity] *)
Definition bySimilarityDesc (a b : Best) : Q := (best_similarity b - best_similarity a)%Q.

(** [findMany] on face embeddings with [include: { photo: true }]: every
    row comes with the photo its foreign key names. *)
Definition includePhoto (where_ : FaceEmbedding -> Photo -> bool) (d : Database) :
    list (FaceEmbedding * Photo) :=
  flat_map
    (fun f =>
       match find (fun p => photo_id p === fe_photoId f) (photos d) with
       | Some p => if where_ f p then [(f, p)] else []
       | None => []
       end)
    (faceEmbeddings d).

Definition faceEmbedding_findMany_include_photo
    (where_ : FaceEmbedding -> Photo -> bool) : Async (list (FaceEmbedding * Photo)) :=
  d <- get_db ;;
  ret (includePhoto where_ d).

(** The [where] clause of the query of [findSelfieMatches]. *)
Definition selfieWhere (eventId : string) (faceIds : list string)
    (f : FaceEmbedding) (p : Photo) : bool :=
  andb (fe_provider f === FACE_PROVIDER)
    (andb (existsb (fun id => id === fe_externalId f) faceIds)
       (andb (photo_eventId p === eventId)
          (andb (PhotoStatus_eqb (photo_status p) PUBLISHED)
             (Bool.eqb (photo_isUploaded p) true)))).

Section FaceSearch.

(** [getRekognitionClient().send]: the client object itself is a cached
    singleton without behaviour of its own. *)
Variable rekognition : Rekognition.

(** [getSignedUrl(client, new GetObjectCommand({ Bucket, Key }), { expiresIn })] *)
Variable getSignedUrl : string -> string -> Z -> string.

Definition send (command : Command) : Async Response :=
  fun w =>
    (rekognition (sent w) command,
     {| db := db w; collectionReady := collectionReady w; sent := sent w ++ [command] |}).

Definition createSignedDownloadUrl (env : Env) (key : string)
    (expiresInSeconds : option Z) : Async string :=
  config <- lift (getStorageConfig env) ;;
  ret (getSignedUrl (storage_bucket config) key (nullish expiresInSeconds 3600)).

Definition serializePhoto (env : Env) (p : Photo) : Async SerializedPhoto :=
  previewUrl <- createSignedDownloadUrl env (photo_storageKey p) None ;;
  ret {| sp_id := photo_id p;
         sp_eventId := photo_eventId p;
         sp_status := photo_status p;
         sp_mimeType := photo_mimeType p;
         sp_fileSize := photo_fileSize p;
         sp_width := photo_width p;
         sp_height := photo_height p;
         sp_capturedAt := photo_capturedAt p;
         sp_publishedAt := photo_publishedAt p;
         sp_createdAt := photo_createdAt p;
         sp_previewUrl := previewUrl |}.

Definition name_is (error : JsError) (name : string) : bool :=
  match err_name error with
  | Some n => n === name
  | None => false
  end.

Definition ensureCollection (config : FaceSearchConfig) : Async unit :=
  ready <- get_collectionReady ;;
  if ready then ret tt
  else
    described <-
      try_catch
        (send (DescribeCollectionCommand (collectionId config)) ;;
         set_collectionReady true ;;
         ret true)
        (fun error =>
           if negb (name_is error "ResourceNotFoundException")
           then throw error
           else ret false) ;;
    if described then ret tt
    else
      send (CreateCollectionCommand (collectionId config)) ;;
      set_collectionReady true.

Definition clearExistingPhotoFaces (env : Env) (photoId : string) : Async unit :=
  existingFaces <-
    faceEmbedding_findMany
      (fun f => andb (fe_photoId f === photoId) (fe_provider f === FACE_PROVIDER)) ;;
  let faceIds := map fe_externalId existingFaces in
  let config := getFaceSearchConfig env in
  match config with
  | Some config =>
      if (0 <? Z.of_nat (List.length faceIds))
      then
        try_catch
          (send (DeleteFacesCommand (collectionId config) faceIds) ;; ret tt)
          (fun _ => ret tt)
      else ret tt
  | None => ret tt
  end ;;
  faceEmbedding_deleteMany
    (fun f => andb (fe_photoId f === photoId) (fe_provider f === FACE_PROVIDER)).

Definition record_FaceId (record : FaceRecord) : option string :=
  match record_Face record with
  | Some face => FaceId face
  | None => None
  end.

Definition indexPhotoFace (env : Env) (p : Photo) : Async FaceIndexResult :=
  match getFaceSearchConfig env with
  | None =>
      ret {| index_status := FaceIndexStatus.disabled;
             index_message := Some "Face search is not configured." |}
  | Some config =>
      try_catch
        (ensureCollection config ;;
         clearExistingPhotoFaces env (photo_id p) ;;
         response <-
           send (IndexFacesCommand (collectionId config) (photo_id p) 1
                   (bucket config) (photo_storageKey p)) ;;
         let faceRecords := nullish (response_FaceRecords response) [] in
         let firstFace :=
           match faceRecords with
           | record :: _ => record_Face record
           | [] => None
           end in
         let faceId :=
           match firstFace with
           | Some face => FaceId face
           | None => None
           end in
         match firstFace, faceId with
         | Some firstFace, Some faceId =>
             if negb (truthy faceId)
             then ret {| index_status := FaceIndexStatus.no_face_detected;
                         index_message := Some "No clear face detected in this photo." |}
             else
               (if (1 <? Z.of_nat (List.length faceRecords))
                then
                  let extraFaceIds :=
                    filter truthy
                      (flat_map
                         (fun record =>
                            match record_FaceId record with
                            | Some id => [id]
                            | None => []
                            end)
                         (skipn 1 faceRecords)) in
                  if (0 <? Z.of_nat (List.length extraFaceIds))
                  then send (DeleteFacesCommand (collectionId config) extraFaceIds) ;; ret tt
                  else ret tt
                else ret tt) ;;
               faceEmbedding_create
                 {| fe_photoId := photo_id p;
                    fe_provider := FACE_PROVIDER;
                    fe_externalId := faceId;
                    fe_confidence := Confidence firstFace |} ;;
               ret {| index_status := FaceIndexStatus.indexed; index_message := None |}
         | _, _ =>
             ret {| index_status := FaceIndexStatus.no_face_detected;
                    index_message := Some "No clear face detected in this photo." |}
         end)
        (fun error =>
           ret {| index_status := FaceIndexStatus.error;
                  index_message :=
                    Some (if err_is_Error error then err_message error
                          else "Unable to index face.") |})
  end.

Definition findSelfieMatches (env : Env) (eventId : string)
    (selfieBytes : list Byte.byte) (limit : Z) : Async SelfieSearchResult :=
  match getFaceSearchConfig env with
  | None =>
      ret {| search_status := SelfieSearchStatus.disabled;
             matches := [];
             search_message := Some "Face search is not configured." |}
  | Some config =>
      try_catch
        (ensureCollection config ;;
         response <-
           send (SearchFacesByImageCommand (collectionId config) selfieBytes 50
                   (getMatchThreshold env)) ;;
         let faceMatches := nullish (response_FaceMatches response) [] in
         if (Z.of_nat (List.length faceMatches) =? 0)
         then ret {| search_status := SelfieSearchStatus.no_matches;
                     matches := [];
                     search_message := None |}
         else
           let similarityByFaceId := fold_left recordSimilarity faceMatches JsMap.empty in
           let faceIds := JsMap.keys similarityByFaceId in
           if (Z.of_nat (List.length faceIds) =? 0)
           then ret {| search_status := SelfieSearchStatus.no_face_detected;
                       matches := [];
                       search_message := Some "No face detected in the selfie." |}
           else
             faceEmbeddings <-
               faceEmbedding_findMany_include_photo (selfieWhere eventId faceIds) ;;
             if (Z.of_nat (List.length faceEmbeddings) =? 0)
             then ret {| search_status := SelfieSearchStatus.no_matches;
                         matches := [];
                         search_message := None |}
             else
               let bestByPhotoId :=
                 fold_left (recordBest similarityByFaceId) faceEmbeddings JsMap.empty in
               let topMatches :=
                 slice0 (js_sort bySimilarityDesc (JsMap.values bestByPhotoId)) limit in
               serializedMatches <-
                 Promise_all
                   (fun match_ =>
                      sp <- serializePhoto env (best_photo match_) ;;
                      ret {| similarity := best_similarity match_; photo := sp |})
                   topMatches ;;
               ret {| search_status := SelfieSearchStatus.ok;
                      matches := serializedMatches;
                      search_message := None |})
        (fun error =>
           if name_is error "InvalidParameterException"
           then ret {| search_status := SelfieSearchStatus.no_face_detected;
                       matches := [];
                       search_message := Some "No face detected in the selfie." |}
           else ret {| search_status := SelfieSearchStatus.error;
                       matches := [];
                       search_message :=
                         Some (if err_is_Error error then err_message error
                               else "Face match search failed.") |})
  end.

End FaceSearch.

(** ** HTTP responses: [res.status(code).json(body)] *)

Record DownloadFile := mkDownloadFile {
  file_photoId : string;
  file_downloadUrl : string
}.

Inductive Json : Type :=
| json_error (error : string)
| json_received
| json_photo_download (photoId downloadUrl : string)
| json_bundle (count : Z) (files : list DownloadFile)
| json_find_me (status : SelfieSearchStatus.t) (matches : list SelfieMatchItem)
    (count : Z) (message : option string).

Record HttpResponse := mkHttpResponse {
  res_status : Z;
  res_body : Json
}.

Definition respond (code : Z) (body : Json) : Async HttpResponse :=
  ret {| res_status := code; res_body := body |}.

(** [ZodError] thrown by [schema.parse]. *)
Definition ZodError (message : string) : JsError :=
  {| err_is_Error := true; err_name := Some "ZodError"; err_message := message |}.

(** [z.string().min(1)] *)
Definition parse_nonempty (field value : string) : Completion string :=
  if (1 <=? Z.of_nat (String.length value)) then Normal value else Thrown (ZodError field).

(** ** routes/stripe-webhook *)

Record CustomerDetails := mkCustomerDetails {
  details_email : option string
}.

(** The fields of [Stripe.Checkout.Session] that the handler reads. *)
Record Session := mkSession {
  session_id : string;
  payment_intent : JsValue;
  customer_details : option CustomerDetails;
  customer_email : option string
}.

Record StripeEvent := mkStripeEvent {
  event_type : string;
  event_data_object : Session
}.

Definition markPurchasePaid (session : Session) : Async unit :=
  let paymentIntentId :=
    match payment_intent session with
    | JsString s => Some s
    | _ => None
    end in
  let buyerEmail :=
    nullish_opt
      (match customer_details session with
       | Some details => option_map toLowerCase (details_email details)
       | None => None
       end)
      (option_map toLowerCase (customer_email session)) in
  purchase_updateMany
    (fun p => purchase_stripeSessionId p === session_id session)
    (fun p =>
       {| purchase_id := purchase_id p;
          purchase_eventId := purchase_eventId p;
          purchase_buyerEmail :=
            match buyerEmail with
            | Some email => if truthy email then email else purchase_buyerEmail p
            | None => purchase_buyerEmail p
            end;
          purchase_stripeSessionId := purchase_stripeSessionId p;
          purchase_stripePaymentId := paymentIntentId;
          purchase_status := PAID;
          purchase_amountTotal := purchase_amountTotal p;
          purchase_currency := purchase_currency p;
          purchase_payoutStatus := purchase_payoutStatus p;
          purchase_createdAt := purchase_createdAt p |}).

Definition markPurchaseFailed (session : Session) : Async unit :=
  purchase_updateMany
    (fun p =>
       andb (purchase_stripeSessionId p === session_id session)
            (PurchaseStatus_eqb (purchase_status p) PENDING))
    (fun p =>
       {| purchase_id := purchase_id p;
          purchase_eventId := purchase_eventId p;
          purchase_buyerEmail := purchase_buyerEmail p;
          purchase_stripeSessionId := purchase_stripeSessionId p;
          purchase_stripePaymentId := purchase_stripePaymentId p;
          purchase_status := FAILED;
          purchase_amountTotal := purchase_amountTotal p;
          purchase_currency := purchase_currency p;
          purchase_payoutStatus := purchase_payoutStatus p;
          purchase_createdAt := purchase_createdAt p |}).

(** The webhook request: the signature header and the raw body, which is
    [None] when [req.body] is not a Buffer. *)
Record WebhookRequest := mkWebhookRequest {
  header_stripe_signature : option string;
  webhook_body : option (list Byte.byte)
}.

Section StripeWebhook.

(** [stripe.webhooks.constructEvent(payload, signature, webhookSecret)] *)
Variable constructEvent : list Byte.byte -> string -> string -> Completion StripeEvent.

(** payments/stripe: [constructStripeEvent] *)
Definition constructStripeEvent (env : Env) (payload : list Byte.byte)
    (signature : string) : Completion StripeEvent :=
  let stripe := if truthy_opt (STRIPE_SECRET_KEY env) then STRIPE_SECRET_KEY env else None in
  let webhookSecret := nullish (STRIPE_WEBHOOK_SECRET env) "" in
  match stripe with
  | Some _ =>
      if negb (truthy webhookSecret)
      then Thrown (new_Error "Stripe webhook is not configured.")
      else constructEvent payload signature webhookSecret
  | None => Thrown (new_Error "Stripe webhook is not configured.")
  end.

Definition stripeWebhookHandler (env : Env) (req : WebhookRequest) : Async HttpResponse :=
  match header_stripe_signature req with
  | None => respond 400 (json_error "Missing Stripe signature header.")
  | Some signature =>
      if negb (truthy signature)
      then respond 400 (json_error "Missing Stripe signature header.")
      else
        match webhook_body req with
        | None => respond 400 (json_error "Invalid webhook payload.")
        | Some body =>
            match constructStripeEvent env body signature with
            | Thrown error =>
                respond 400
                  (json_error (if err_is_Error error then err_message error
                               else "Invalid Stripe signature."))
            | Normal event =>
                let session := event_data_object event in
                (if orb (event_type event === "checkout.session.completed")
                        (event_type event === "checkout.session.async_payment_succeeded")
                 then markPurchasePaid session
                 else if orb (event_type event === "checkout.session.expired")
                             (event_type event === "checkout.session.async_payment_failed")
                 then markPurchaseFailed session
                 else ret tt) ;;
                respond 200 json_received
            end
        end
  end.

End StripeWebhook.

(** ** payments/purchase-access-token *)

Definition PURCHASE_ACCESS_TOKEN_TTL : string := "12h".

Definition getPurchaseAccessTokenSecret (env : Env) : string :=
  nullish
    (nullish_opt (PURCHASE_ACCESS_TOKEN_SECRET env) (JWT_SECRET env))
    "dev-purchase-secret".

Section PurchaseAccessToken.

(** [jwt.sign(payload, secret, { expiresIn })] *)
Variable jwt_sign : list (string * JsValue) -> string -> string -> string.

(** [jwt.verify(token, secret)] at the time of the request: it throws on a
    bad signature and on an expired token, and returns the decoded payload
    otherwise. *)
Variable jwt_verify : string -> string -> Completion JsValue.

Definition signPurchaseAccessToken (env : Env) (purchaseId : string) : string :=
  let payload := [("sub", JsString purchaseId); ("purchaseId", JsString purchaseId)] in
  jwt_sign payload (getPurchaseAccessTokenSecret env) PURCHASE_ACCESS_TOKEN_TTL.

Definition verifyPurchaseAccessToken (env : Env) (purchaseId token : string) : Completion unit :=
  match jwt_verify token (getPurchaseAccessTokenSecret env) with
  | Thrown error => Thrown error
  | Normal decoded =>
      match decoded with
      | JsObject fields =>
          match js_field "purchaseId" fields with
          | JsString id =>
              if negb (id === purchaseId)
              then Thrown (new_Error "Invalid purchase access token.")
              else Normal tt
          | _ => Thrown (new_Error "Invalid purchase access token.")
          end
      | _ => Thrown (new_Error "Invalid purchase access token.")
      end
  end.

End PurchaseAccessToken.

(** ** routes/public-purchases *)

Record PurchaseRequest := mkPurchaseRequest {
  params_purchaseId : string;
  params_photoId : string;
  header_authorization : option string;
  query_token : JsValue;
  header_x_purchase_token : option string
}.

Definition getPurchaseTokenFromRequest (req : PurchaseRequest) : option string :=
  let authHeader := header_authorization req in
  let bearerToken :=
    match authHeader with
    | Some h =>
        if andb (truthy h) (startsWith "Bearer " h)
        then Some (trim (string_drop (String.length "Bearer ") h))
        else None
    | None => None
    end in
  let queryToken :=
    match query_token req with
    | JsString s => Some s
    | _ => None
    end in
  let headerToken := header_x_purchase_token req in
  nullish_opt bearerToken (nullish_opt queryToken headerToken).

(** [findFirst] on purchases with [status: "PAID"] and [include: { items }]. *)
Definition getPaidPurchaseWithItems (purchaseId : string) : Async (option (Purchase * list PurchaseItem)) :=
  d <- get_db ;;
  ret (match find (fun p => andb (purchase_id p === purchaseId)
                                 (PurchaseStatus_eqb (purchase_status p) PAID))
                  (purchases d) with
       | Some p => Some (p, filter (fun i => item_purchaseId i === purchase_id p) (purchaseItems d))
       | None => None
       end).

Section PublicPurchases.

Variable getSignedUrl : string -> string -> Z -> string.
Variable jwt_verify : string -> string -> Completion JsValue.

(** payments/constants, which is not among the sources: the item type of
    the all-photos bundle. *)
Variable PURCHASE_ITEM_ALL_PHOTOS : string.

(** [GET /:purchaseId/download/photo/:photoId] *)
Definition download_photo (env : Env) (req : PurchaseRequest) : Async HttpResponse :=
  purchaseId <- lift (parse_nonempty "purchaseId" (params_purchaseId req)) ;;
  photoId <- lift (parse_nonempty "photoId" (params_photoId req)) ;;
  let token := getPurchaseTokenFromRequest req in
  match token with
  | None => respond 401 (json_error "Purchase access token is required.")
  | Some token =>
      if negb (truthy token)
      then respond 401 (json_error "Purchase access token is required.")
      else
        match verifyPurchaseAccessToken jwt_verify env purchaseId token with
        | Thrown _ => respond 401 (json_error "Invalid purchase access token.")
        | Normal _ =>
            purchase <- getPaidPurchaseWithItems purchaseId ;;
            match purchase with
            | None => respond 404 (json_error "Paid purchase not found.")
            | Some (purchase, items) =>
                let hasAllPhotos :=
                  existsb (fun item => item_itemType item === PURCHASE_ITEM_ALL_PHOTOS) items in
                let hasPhotoAccess :=
                  existsb
                    (fun item =>
                       match item_photoId item with
                       | Some id => id === photoId
                       | None => false
                       end)
                    items in
                if andb (negb hasAllPhotos) (negb hasPhotoAccess)
                then respond 403 (json_error "Photo is not included in this purchase.")
                else
                  found <-
                    photo_findFirst
                      (fun p =>
                         andb (photo_id p === photoId)
                           (andb (photo_eventId p === purchase_eventId purchase)
                                 (Bool.eqb (photo_isUploaded p) true))) ;;
                  match found with
                  | None => respond 404 (json_error "Photo not found.")
                  | Some p =>
                      downloadUrl <-
                        createSignedDownloadUrl getSignedUrl env (photo_storageKey p) (Some 600) ;;
                      respond 200 (json_photo_download (photo_id p) downloadUrl)
                  end
            end
        end
  end.

(** [GET /:purchaseId/download/all] *)
Definition download_all (env : Env) (req : PurchaseRequest) : Async HttpResponse :=
  purchaseId <- lift (parse_nonempty "purchaseId" (params_purchaseId req)) ;;
  let token := getPurchaseTokenFromRequest req in
  match token with
  | None => respond 401 (json_error "Purchase access token is required.")
  | Some token =>
      if negb (truthy token)
      then respond 401 (json_error "Purchase access token is required.")
      else
        match verifyPurchaseAccessToken jwt_verify env purchaseId token with
        | Thrown _ => respond 401 (json_error "Invalid purchase access token.")
        | Normal _ =>
            purchase <- getPaidPurchaseWithItems purchaseId ;;
            match purchase with
            | None => respond 404 (json_error "Paid purchase not found.")
            | Some (purchase, items) =>
                let hasAllPhotos :=
                  existsb (fun item => item_itemType item === PURCHASE_ITEM_ALL_PHOTOS) items in
                if negb hasAllPhotos
                then respond 403 (json_error "All-photos bundle was not purchased.")
                else
                  found <-
                    photo_findMany_ordered
                      (fun p =>
                         andb (photo_eventId p === purchase_eventId purchase)
                           (andb (Bool.eqb (photo_isUploaded p) true)
                                 (PhotoStatus_eqb (photo_status p) PUBLISHED))) ;;
                  files <-
                    Promise_all
                      (fun p =>
                         downloadUrl <-
                           createSignedDownloadUrl getSignedUrl env (photo_storageKey p) (Some 600) ;;
                         ret {| file_photoId := photo_id p; file_downloadUrl := downloadUrl |})
                      found ;;
                  respond 200 (json_bundle (Z.of_nat (List.length files)) files)
            end
        end
  end.

End PublicPurchases.

(** ** routes/public-events: the find-me route *)

Record UploadedFile := mkUploadedFile {
  mimetype : string;
  buffer : list Byte.byte
}.

(** [query_limit] is [Number(req.query.limit)] when the parameter is
    present. *)
Record FindMeRequest := mkFindMeRequest {
  params_eventSlug : string;
  query_limit : option JsNumber;
  file : option UploadedFile
}.

(** [z.coerce.number().int().min(1).max(50).optional().default(24)] *)
Definition findMeQuerySchema (limit : option JsNumber) : Completion Z :=
  match nullish limit (JsFinite 24) with
  | JsFinite q =>
      let r := Qred q in
      if negb (Pos.eqb (Qden r) 1) then Thrown (ZodError "limit")
      else if Qnum r <? 1 then Thrown (ZodError "limit")
      else if 50 <? Qnum r then Thrown (ZodError "limit")
      else Normal (Qnum r)
  | _ => Thrown (ZodError "limit")
  end.

Section PublicEvents.

Variable rekognition : Rekognition.
Variable getSignedUrl : string -> string -> Z -> string.

(** [POST /:eventSlug/find-me], after the multer middleware. *)
Definition find_me (env : Env) (req : FindMeRequest) : Async HttpResponse :=
  eventSlug <- lift (parse_nonempty "eventSlug" (params_eventSlug req)) ;;
  limit <- lift (findMeQuerySchema (query_limit req)) ;;
  match file req with
  | None => respond 400 (json_error "Selfie image is required in field 'selfie'.")
  | Some f =>
      if negb (startsWith "image/" (mimetype f))
      then respond 400 (json_error "Only image uploads are allowed for selfie matching.")
      else
        event <- event_findUnique_slug eventSlug ;;
        match event with
        | None => respond 404 (json_error "Event not found")
        | Some event =>
            result <-
              findSelfieMatches rekognition getSignedUrl env (event_id event) (buffer f) limit ;;
            match search_status result with
            | SelfieSearchStatus.disabled =>
                respond 503
                  (json_error
                     (nullish (search_message result) "Face search is currently unavailable."))
            | SelfieSearchStatus.error =>
                respond 500 (json_error (nullish (search_message result) "Face search failed."))
            | status =>
                respond 200
                  (json_find_me status (matches result)
                     (Z.of_nat (List.length (matches result))) (search_message result))
            end
        end
  end.

End PublicEvents.

(** ** routes/event-photos: the store update of the publish route *)

(** [prisma.photo.update({ where: { id }, data: { status: PUBLISHED,
    publishedAt: new Date() } })] *)
Definition photo_update_published (id : string) (now : Z) : Async unit :=
  photo_update id
    (fun p =>
       {| photo_id := photo_id p;
          photo_eventId := photo_eventId p;
          photo_storageKey := photo_storageKey p;
          photo_mimeType := photo_mimeType p;
          photo_fileSize := photo_fileSize p;
          photo_width := photo_width p;
          photo_height := photo_height p;
          photo_status := PUBLISHED;
          photo_capturedAt := photo_capturedAt p;
          photo_publishedAt := Some now;
          photo_createdAt := photo_createdAt p;
          photo_isUploaded := photo_isUploaded p |}).

(** ** Vocabulary of the statements *)

(** The FaceRecords stored for a photo: the rows that
    [clearExistingPhotoFaces] selects. *)
Definition faceRecordsOf (photoId : string) (d : Database) : list FaceEmbedding :=
  filter (fun f => andb (fe_photoId f === photoId) (fe_provider f === FACE_PROVIDER))
    (faceEmbeddings d).

(** The face that [indexPhotoFace] keeps from an [IndexFaces] answer: the
    first record, when it carries a non-empty face id. *)
Definition keptFace (records : list FaceRecord) : option (string * option Q) :=
  match records with
  | record :: _ =>
      match record_Face record with
      | Some face =>
          match FaceId face with
          | Some faceId => if truthy faceId then Some (faceId, Confidence face) else None
          | None => None
          end
      | None => None
      end
  | [] => None
  end.

(** The FaceRecords of the photo after an indexing that kept [kept]. *)
Definition recordsFor (p : Photo) (kept : option (string * option Q)) : list FaceEmbedding :=
  match kept with
  | Some (faceId, confidence) =>
      [{| fe_photoId := photo_id p;
          fe_provider := FACE_PROVIDER;
          fe_externalId := faceId;
          fe_confidence := confidence |}]
  | None => []
  end.

(** The [IndexFaces] command that [indexPhotoFace] sends for a photo. *)
Definition indexCommand (config : FaceSearchConfig) (p : Photo) : Command :=
  IndexFacesCommand (collectionId config) (photo_id p) 1 (bucket config) (photo_storageKey p).

(** The provider finds zero or one face in the photo: whenever it is sent
    the photo's [IndexFaces] command it answers, with at most one record. *)
Definition detectsAtMostOneFace (rekognition : Rekognition) (config : FaceSearchConfig)
    (p : Photo) : Prop :=
  forall history,
    exists response,
      rekognition history (indexCommand config p) = Normal response /\
      (List.length (nullish (response_FaceRecords response) []) <= 1)%nat.

(** The handles that the provider gives to the photo's face are not held
    by a FaceRecord of another photo. *)
Definition handlesUnclaimed (rekognition : Rekognition) (config : FaceSearchConfig)
    (p : Photo) (d : Database) : Prop :=
  forall history response faceId confidence f,
    rekognition history (indexCommand config p) = Normal response ->
    keptFace (nullish (response_FaceRecords response) []) = Some (faceId, confidence) ->
    In f (faceEmbeddings d) ->
    fe_provider f = FACE_PROVIDER ->
    fe_externalId f = faceId ->
    fe_photoId f = photo_id p.

(** What the provider answers to the search of one run of
    [findSelfieMatches]: the first two steps of its [try] block. *)
Definition providerSearch (rekognition : Rekognition) (env : Env) (config : FaceSearchConfig)
    (selfieBytes : list Byte.byte) : Async (list FaceMatch) :=
  ensureCollection rekognition config ;;
  response <-
    send rekognition
      (SearchFacesByImageCommand (collectionId config) selfieBytes 50 (getMatchThreshold env)) ;;
  ret (nullish (response_FaceMatches response) []).

(** The provider reported face handle [h] with similarity [s]. *)
Definition reported (faceMatches : list FaceMatch) (h : string) (s : Q) : Prop :=
  h <> "" /\
  exists m, In m faceMatches /\ match_FaceId m = Some h /\ Similarity m = Some s.

(** A handle that the first loop records: it was reported with a positive
    similarity. *)
Definition usableHandle (faceMatches : list FaceMatch) (h : string) : Prop :=
  exists s, reported faceMatches h s /\ (0 < s)%Q.

(** Face handle [h] resolves to the photo: a FaceRecord of this provider
    maps it there. *)
Definition resolves (d : Database) (h photoId : string) : Prop :=
  exists f,
    In f (faceEmbeddings d) /\
    fe_provider f = FACE_PROVIDER /\
    fe_externalId f = h /\
    fe_photoId f = photoId.

(** A photo row that a selfie search of the event may show. *)
Definition eligible (eventId : string) (p : Photo) : Prop :=
  photo_eventId p = eventId /\ photo_status p = PUBLISHED /\ photo_isUploaded p = true.

(** A FaceRecord of this provider whose photo is eligible. *)
Definition eligibleRecord (d : Database) (eventId : string) (f : FaceEmbedding) : Prop :=
  fe_provider f = FACE_PROVIDER /\
  exists p,
    find (fun q => photo_id q === fe_photoId f) (photos d) = Some p /\
    eligible eventId p.

(** The similarity that the second loop reads for a FaceRecord. *)
Definition similarityOf (similarityByFaceId : JsMap.t Q) (f : FaceEmbedding) : Q :=
  nullish (JsMap.get (fe_externalId f) similarityByFaceId) 0%Q.

(** Invariant of the first loop, after the matches [seen]: every handle
    of the map carries a positive similarity that was reported for it,
    and no reported positive similarity of a handle exceeds its entry. *)
Definition similarityInvariant (seen : list FaceMatch) (m : JsMap.t Q) : Prop :=
  NoDup (JsMap.keys m) /\
  (forall k v, JsMap.get k m = Some v -> (0 < v)%Q /\ reported seen k v) /\
  (forall k s, reported seen k s -> (0 < s)%Q ->
               exists v, JsMap.get k m = Some v /\ (s <= v)%Q).

(** Invariant of the second loop, after the rows [seen]: every entry is
    the row of its photo with the similarity read for that row, and no row
    of a photo has a similarity above the photo's entry. *)
Definition bestInvariant (similarityByFaceId : JsMap.t Q)
    (seen : list (FaceEmbedding * Photo)) (b : JsMap.t Best) : Prop :=
  NoDup (JsMap.keys b) /\
  (forall k x, JsMap.get k b = Some x ->
               exists f p, In (f, p) seen /\ fe_photoId f = k /\
                           x = {| best_similarity := similarityOf similarityByFaceId f;
                                  best_photo := p |}) /\
  (forall f p, In (f, p) seen ->
               exists x, JsMap.get (fe_photoId f) b = Some x /\
                         (similarityOf similarityByFaceId f <= best_similarity x)%Q).

(** [serializePhoto] with the preview URL it obtained. *)
Definition serializedWith (previewUrl : string) (p : Photo) : SerializedPhoto :=
  {| sp_id := photo_id p;
     sp_eventId := photo_eventId p;
     sp_status := photo_status p;
     sp_mimeType := photo_mimeType p;
     sp_fileSize := photo_fileSize p;
     sp_width := photo_width p;
     sp_height := photo_height p;
     sp_capturedAt := photo_capturedAt p;
     sp_publishedAt := photo_publishedAt p;
     sp_createdAt := photo_createdAt p;
     sp_previewUrl := previewUrl |}.

(** Similarities do not increase along the list. *)
Definition descending (l : list SelfieMatchItem) : Prop :=
  StronglySorted (fun a b => (similarity b <= similarity a)%Q) l.

(** ** Concrete data used by the examples *)

Module Sample.

Definition env : Env :=
  {| S3_BUCKET := Some "snapflow-photos";
     S3_REGION := None;
     AWS_REGION := None;
     AWS_REKOGNITION_REGION := None;
     AWS_REKOGNITION_COLLECTION_ID := Some "snapflow-faces";
     FACE_MATCH_THRESHOLD := None;
     PURCHASE_ACCESS_TOKEN_SECRET := Some "secret";
     JWT_SECRET := None;
     STRIPE_SECRET_KEY := Some "sk_test_example";
     STRIPE_WEBHOOK_SECRET := Some "whsec_test_secret" |}.

Definition purchase (id session : string) (status : PurchaseStatus) : Purchase :=
  {| purchase_id := id;
     purchase_eventId := "E1";
     purchase_buyerEmail := "guest@example.com";
     purchase_stripeSessionId := session;
     purchase_stripePaymentId := None;
     purchase_status := status;
     purchase_amountTotal := 2500;
     purchase_currency := "usd";
     purchase_payoutStatus := "pending";
     purchase_createdAt := 100 |}.

Definition photo (id key : string) (status : PhotoStatus) (publishedAt : option Z) : Photo :=
  {| photo_id := id;
     photo_eventId := "E1";
     photo_storageKey := key;
     photo_mimeType := "image/jpeg";
     photo_fileSize := None;
     photo_width := None;
     photo_height := None;
     photo_status := status;
     photo_capturedAt := None;
     photo_publishedAt := publishedAt;
     photo_createdAt := 50;
     photo_isUploaded := true |}.

Definition world (d : Database) : World :=
  {| db := d; collectionReady := true; sent := [] |}.

Definition session (id : string) : Session :=
  {| session_id := id;
     payment_intent := JsString "pi_1";
     customer_details := None;
     customer_email := Some "Guest@Example.com" |}.

(** A purchase that an expired checkout session has moved to [FAILED]. *)
Definition failed_world : World :=
  world {| events := []; photos := []; faceEmbeddings := [];
           purchases := [purchase "PUR1" "cs_1" FAILED]; purchaseItems := [] |}.

Definition paid_world : World :=
  world {| events := []; photos := []; faceEmbeddings := [];
           purchases := [purchase "PUR1" "cs_1" PAID]; purchaseItems := [] |}.

(** A toy JWT library: the token is the purchase id behind a fixed tag,
    and verification gives the payload back. *)
Definition jwt_verify (token secret : string) : Completion JsValue :=
  if andb (startsWith "jwt:" token) (secret === "secret")
  then Normal (JsObject [("sub", JsString (string_drop 4 token));
                         ("purchaseId", JsString (string_drop 4 token));
                         ("iat", JsNum (JsFinite 0));
                         ("exp", JsNum (JsFinite 43200))])
  else Thrown (mkJsError true (Some "JsonWebTokenError") "invalid signature").

Definition getSignedUrl (bucket key : string) (expiresIn : Z) : string :=
  "https://" ++ bucket ++ "/" ++ key.

Definition ALL_PHOTOS : string := "ALL_PHOTOS".

Definition all_photos_item : PurchaseItem :=
  {| item_id := "IT1";
     item_purchaseId := "PUR1";
     item_photoId := None;
     item_itemType := ALL_PHOTOS;
     item_amount := 2500 |}.

Definition P1 : Photo := photo "P1" "events/E1/original/p1.jpg" PUBLISHED (Some 60).

(** [P9] is uploaded but still a draft. *)
Definition P9 : Photo := photo "P9" "events/E1/original/p9.jpg" DRAFT None.

(** Purchase [PUR1] of event [E1] is paid and has one all-photos item. *)
Definition bundle_world : World :=
  world {| events := [];
           photos := [P1; P9];
           faceEmbeddings := [];
           purchases := [purchase "PUR1" "cs_1" PAID];
           purchaseItems := [all_photos_item] |}.

Definition request (purchaseId photoId token : string) : PurchaseRequest :=
  {| params_purchaseId := purchaseId;
     params_photoId := photoId;
     header_authorization := Some ("Bearer " ++ token)%string;
     query_token := JsUndefined;
     header_x_purchase_token := None |}.

Definition payload (purchaseId : string) : list (string * JsValue) :=
  [("sub", JsString purchaseId); ("purchaseId", JsString purchaseId);
   ("iat", JsNum (JsFinite 0)); ("exp", JsNum (JsFinite 43200))].

Definition storage : StorageConfig :=
  {| storage_bucket := "snapflow-photos"; storage_region := "us-east-1" |}.

Definition config : FaceSearchConfig :=
  {| bucket := "snapflow-photos"; collectionId := "snapflow-faces"; region := "us-east-1" |}.

Definition face (id : string) : Face :=
  {| FaceId := Some id; Confidence := Some (999 # 10) |}.

(** Photo [P1] has no FaceRecord yet. *)
Definition unindexed_world : World :=
  world {| events := []; photos := [P1]; faceEmbeddings := [];
           purchases := []; purchaseItems := [] |}.

(** A provider that reports two faces for a photo and then fails the
    deletion of the extra one. *)
Definition two_faces_then_failure : Rekognition :=
  fun _ command =>
    match command with
    | IndexFacesCommand _ _ _ _ _ =>
        Normal (IndexFacesResponse
                  (Some [{| record_Face := Some (face "F1") |};
                         {| record_Face := Some (face "F2") |}]))
    | DeleteFacesCommand _ _ =>
        Thrown (mkJsError true (Some "ThrottlingException") "Rate exceeded")
    | _ => Normal EmptyResponse
    end.

(** A provider that reports one face, with a handle made from the number
    of commands it has seen. *)
Definition one_face : Rekognition :=
  fun history command =>
    match command with
    | IndexFacesCommand _ _ _ _ _ =>
        Normal (IndexFacesResponse
                  (Some [{| record_Face :=
                              Some (face (if Nat.leb (List.length history) 1
                                          then "F1" else "F2")) |}]))
    | _ => Normal EmptyResponse
    end.

(** Photo [P1] of event [E1] has one FaceRecord, for handle [F1]; the
    draft photo [P9] has one for [F9]. *)
Definition indexed_world : World :=
  world {| events := [{| event_id := "E1"; event_ownerId := "U1";
                         event_name := "Gala"; event_slug := "gala" |}];
           photos := [P1; P9];
           faceEmbeddings :=
             [{| fe_photoId := "P1"; fe_provider := FACE_PROVIDER;
                 fe_externalId := "F1"; fe_confidence := None |};
              {| fe_photoId := "P9"; fe_provider := FACE_PROVIDER;
                 fe_externalId := "F9"; fe_confidence := None |}];
           purchases := [];
           purchaseItems := [] |}.

(** The provider reports [F1] twice, with 91.2 and with 87.0. *)
Definition duplicate_handles : Rekognition :=
  fun _ command =>
    match command with
    | SearchFacesByImageCommand _ _ _ _ =>
        Normal (SearchFacesByImageResponse
                  (Some [{| Similarity := Some (912 # 10); match_Face := Some (face "F1") |};
                         {| Similarity := Some (870 # 10); match_Face := Some (face "F1") |}]))
    | _ => Normal EmptyResponse
    end.

(** The provider reports one match that carries no face. *)
Definition faceless_match : Rekognition :=
  fun _ command =>
    match command with
    | SearchFacesByImageCommand _ _ _ _ =>
        Normal (SearchFacesByImageResponse
                  (Some [{| Similarity := Some (900 # 10); match_Face := None |}]))
    | _ => Normal EmptyResponse
    end.

Definition selfie : list Byte.byte := [Byte.xff; Byte.xd8; Byte.xff].

End Sample.

(** * More of the code *)

(** ** face/rekognition-face-search, continued *)

(** [extraFaceIds] of [indexPhotoFace]: the non-empty face ids of the
    records after the first. *)
Definition extraFaceIds (records : list FaceRecord) : list string :=
  filter truthy
    (flat_map
       (fun record =>
          match record_FaceId record with
          | Some id => [id]
          | None => []
          end)
       (skipn 1 records)).

(** ** utils/slug and photos/storage-key: names made safe

    Strings are read as ASCII text: a byte outside ASCII is never a letter
    or a digit, and lower-casing leaves it alone.  (JavaScript lower-cases
    a few letters outside ASCII to ASCII letters, so on such input the text
    between the dashes can differ; the character classes of the result do
    not.) *)

Definition is_lower_alnum (c : ascii) : bool :=
  let n := nat_of_ascii c in
  orb (andb (Nat.leb 97 n) (Nat.leb n 122)) (andb (Nat.leb 48 n) (Nat.leb n 57)).

Definition is_dash (c : ascii) : bool := Ascii.eqb c "-"%char.

(** [s.replace(/[^...]+/g, "-")] for the character class [keep]: every
    maximal run of characters outside the class becomes one dash.  [inRun]
    says that the previous character was outside the class. *)
Fixpoint dashRuns (keep : ascii -> bool) (inRun : bool) (s : string) : string :=
  match s with
  | EmptyString => EmptyString
  | String c rest =>
      if keep c then String c (dashRuns keep false rest)
      else if inRun then dashRuns keep true rest
      else String "-"%char (dashRuns keep true rest)
  end.

Fixpoint dropDashes (s : string) : string :=
  match s with
  | EmptyString => EmptyString
  | String c rest => if is_dash c then dropDashes rest else s
  end.

(** [s.replace(/^-+|-+$/g, "")] *)
Definition stripDashes (s : string) : string :=
  string_rev (dropDashes (string_rev (dropDashes s))).

(** utils/slug: [normalizeBaseSlug] *)
Definition normalizeBaseSlug (value : string) : string :=
  let base := stripDashes (dashRuns is_lower_alnum false (toLowerCase (trim value))) in
  if truthy base then base else "event".







(** ** auth/jwt and middleware/auth *)

Record AuthTokenPayload := mkAuthTokenPayload {
  auth_sub : string;
  auth_email : string;
  auth_role : string
}.

Definition ACCESS_TOKEN_TTL : string := "7d".

Definition getJwtSecret (env : Env) : string :=
  nullish (JWT_SECRET env) "dev-only-change-this-secret".

Section AccessToken.

Variable jwt_sign : list (string * JsValue) -> string -> string -> string.
Variable jwt_verify : string -> string -> Completion JsValue.

Definition signAccessToken (env : Env) (payload : AuthTokenPayload) : string :=
  jwt_sign
    [("sub", JsString (auth_sub payload));
     ("email", JsString (auth_email payload));
     ("role", JsString (auth_role payload))]
    (getJwtSecret env) ACCESS_TOKEN_TTL.

Definition verifyAccessToken (env : Env) (token : string) : Completion AuthTokenPayload :=
  match jwt_verify token (getJwtSecret env) with
  | Thrown error => Thrown error
  | Normal decoded =>
      match decoded with
      | JsObject fields =>
          match js_field "sub" fields, js_field "email" fields, js_field "role" fields with
          | JsString sub, JsString email, JsString role =>
              Normal {| auth_sub := sub; auth_email := email; auth_role := role |}
          | _, _, _ => Thrown (new_Error "Invalid token payload")
          end
      | _ => Thrown (new_Error "Invalid token payload")
      end
  end.

(** middleware/auth: [requireAuth] either answers 401 or calls [next]
    with [req.authUser] set. *)
Definition requireAuth (env : Env) (authorization : option string) :
    HttpResponse + AuthTokenPayload :=
  match authorization with
  | Some authHeader =>
      if orb (negb (truthy authHeader)) (negb (startsWith "Bearer " authHeader))
      then inl {| res_status := 401; res_body := json_error "Unauthorized" |}
      else
        let token := trim (string_drop (String.length "Bearer ") authHeader) in
        match verifyAccessToken env token with
        | Normal payload => inr payload
        | Thrown _ => inl {| res_status := 401; res_body := json_error "Unauthorized" |}
        end
  | None => inl {| res_status := 401; res_body := json_error "Unauthorized" |}
  end.

End AccessToken.

(** ** Answers of the routes modelled below *)

Record PurchaseSummary := mkPurchaseSummary {
  summary_id : string;
  summary_status : PurchaseStatus;
  summary_eventId : string;
  summary_eventSlug : string;
  summary_eventName : string;
  summary_buyerEmail : string;
  summary_hasAllPhotos : bool;
  summary_purchasedPhotoIds : list string
}.

Inductive ApiJson : Type :=
| api_error (error : string)
| api_unpaid (error : string) (status : PurchaseStatus)
| api_session (purchase : PurchaseSummary) (accessToken : string)
| api_photos (photos : list SerializedPhoto)
| api_photo (photo : SerializedPhoto) (faceIndexing : option FaceIndexResult).

Record ApiResponse := mkApiResponse {
  api_status : Z;
  api_body : ApiJson
}.

Definition answer (code : Z) (body : ApiJson) : Async ApiResponse :=
  ret {| api_status := code; api_body := body |}.

(** ** routes/public-purchases: the session route *)

Section PurchaseSession.

Variable jwt_sign : list (string * JsValue) -> string -> string -> string.
Variable PURCHASE_ITEM_ALL_PHOTOS : string.

(** [GET /session/:sessionId].  The query includes the purchase's event;
    the foreign key makes that row exist, and a store without it makes the
    query fail. *)
Definition purchase_session (env : Env) (sessionId : string) : Async ApiResponse :=
  sessionId <- lift (parse_nonempty "sessionId" sessionId) ;;
  d <- get_db ;;
  match find (fun p => purchase_stripeSessionId p === sessionId) (purchases d) with
  | None => answer 404 (api_error "Purchase not found for this session.")
  | Some purchase =>
      match find (fun e => event_id e === purchase_eventId purchase) (events d) with
      | None => throw (new_Error "Inconsistent query result")
      | Some event =>
          let items := filter (fun i => item_purchaseId i === purchase_id purchase)
                         (purchaseItems d) in
          if negb (PurchaseStatus_eqb (purchase_status purchase) PAID)
          then answer 402 (api_unpaid "Purchase is not paid yet." (purchase_status purchase))
          else
            let hasAllPhotos :=
              existsb (fun item => item_itemType item === PURCHASE_ITEM_ALL_PHOTOS) items in
            let purchasedPhotoIds :=
              filter truthy
                (flat_map
                   (fun item =>
                      match item_photoId item with
                      | Some id => [id]
                      | None => []
                      end)
                   items) in
            let accessToken := signPurchaseAccessToken jwt_sign env (purchase_id purchase) in
            answer 200
              (api_session
                 {| summary_id := purchase_id purchase;
                    summary_status := purchase_status purchase;
                    summary_eventId := purchase_eventId purchase;
                    summary_eventSlug := event_slug event;
                    summary_eventName := event_name event;
                    summary_buyerEmail := purchase_buyerEmail purchase;
                    summary_hasAllPhotos := hasAllPhotos;
                    summary_purchasedPhotoIds := purchasedPhotoIds |}
                 accessToken)
      end
  end.

End PurchaseSession.

(** ** routes/public-events: the gallery route *)

Section PublicGallery.

Variable getSignedUrl : string -> string -> Z -> string.

(** [GET /:eventSlug/photos] *)
Definition public_photos (env : Env) (eventSlug : string) : Async ApiResponse :=
  eventSlug <- lift (parse_nonempty "eventSlug" eventSlug) ;;
  event <- event_findUnique_slug eventSlug ;;
  match event with
  | None => answer 404 (api_error "Event not found")
  | Some event =>
      found <-
        photo_findMany_ordered
          (fun p =>
             andb (photo_eventId p === event_id event)
               (andb (Bool.eqb (photo_isUploaded p) true)
                     (PhotoStatus_eqb (photo_status p) PUBLISHED))) ;;
      serialized <- Promise_all (serializePhoto getSignedUrl env) found ;;
      answer 200 (api_photos serialized)
  end.

End PublicGallery.

(** ** realtime/event-updates

    The module keeps one [EventEmitter].  A listener is known by its
    identity; what a call of it does is recorded in [calls].  [on] appends
    the listener to the listeners of the channel, [off] removes the most
    recently added instance of it, and [emit] calls the listeners of the
    channel in the order of their registration. *)

Inductive RealtimePhotoEventType : Type :=
| photo_uploaded
| photo_published
| photo_unpublished.

Record RealtimePhotoEvent := mkRealtimePhotoEvent {
  rt_type : RealtimePhotoEventType;
  rt_eventSlug : string;
  rt_photoId : string;
  rt_timestamp : Z
}.

Definition Listener : Type := nat.

Record Bus := mkBus {
  registered : JsMap.t (list Listener);
  calls : list (Listener * RealtimePhotoEvent)
}.

Definition listenersOf (channel : string) (bus : Bus) : list Listener :=
  nullish (JsMap.get channel (registered bus)) [].

Fixpoint remove_first (l : Listener) (ls : list Listener) : list Listener :=
  match ls with
  | [] => []
  | x :: rest => if Nat.eqb x l then rest else x :: remove_first l rest
  end.

Definition remove_last (l : Listener) (ls : list Listener) : list Listener :=
  rev (remove_first l (rev ls)).

Definition emitter_on (channel : string) (l : Listener) (bus : Bus) : Bus :=
  {| registered := JsMap.set channel (listenersOf channel bus ++ [l]) (registered bus);
     calls := calls bus |}.

Definition emitter_off (channel : string) (l : Listener) (bus : Bus) : Bus :=
  {| registered := JsMap.set channel (remove_last l (listenersOf channel bus)) (registered bus);
     calls := calls bus |}.

Definition emitter_emit (channel : string) (payload : RealtimePhotoEvent) (bus : Bus) : Bus :=
  {| registered := registered bus;
     calls := calls bus ++ map (fun l => (l, payload)) (listenersOf channel bus) |}.

Definition getChannel (eventSlug : string) : string := ("event:" ++ eventSlug)%string.

(** [timestamp] is the instant of [new Date()]. *)
Definition publishEventUpdate (timestamp : Z) (eventSlug photoId : string)
    (type : RealtimePhotoEventType) (bus : Bus) : Bus :=
  let payload :=
    {| rt_type := type; rt_eventSlug := eventSlug; rt_photoId := photoId;
       rt_timestamp := timestamp |} in
  emitter_emit (getChannel eventSlug) payload bus.

Definition subscribeEventUpdates (eventSlug : string) (listener : Listener) (bus : Bus) : Bus :=
  emitter_on (getChannel eventSlug) listener bus.

(** The function that [subscribeEventUpdates] returns. *)
Definition unsubscribe (eventSlug : string) (listener : Listener) (bus : Bus) : Bus :=
  emitter_off (getChannel eventSlug) listener bus.

(** The calls that a listener has received. *)
Definition receivedBy (listener : Listener) (bus : Bus) : list RealtimePhotoEvent :=
  map snd (filter (fun call => Nat.eqb (fst call) listener) (calls bus)).

(** ** routes/event-photos: complete, publish, unpublish

    These handlers work on the store and on the realtime bus.  The column
    [uploadedAt] is left out like [updatedAt]: no code reads it.  The row
    that [prisma.photo.update] returns is the row that was found with the
    new data applied: [id] is the primary key. *)

Record Server := mkServer {
  world : World;
  bus : Bus
}.

Definition Handler (A : Type) : Type := Server -> Completion A * Server.

Definition hret {A : Type} (a : A) : Handler A := fun s => (Normal a, s).

Definition hbind {A B : Type} (m : Handler A) (k : A -> Handler B) : Handler B :=
  fun s =>
    match m s with
    | (Normal a, s') => k a s'
    | (Thrown e, s') => (Thrown e, s')
    end.

(** An asynchronous computation on the store. *)
Definition onWorld {A : Type} (m : Async A) : Handler A :=
  fun s =>
    let (c, w') := m (world s) in
    (c, {| world := w'; bus := bus s |}).

(** A synchronous call into the realtime module. *)
Definition onBus (f : Bus -> Bus) : Handler unit :=
  fun s => (Normal tt, {| world := world s; bus := f (bus s) |}).

Declare Scope handler_scope.
Delimit Scope handler_scope with handler.
Notation "x <- m ;; k" := (hbind m (fun x => k))
  (at level 100, m at next level, right associativity) : handler_scope.
Notation "m ;; k" := (hbind m (fun _ => k))
  (at level 100, right associativity) : handler_scope.

Definition reply (code : Z) (body : ApiJson) : Handler ApiResponse :=
  hret {| api_status := code; api_body := body |}.

Definition faceEmbedding_findFirst (where_ : FaceEmbedding -> bool) :
    Async (option FaceEmbedding) :=
  d <- get_db ;;
  ret (find where_ (faceEmbeddings d)).

(** events/event-access: [assertEventOwner] *)
Definition assertEventOwner (eventId ownerId : string) : Async (option Event) :=
  d <- get_db ;;
  ret (find (fun e => andb (event_id e === eventId) (event_ownerId e === ownerId)) (events d)).

Record PhotoRequest := mkPhotoRequest {
  authUser : option AuthTokenPayload;
  params_eventId : string;
  photo_params_photoId : string
}.

Definition with_isUploaded (p : Photo) : Photo :=
  {| photo_id := photo_id p;
     photo_eventId := photo_eventId p;
     photo_storageKey := photo_storageKey p;
     photo_mimeType := photo_mimeType p;
     photo_fileSize := photo_fileSize p;
     photo_width := photo_width p;
     photo_height := photo_height p;
     photo_status := photo_status p;
     photo_capturedAt := photo_capturedAt p;
     photo_publishedAt := photo_publishedAt p;
     photo_createdAt := photo_createdAt p;
     photo_isUploaded := true |}.

Definition with_published (now : Z) (p : Photo) : Photo :=
  {| photo_id := photo_id p;
     photo_eventId := photo_eventId p;
     photo_storageKey := photo_storageKey p;
     photo_mimeType := photo_mimeType p;
     photo_fileSize := photo_fileSize p;
     photo_width := photo_width p;
     photo_height := photo_height p;
     photo_status := PUBLISHED;
     photo_capturedAt := photo_capturedAt p;
     photo_publishedAt := Some now;
     photo_createdAt := photo_createdAt p;
     photo_isUploaded := photo_isUploaded p |}.

Definition with_draft (p : Photo) : Photo :=
  {| photo_id := photo_id p;
     photo_eventId := photo_eventId p;
     photo_storageKey := photo_storageKey p;
     photo_mimeType := photo_mimeType p;
     photo_fileSize := photo_fileSize p;
     photo_width := photo_width p;
     photo_height := photo_height p;
     photo_status := DRAFT;
     photo_capturedAt := photo_capturedAt p;
     photo_publishedAt := None;
     photo_createdAt := photo_createdAt p;
     photo_isUploaded := photo_isUploaded p |}.

Section EventPhotos.

Variable rekognition : Rekognition.
Variable getSignedUrl : string -> string -> Z -> string.

Local Open Scope handler_scope.

(** The common start of the three handlers: the authenticated user, the
    route parameters, the owned event and the photo of that event. *)
Definition withOwnedPhoto (req : PhotoRequest)
    (k : Event -> Photo -> Handler ApiResponse) : Handler ApiResponse :=
  match authUser req with
  | None => reply 401 (api_error "Unauthorized")
  | Some user =>
      if negb (truthy (auth_sub user)) then reply 401 (api_error "Unauthorized")
      else
        eventId <- onWorld (lift (parse_nonempty "eventId" (params_eventId req))) ;;
        photoId <- onWorld (lift (parse_nonempty "photoId" (photo_params_photoId req))) ;;
        event <- onWorld (assertEventOwner eventId (auth_sub user)) ;;
        match event with
        | None => reply 404 (api_error "Event not found")
        | Some event =>
            found <-
              onWorld
                (photo_findFirst
                   (fun p => andb (photo_id p === photoId) (photo_eventId p === eventId))) ;;
            match found with
            | None => reply 404 (api_error "Photo not found")
            | Some existingPhoto => k event existingPhoto
            end
        end
  end.

(** [POST /:eventId/photos/:photoId/complete] *)
Definition complete_upload (env : Env) (emittedAt : Z) (req : PhotoRequest) :
    Handler ApiResponse :=
  withOwnedPhoto req
    (fun event existingPhoto =>
       onWorld (photo_update (photo_id existingPhoto) with_isUploaded) ;;
       let updated := with_isUploaded existingPhoto in
       faceIndexing <- onWorld (indexPhotoFace rekognition env updated) ;;
       onBus (publishEventUpdate emittedAt (event_slug event) (photo_id updated)
                photo_uploaded) ;;
       serialized <- onWorld (serializePhoto getSignedUrl env updated) ;;
       reply 200 (api_photo serialized (Some faceIndexing))).

(** [POST /:eventId/photos/:photoId/publish] *)
Definition publish_photo (env : Env) (now emittedAt : Z) (req : PhotoRequest) :
    Handler ApiResponse :=
  withOwnedPhoto req
    (fun event existingPhoto =>
       if negb (photo_isUploaded existingPhoto)
       then reply 400 (api_error "Photo upload is not complete")
       else
         onWorld (photo_update_published (photo_id existingPhoto) now) ;;
         let updated := with_published now existingPhoto in
         hasIndexedFace <-
           onWorld
             (faceEmbedding_findFirst
                (fun f => andb (fe_photoId f === photo_id updated)
                               (fe_provider f === FACE_PROVIDER))) ;;
         faceIndexing <-
           match hasIndexedFace with
           | Some _ => hret None
           | None =>
               result <- onWorld (indexPhotoFace rekognition env updated) ;;
               hret (Some result)
           end ;;
         onBus (publishEventUpdate emittedAt (event_slug event) (photo_id updated)
                  photo_published) ;;
         serialized <- onWorld (serializePhoto getSignedUrl env updated) ;;
         reply 200 (api_photo serialized faceIndexing)).

(** [POST /:eventId/photos/:photoId/unpublish] *)
Definition unpublish_photo (env : Env) (emittedAt : Z) (req : PhotoRequest) :
    Handler ApiResponse :=
  withOwnedPhoto req
    (fun event existingPhoto =>
       onWorld (photo_update (photo_id existingPhoto) with_draft) ;;
       let updated := with_draft existingPhoto in
       onBus (publishEventUpdate emittedAt (event_slug event) (photo_id updated)
                photo_unpublished) ;;
       serialized <- onWorld (serializePhoto getSignedUrl env updated) ;;
       reply 200 (api_photo serialized None)).

End EventPhotos.


(** ** Concrete data used by the further examples *)

Module Demo.


(** A deployment that signs user tokens and purchase grants with the same
    secret: [PURCHASE_ACCESS_TOKEN_SECRET] is not set. *)
Definition shared_env : Env :=
  {| S3_BUCKET := Some "snapflow-photos";
     S3_REGION := None;
     AWS_REGION := None;
     AWS_REKOGNITION_REGION := None;
     AWS_REKOGNITION_COLLECTION_ID := Some "snapflow-faces";
     FACE_MATCH_THRESHOLD := None;
     PURCHASE_ACCESS_TOKEN_SECRET := None;
     JWT_SECRET := Some "secret";
     STRIPE_SECRET_KEY := Some "sk_test_example";
     STRIPE_WEBHOOK_SECRET := Some "whsec_test_secret" |}.

Definition owner : AuthTokenPayload :=
  {| auth_sub := "U1"; auth_email := "owner@example.com"; auth_role := "PHOTOGRAPHER" |}.

Definition timeClaims : list (string * JsValue) :=
  [("iat", JsNum (JsFinite 0)); ("exp", JsNum (JsFinite 604800))].

(** A toy JWT library with two shapes of token: [u:<sub>] for a payload
    with an email, which it decodes as a token of [owner]'s account, and
    [p:<sub>] for any other payload, which it decodes as a purchase
    grant. *)
Definition jwt_sign (payload : list (string * JsValue)) (secret expiresIn : string) : string :=
  match js_field "email" payload, js_field "sub" payload with
  | JsString _, JsString sub => ("u:" ++ sub)%string
  | _, JsString sub => ("p:" ++ sub)%string
  | _, _ => ""
  end.

Definition jwt_verify (token secret : string) : Completion JsValue :=
  if negb (secret === "secret")
  then Thrown (mkJsError true (Some "JsonWebTokenError") "invalid signature")
  else if startsWith "u:" token
  then Normal (JsObject ([("sub", JsString (string_drop 2 token));
                          ("email", JsString "owner@example.com");
                          ("role", JsString "PHOTOGRAPHER")] ++ timeClaims))
  else if startsWith "p:" token
  then Normal (JsObject ([("sub", JsString (string_drop 2 token));
                          ("purchaseId", JsString (string_drop 2 token))] ++ timeClaims))
  else Thrown (mkJsError true (Some "JsonWebTokenError") "jwt malformed").

Definition gala : Event :=
  {| event_id := "E1"; event_ownerId := "U1"; event_name := "Gala"; event_slug := "gala" |}.

(** Event [E1] with the published photo [P1] and the draft [P9]; purchase
    [PUR1] of checkout session [cs_1] is paid and holds the bundle. *)
Definition shop_world : World :=
  Sample.world
    {| events := [gala];
       photos := [Sample.P1; Sample.P9];
       faceEmbeddings := [];
       purchases := [Sample.purchase "PUR1" "cs_1" PAID];
       purchaseItems := [Sample.all_photos_item] |}.

(** The signing side of [Sample.jwt_verify]. *)
Definition grant_sign (payload : list (string * JsValue)) (secret expiresIn : string) : string :=
  match js_field "purchaseId" payload with
  | JsString id => ("jwt:" ++ id)%string
  | _ => ""
  end.

Definition bundle_request : PurchaseRequest :=
  {| params_purchaseId := "PUR1";
     params_photoId := "";
     header_authorization := None;
     query_token := JsString "jwt:PUR1";
     header_x_purchase_token := None |}.

(** A bus on which nobody listens and nothing was delivered. *)
Definition quiet : Bus := {| registered := JsMap.empty; calls := [] |}.

(** A Stripe library that accepts the signature [sig_ok] and then reports
    that checkout session [cs_1] was completed. *)
Definition constructEvent (payload : list Byte.byte) (signature secret : string) :
    Completion StripeEvent :=
  if signature === "sig_ok"
  then Normal {| event_type := "checkout.session.completed";
                 event_data_object := Sample.session "cs_1" |}
  else Thrown (mkJsError true (Some "StripeSignatureVerificationError")
                 "No signatures found matching the expected signature for payload.").

Definition webhook : WebhookRequest :=
  {| header_stripe_signature := Some "sig_ok"; webhook_body := Some [] |}.

Definition pending_world : World :=
  Sample.world
    {| events := [gala];
       photos := [];
       faceEmbeddings := [];
       purchases := [Sample.purchase "PUR1" "cs_1" PENDING];
       purchaseItems := [Sample.all_photos_item] |}.


(** A provider that reports three faces for a photo and deletes what it
    is asked to delete. *)
Definition three_faces : Rekognition :=
  fun _ command =>
    match command with
    | IndexFacesCommand _ _ _ _ _ =>
        Normal (IndexFacesResponse
                  (Some [{| record_Face := Some (Sample.face "F1") |};
                         {| record_Face := Some (Sample.face "F2") |};
                         {| record_Face := Some (Sample.face "F3") |}]))
    | _ => Normal EmptyResponse
    end.

(** The server with the shop's store and one listener, [7], on the
    updates of the gala. *)
Definition studio : Server :=
  {| world := shop_world; bus := subscribeEventUpdates "gala" 7%nat quiet |}.

Definition photo_request (photoId : string) : PhotoRequest :=
  {| authUser := Some owner; params_eventId := "E1"; photo_params_photoId := photoId |}.

(** An environment without the storage bucket and without the Stripe
    webhook secret. *)
Definition bare_env : Env :=
  {| S3_BUCKET := None;
     S3_REGION := None;
     AWS_REGION := None;
     AWS_REKOGNITION_REGION := None;
     AWS_REKOGNITION_COLLECTION_ID := Some "snapflow-faces";
     FACE_MATCH_THRESHOLD := None;
     PURCHASE_ACCESS_TOKEN_SECRET := Some "secret";
     JWT_SECRET := None;
     STRIPE_SECRET_KEY := Some "sk_test_example";
     STRIPE_WEBHOOK_SECRET := None |}.

End Demo.

(** * Properties *)

Ltac unfold_async :=
  unfold bind, ret, throw, lift, try_catch, get_db, put_db, get_collectionReady,
    set_collectionReady, respond in *.

(** ** Webhook reconciliation *)

Lemma markPurchaseFailed_run session w :
  markPurchaseFailed session w =
  (Normal tt,
   {| db :=
        with_purchases
          (map (fun p =>
                  if andb (purchase_stripeSessionId p === session_id session)
                          (PurchaseStatus_eqb (purchase_status p) PENDING)
                  then {| purchase_id := purchase_id p;
                          purchase_eventId := purchase_eventId p;
                          purchase_buyerEmail := purchase_buyerEmail p;
                          purchase_stripeSessionId := purchase_stripeSessionId p;
                          purchase_stripePaymentId := purchase_stripePaymentId p;
                          purchase_status := FAILED;
                          purchase_amountTotal := purchase_amountTotal p;
                          purchase_currency := purchase_currency p;
                          purchase_payoutStatus := purchase_payoutStatus p;
                          purchase_createdAt := purchase_createdAt p |}
                  else p)
               (purchases (db w)))
          (db w);
      collectionReady := collectionReady w;
      sent := sent w |}).
Proof. reflexivity. Qed.

(** A row that is not [PENDING] is left as it is by a failed
    reconciliation. *)
Lemma markPurchaseFailed_row session w n p :
  nth_error (purchases (db w)) n = Some p ->
  purchase_status p <> PENDING ->
  nth_error (purchases (db (snd (markPurchaseFailed session w)))) n = Some p.
Proof.
  intros Hn Hs. rewrite markPurchaseFailed_run. simpl.
  rewrite nth_error_map, Hn. simpl.
  destruct (purchase_status p); try contradiction; simpl;
    rewrite andb_false_r; reflexivity.
Qed.

(** C9: a failed reconciliation applied to a store leaves every purchase
    whose payment state is paid exactly as it was, so its state remains
    paid; the call itself completes normally. *)
Theorem markPurchaseFailed_keeps_paid session w n p :
  nth_error (purchases (db w)) n = Some p ->
  purchase_status p = PAID ->
  fst (markPurchaseFailed session w) = Normal tt /\
  nth_error (purchases (db (snd (markPurchaseFailed session w)))) n = Some p.
Proof.
  intros Hn Hs. split; [reflexivity |].
  apply markPurchaseFailed_row; [assumption | congruence].
Qed.

Lemma markPurchaseFailed_keeps_paid_witness :
  nth_error
    (purchases (db (snd (markPurchaseFailed (Sample.session "cs_1") Sample.paid_world)))) 0
  = Some (Sample.purchase "PUR1" "cs_1" PAID).
Proof.
  apply (markPurchaseFailed_keeps_paid (Sample.session "cs_1") Sample.paid_world 0
           (Sample.purchase "PUR1" "cs_1" PAID)); reflexivity.
Defined.

Lemma purchase_updateMany_run where_ data w :
  purchase_updateMany where_ data w =
  (Normal tt,
   {| db := with_purchases (map (fun p => if where_ p then data p else p) (purchases (db w))) (db w);
      collectionReady := collectionReady w;
      sent := sent w |}).
Proof. reflexivity. Qed.

(** Applying an [updateMany] twice is applying it once when the rows it
    writes still match and are fixed by a second write. *)
Lemma purchase_updateMany_twice where_ data w :
  (forall p, where_ p = true -> where_ (data p) = true) ->
  (forall p, where_ p = true -> data (data p) = data p) ->
  snd (purchase_updateMany where_ data (snd (purchase_updateMany where_ data w))) =
  snd (purchase_updateMany where_ data w).
Proof.
  intros Hkeep Hfix. rewrite !purchase_updateMany_run. simpl.
  unfold with_purchases. simpl. do 2 f_equal.
  rewrite map_map. apply map_ext. intros p.
  destruct (where_ p) eqn:Hw.
  - rewrite (Hkeep p Hw). apply Hfix. exact Hw.
  - rewrite Hw. reflexivity.
Qed.

Lemma markPurchasePaid_twice session w :
  snd (markPurchasePaid session (snd (markPurchasePaid session w))) =
  snd (markPurchasePaid session w).
Proof.
  unfold markPurchasePaid. apply purchase_updateMany_twice.
  - intros p Hp. exact Hp.
  - intros p Hp. simpl. f_equal.
    destruct (nullish_opt _ _) as [email |]; [| reflexivity].
    destruct (truthy email); reflexivity.
Qed.

Lemma markPurchaseFailed_twice session w :
  snd (markPurchaseFailed session (snd (markPurchaseFailed session w))) =
  snd (markPurchaseFailed session w).
Proof.
  assert (Hgen : forall where_ data,
             (forall p, where_ p = true -> where_ (data p) = false) ->
             snd (purchase_updateMany where_ data (snd (purchase_updateMany where_ data w))) =
             snd (purchase_updateMany where_ data w)).
  { intros where_ data Hoff. rewrite !purchase_updateMany_run. simpl.
    unfold with_purchases. simpl. do 2 f_equal.
    rewrite map_map. apply map_ext. intros p.
    destruct (where_ p) eqn:Hw.
    - rewrite (Hoff p Hw). reflexivity.
    - rewrite Hw. reflexivity. }
  unfold markPurchaseFailed. apply Hgen.
  intros p _. simpl. apply andb_false_r.
Qed.

(** The succeeded update writes [PAID] on every row of the session,
    whatever the row's state, and touches no other row. *)
Lemma markPurchasePaid_row session w n p :
  nth_error (purchases (db w)) n = Some p ->
  option_map purchase_status
    (nth_error (purchases (db (snd (markPurchasePaid session w)))) n) =
  Some (if purchase_stripeSessionId p === session_id session then PAID else purchase_status p).
Proof.
  intros Hn. unfold markPurchasePaid. rewrite purchase_updateMany_run. simpl.
  rewrite nth_error_map, Hn. simpl.
  destruct (purchase_stripeSessionId p === session_id session); reflexivity.
Qed.

(** Whatever the webhook request, a paid row still has its paid state
    after the handler has run. *)
Lemma stripeWebhookHandler_keeps_paid constructEvent env req w n p :
  nth_error (purchases (db w)) n = Some p ->
  purchase_status p = PAID ->
  option_map purchase_status
    (nth_error (purchases (db (snd (stripeWebhookHandler constructEvent env req w)))) n) =
  Some PAID.
Proof.
  intros Hn Hs.
  assert (Hid : option_map purchase_status (nth_error (purchases (db w)) n) = Some PAID)
    by (rewrite Hn; simpl; congruence).
  unfold stripeWebhookHandler.
  destruct (header_stripe_signature req) as [signature |]; [| exact Hid].
  destruct (truthy signature); [| exact Hid]. simpl.
  destruct (webhook_body req) as [body |]; [| exact Hid].
  destruct (constructStripeEvent constructEvent env body signature) as [event | e];
    [| exact Hid].
  unfold bind, respond, ret.
  destruct (orb _ _).
  - destruct (markPurchasePaid (event_data_object event) w) as [[[] | e] w'] eqn:Hrun;
      simpl;
      replace w' with (snd (markPurchasePaid (event_data_object event) w))
        by (rewrite Hrun; reflexivity);
      rewrite (markPurchasePaid_row _ _ _ _ Hn), Hs;
      destruct (_ === _); reflexivity.
  - destruct (orb _ _).
    + destruct (markPurchaseFailed (event_data_object event) w) as [[[] | e] w'] eqn:Hrun;
        simpl;
        replace w' with (snd (markPurchaseFailed (event_data_object event) w))
          by (rewrite Hrun; reflexivity);
        rewrite (markPurchaseFailed_row _ _ _ _ Hn) by congruence;
        simpl; congruence.
    + exact Hid.
Qed.

(** C1 (as amended): a paid purchase keeps its paid state under every
    webhook request; a failed purchase is left untouched by a failed
    reconciliation, because that update is conditioned on [PENDING]; the
    succeeded update is not conditioned on the current state and writes
    paid on every purchase of the session; and delivering the same
    notification a second time leaves the store as the first delivery left
    it. *)
Theorem reconciliation_terminal_states constructEvent env req session w n p :
  nth_error (purchases (db w)) n = Some p ->
  (purchase_status p = PAID ->
   option_map purchase_status
     (nth_error (purchases (db (snd (stripeWebhookHandler constructEvent env req w)))) n) =
   Some PAID) /\
  (purchase_status p = FAILED ->
   nth_error (purchases (db (snd (markPurchaseFailed session w)))) n = Some p) /\
  (purchase_stripeSessionId p = session_id session ->
   option_map purchase_status
     (nth_error (purchases (db (snd (markPurchasePaid session w)))) n) = Some PAID) /\
  snd (markPurchasePaid session (snd (markPurchasePaid session w))) =
    snd (markPurchasePaid session w) /\
  snd (markPurchaseFailed session (snd (markPurchaseFailed session w))) =
    snd (markPurchaseFailed session w).
Proof.
  intros Hn. repeat split.
  - intros Hs. apply stripeWebhookHandler_keeps_paid with (p := p); assumption.
  - intros Hs. apply markPurchaseFailed_row; [assumption | congruence].
  - intros Hs. rewrite (markPurchasePaid_row _ _ _ _ Hn), Hs, String.eqb_refl. reflexivity.
  - apply markPurchasePaid_twice.
  - apply markPurchaseFailed_twice.
Qed.

Lemma reconciliation_terminal_states_witness :
  nth_error (purchases (db (snd (markPurchaseFailed (Sample.session "cs_1") Sample.failed_world)))) 0
  = Some (Sample.purchase "PUR1" "cs_1" FAILED).
Proof.
  refine (proj1 (proj2
    (reconciliation_terminal_states (fun _ _ _ => Thrown (new_Error "unused")) Sample.env
       {| header_stripe_signature := None; webhook_body := None |}
       (Sample.session "cs_1") Sample.failed_world 0
       (Sample.purchase "PUR1" "cs_1" FAILED) _)) _); reflexivity.
Defined.

(** C1 (as stated) fails: a purchase in the failed state is moved to paid
    by a late succeeded notification for its session. *)
Lemma failed_purchase_becomes_paid :
  map purchase_status (purchases (db Sample.failed_world)) = [FAILED] /\
  map purchase_status
    (purchases (db (snd (markPurchasePaid (Sample.session "cs_1") Sample.failed_world)))) =
  [PAID].
Proof. split; reflexivity. Qed.

(** ** The purchase access token *)

Lemma parse_nonempty_ok field value :
  value <> "" -> parse_nonempty field value = Normal value.
Proof.
  intros Hne. unfold parse_nonempty. destruct value as [| c rest]; [contradiction |].
  simpl String.length. destruct (1 <=? Z.of_nat (S (String.length rest))) eqn:Hle;
    [reflexivity |].
  apply Z.leb_gt in Hle. lia.
Qed.

(** Verification succeeds exactly for the purchase id that the verified
    payload carries. *)
Lemma verifyPurchaseAccessToken_iff jwt_verify env token fields B id :
  jwt_verify token (getPurchaseAccessTokenSecret env) = Normal (JsObject fields) ->
  js_field "purchaseId" fields = JsString B ->
  verifyPurchaseAccessToken jwt_verify env id token = Normal tt <-> id = B.
Proof.
  intros Hv Hf. unfold verifyPurchaseAccessToken. rewrite Hv, Hf.
  destruct (B === id) eqn:Heq; simpl.
  - apply String.eqb_eq in Heq. split; [intros _; congruence | reflexivity].
  - apply String.eqb_neq in Heq. split; [discriminate | congruence].
Qed.

Lemma verifyPurchaseAccessToken_foreign jwt_verify env token fields A B :
  jwt_verify token (getPurchaseAccessTokenSecret env) = Normal (JsObject fields) ->
  js_field "purchaseId" fields = JsString B ->
  A <> B ->
  verifyPurchaseAccessToken jwt_verify env A token =
  Thrown (new_Error "Invalid purchase access token.").
Proof.
  intros Hv Hf Hne. unfold verifyPurchaseAccessToken. rewrite Hv, Hf.
  destruct (B === A) eqn:Heq; simpl; [| reflexivity].
  apply String.eqb_eq in Heq. congruence.
Qed.

(** A grant issued by [signPurchaseAccessToken] for purchase [B], which
    the library verifies and decodes to the signed payload with its
    time stamps [extra], is rejected for every other purchase id. *)
Lemma issued_grant_rejected_elsewhere jwt_sign jwt_verify env extra A B :
  jwt_verify (signPurchaseAccessToken jwt_sign env B) (getPurchaseAccessTokenSecret env) =
    Normal (JsObject ([("sub", JsString B); ("purchaseId", JsString B)] ++ extra)) ->
  A <> B ->
  verifyPurchaseAccessToken jwt_verify env A (signPurchaseAccessToken jwt_sign env B) =
  Thrown (new_Error "Invalid purchase access token.").
Proof.
  intros Hv Hne.
  apply (verifyPurchaseAccessToken_foreign jwt_verify env _ _ A B Hv); [reflexivity | exact Hne].
Qed.

(** C2: a grant whose signature is valid and which has not expired (the
    library call returns its payload) and which was issued for purchase
    [B] is rejected for every other purchase id [A]: verification throws,
    both download routes answer 401 without reading the store, and
    verification succeeds only for the purchase id embedded in the grant. *)
Theorem grant_rejected_for_other_purchase
    getSignedUrl jwt_verify ALL_PHOTOS env token fields A B :
  jwt_verify token (getPurchaseAccessTokenSecret env) = Normal (JsObject fields) ->
  js_field "purchaseId" fields = JsString B ->
  A <> B ->
  verifyPurchaseAccessToken jwt_verify env A token =
    Thrown (new_Error "Invalid purchase access token.") /\
  (forall id, verifyPurchaseAccessToken jwt_verify env id token = Normal tt <-> id = B) /\
  (forall req w,
     params_purchaseId req = A -> A <> "" -> params_photoId req <> "" ->
     getPurchaseTokenFromRequest req = Some token ->
     exists message,
       download_photo getSignedUrl jwt_verify ALL_PHOTOS env req w =
       (Normal {| res_status := 401; res_body := json_error message |}, w)) /\
  (forall req w,
     params_purchaseId req = A -> A <> "" ->
     getPurchaseTokenFromRequest req = Some token ->
     exists message,
       download_all getSignedUrl jwt_verify ALL_PHOTOS env req w =
       (Normal {| res_status := 401; res_body := json_error message |}, w)).
Proof.
  intros Hv Hf Hne.
  pose proof (verifyPurchaseAccessToken_foreign jwt_verify env token fields A B Hv Hf Hne)
    as Hthrow.
  split; [exact Hthrow |].
  split; [intros id; apply verifyPurchaseAccessToken_iff with (fields := fields); assumption |].
  split.
  - intros req w HA HAne Hphoto Htoken. unfold download_photo.
    rewrite HA, (parse_nonempty_ok _ _ HAne), (parse_nonempty_ok _ _ Hphoto), Htoken.
    unfold_async. simpl.
    destruct (truthy token); simpl.
    + rewrite Hthrow. eexists. reflexivity.
    + eexists. reflexivity.
  - intros req w HA HAne Htoken. unfold download_all.
    rewrite HA, (parse_nonempty_ok _ _ HAne), Htoken.
    unfold_async. simpl.
    destruct (truthy token); simpl.
    + rewrite Hthrow. eexists. reflexivity.
    + eexists. reflexivity.
Qed.

Lemma grant_rejected_for_other_purchase_witness :
  verifyPurchaseAccessToken Sample.jwt_verify Sample.env "PUR3" "jwt:PUR2" =
  Thrown (new_Error "Invalid purchase access token.").
Proof.
  refine (proj1
    (grant_rejected_for_other_purchase Sample.getSignedUrl Sample.jwt_verify "ALL_PHOTOS"
       Sample.env "jwt:PUR2"
       [("sub", JsString "PUR2"); ("purchaseId", JsString "PUR2");
        ("iat", JsNum (JsFinite 0)); ("exp", JsNum (JsFinite 43200))]
       "PUR3" "PUR2" _ _ _)); [reflexivity | reflexivity | discriminate].
Defined.

(** ** Generic facts: lookups by primary key, the stable sort *)

Lemma find_by_key {A : Type} (key : A -> string) (extra : A -> bool) (l : list A)
    (x : A) (k : string) :
  NoDup (map key l) -> In x l -> key x = k -> extra x = true ->
  find (fun y => andb (key y === k) (extra y)) l = Some x.
Proof.
  intros Hnd Hin Hk Hx. induction l as [| a l IH]; simpl in *; [contradiction |].
  inversion Hnd as [| ? ? Hnotin Hnd']; subst.
  destruct Hin as [-> | Hin].
  - rewrite String.eqb_refl, Hx. reflexivity.
  - destruct (key a === key x) eqn:Heq.
    + apply String.eqb_eq in Heq. exfalso. apply Hnotin. rewrite Heq.
      apply in_map. exact Hin.
    + simpl. apply IH; assumption.
Qed.

Lemma sort_insert_Permutation {A : Type} (before : A -> A -> bool) (x : A) (l : list A) :
  Permutation (sort_insert before x l) (x :: l).
Proof.
  induction l as [| y l IH]; simpl; [reflexivity |].
  destruct (before y x); [| reflexivity].
  rewrite IH. apply perm_swap.
Qed.

Lemma stable_sort_Permutation {A : Type} (before : A -> A -> bool) (l : list A) :
  Permutation (stable_sort before l) l.
Proof.
  induction l as [| x l IH]; simpl; [reflexivity |].
  rewrite sort_insert_Permutation. constructor. exact IH.
Qed.

(** ** The download routes *)

Section DownloadRoutes.

Variable getSignedUrl : string -> string -> Z -> string.
Variable jwt_verify : string -> string -> Completion JsValue.
Variable ALL_PHOTOS : string.
Variable env : Env.
Variable cfg : StorageConfig.
Hypothesis storage_configured : getStorageConfig env = Normal cfg.

Lemma createSignedDownloadUrl_run key expires w :
  createSignedDownloadUrl getSignedUrl env key expires w =
  (Normal (getSignedUrl (storage_bucket cfg) key (nullish expires 3600)), w).
Proof.
  unfold createSignedDownloadUrl. unfold_async. rewrite storage_configured. reflexivity.
Qed.

Lemma sign_all_run (l : list Photo) w :
  Promise_all
    (fun p =>
       (downloadUrl <-
          createSignedDownloadUrl getSignedUrl env (photo_storageKey p) (Some 600) ;;
        ret {| file_photoId := photo_id p; file_downloadUrl := downloadUrl |})%async)
    l w =
  (Normal
     (map (fun p =>
             {| file_photoId := photo_id p;
                file_downloadUrl :=
                  getSignedUrl (storage_bucket cfg) (photo_storageKey p) 600 |}) l),
   w).
Proof.
  induction l as [| p l IH]; [reflexivity |].
  simpl. unfold bind at 1. unfold bind at 1.
  rewrite createSignedDownloadUrl_run. unfold ret at 1.
  unfold bind at 1. rewrite IH. reflexivity.
Qed.

Variable req : PurchaseRequest.
Variable w : World.
Variable token : string.
Variable fields : list (string * JsValue).
Variable purchase : Purchase.

Hypothesis purchaseId_given : params_purchaseId req <> "".
Hypothesis token_presented : getPurchaseTokenFromRequest req = Some token.
Hypothesis token_nonempty : token <> "".
Hypothesis token_verified :
  jwt_verify token (getPurchaseAccessTokenSecret env) = Normal (JsObject fields).
Hypothesis token_purchase : js_field "purchaseId" fields = JsString (params_purchaseId req).
Hypothesis purchase_keys : NoDup (map purchase_id (purchases (db w))).
Hypothesis purchase_stored : In purchase (purchases (db w)).
Hypothesis purchase_named : purchase_id purchase = params_purchaseId req.
Hypothesis purchase_paid : purchase_status purchase = PAID.

Lemma token_truthy : truthy token = true.
Proof.
  unfold truthy. destruct (token === "") eqn:Heq; [| reflexivity].
  apply String.eqb_eq in Heq. contradiction.
Qed.

Lemma token_accepted :
  verifyPurchaseAccessToken jwt_verify env (params_purchaseId req) token = Normal tt.
Proof.
  apply (verifyPurchaseAccessToken_iff jwt_verify env token fields (params_purchaseId req));
    [exact token_verified | exact token_purchase | reflexivity].
Qed.

Lemma getPaidPurchaseWithItems_run w' :
  purchases (db w') = purchases (db w) ->
  getPaidPurchaseWithItems (params_purchaseId req) w' =
  (Normal
     (Some (purchase,
            filter (fun i => item_purchaseId i === purchase_id purchase)
              (purchaseItems (db w')))),
   w').
Proof.
  intros Hsame. unfold getPaidPurchaseWithItems. unfold_async. rewrite Hsame.
  rewrite (find_by_key purchase_id
             (fun p => PurchaseStatus_eqb (purchase_status p) PAID)
             (purchases (db w)) purchase (params_purchaseId req));
    try assumption; [reflexivity |].
  rewrite purchase_paid. reflexivity.
Qed.

(** What the bundle route computes once the grant and the paid purchase
    are in place, on any store [w'] with the same purchases. *)
Lemma download_all_run w' :
  purchases (db w') = purchases (db w) ->
  download_all getSignedUrl jwt_verify ALL_PHOTOS env req w' =
  (Normal
     (if existsb (fun item => item_itemType item === ALL_PHOTOS)
           (filter (fun i => item_purchaseId i === purchase_id purchase)
              (purchaseItems (db w')))
      then
        let files :=
          map (fun p =>
                 {| file_photoId := photo_id p;
                    file_downloadUrl :=
                      getSignedUrl (storage_bucket cfg) (photo_storageKey p) 600 |})
            (stable_sort publishedAt_desc_before
               (filter
                  (fun p =>
                     andb (photo_eventId p === purchase_eventId purchase)
                       (andb (Bool.eqb (photo_isUploaded p) true)
                          (PhotoStatus_eqb (photo_status p) PUBLISHED)))
                  (photos (db w')))) in
        {| res_status := 200;
           res_body := json_bundle (Z.of_nat (List.length files)) files |}
      else
        {| res_status := 403;
           res_body := json_error "All-photos bundle was not purchased." |}),
   w').
Proof.
  intros Hsame. unfold download_all.
  rewrite (parse_nonempty_ok _ _ purchaseId_given), token_presented.
  unfold lift at 1. unfold bind at 1.
  rewrite token_truthy, token_accepted. cbn [negb].
  unfold bind at 1. rewrite (getPaidPurchaseWithItems_run w' Hsame).
  destruct (existsb _ _); cbn [negb]; [| reflexivity].
  unfold photo_findMany_ordered.
  unfold bind at 1. unfold bind at 1. unfold get_db at 1. unfold ret at 1.
  unfold bind at 1. rewrite sign_all_run. reflexivity.
Qed.

End DownloadRoutes.

Lemma PhotoStatus_eqb_eq a b : PhotoStatus_eqb a b = true <-> a = b.
Proof. destruct a, b; simpl; split; congruence. Qed.

Lemma NoDup_map_filter {A : Type} (key : A -> string) (keep : A -> bool) (l : list A) :
  NoDup (map key l) -> NoDup (map key (filter keep l)).
Proof.
  induction l as [| a l IH]; simpl; intros Hnd; [constructor |].
  inversion Hnd as [| ? ? Hnotin Hnd']; subst.
  destruct (keep a); simpl; [| apply IH; exact Hnd'].
  constructor; [| apply IH; exact Hnd'].
  intros Hin. apply Hnotin. apply in_map_iff in Hin. destruct Hin as [x [Hx Hin]].
  apply filter_In in Hin. rewrite <- Hx. apply in_map. tauto.
Qed.

Lemma existsb_filter {A : Type} (f g : A -> bool) (l : list A) :
  existsb f (filter g l) = true <-> exists x, In x l /\ g x = true /\ f x = true.
Proof.
  rewrite existsb_exists. split.
  - intros [x [Hin Hf]]. apply filter_In in Hin. exists x. tauto.
  - intros [x [Hin [Hg Hf]]]. exists x. split; [apply filter_In; tauto | exact Hf].
Qed.

(** The photos that the bundle query selects: of the purchase's event,
    uploaded and published. *)
Lemma bundle_filter_iff (eventId : string) (p : Photo) :
  andb (photo_eventId p === eventId)
    (andb (Bool.eqb (photo_isUploaded p) true)
       (PhotoStatus_eqb (photo_status p) PUBLISHED)) = true <->
  photo_eventId p = eventId /\ photo_isUploaded p = true /\ photo_status p = PUBLISHED.
Proof.
  rewrite !andb_true_iff, String.eqb_eq, Bool.eqb_true_iff, PhotoStatus_eqb_eq.
  reflexivity.
Qed.

Lemma sorted_files_NoDup (mk : Photo -> DownloadFile) before keep (ps : list Photo) :
  (forall p, file_photoId (mk p) = photo_id p) ->
  NoDup (map photo_id ps) ->
  NoDup (map file_photoId (map mk (stable_sort before (filter keep ps)))).
Proof.
  intros Hmk Hnd. rewrite map_map.
  rewrite (map_ext _ photo_id Hmk).
  eapply Permutation_NoDup.
  - apply Permutation_map. apply Permutation_sym. apply stable_sort_Permutation.
  - apply NoDup_map_filter. exact Hnd.
Qed.

Lemma sorted_files_In (mk : Photo -> DownloadFile) before keep (ps : list Photo) f :
  In f (map mk (stable_sort before (filter keep ps))) <->
  exists p, In p ps /\ keep p = true /\ f = mk p.
Proof.
  rewrite in_map_iff. split.
  - intros [p [Hf Hin]]. exists p.
    apply (Permutation_in _ (stable_sort_Permutation before (filter keep ps))) in Hin.
    apply filter_In in Hin. intuition congruence.
  - intros [p [Hin [Hkeep Hf]]]. exists p. split; [congruence |].
    apply (Permutation_in _ (Permutation_sym (stable_sort_Permutation before (filter keep ps)))).
    apply filter_In. tauto.
Qed.

(** C3: with a valid grant for a paid purchase, the bundle route answers
    from the store as it is when the request arrives.  If the purchase has
    an all-photos item, the answer lists one signed URL for each photo of
    the purchase's event that is uploaded and published in that store, no
    photo twice and no other photo; hence a photo of the event that gets
    published after the purchase was paid is listed exactly once by the
    next request.  If the purchase has no all-photos item, the route
    answers 403. *)
Theorem bundle_download_lists_current_photos
    getSignedUrl jwt_verify ALL_PHOTOS env cfg req w token fields purchase :
  getStorageConfig env = Normal cfg ->
  params_purchaseId req <> "" ->
  getPurchaseTokenFromRequest req = Some token ->
  token <> "" ->
  jwt_verify token (getPurchaseAccessTokenSecret env) = Normal (JsObject fields) ->
  js_field "purchaseId" fields = JsString (params_purchaseId req) ->
  NoDup (map purchase_id (purchases (db w))) ->
  In purchase (purchases (db w)) ->
  purchase_id purchase = params_purchaseId req ->
  purchase_status purchase = PAID ->
  NoDup (map photo_id (photos (db w))) ->
  let has_all_photos :=
    exists item,
      In item (purchaseItems (db w)) /\
      item_purchaseId item = purchase_id purchase /\
      item_itemType item = ALL_PHOTOS in
  let current p :=
    photo_eventId p = purchase_eventId purchase /\
    photo_isUploaded p = true /\
    photo_status p = PUBLISHED in
  let signed p :=
    {| file_photoId := photo_id p;
       file_downloadUrl := getSignedUrl (storage_bucket cfg) (photo_storageKey p) 600 |} in
  (has_all_photos ->
   (exists files,
      download_all getSignedUrl jwt_verify ALL_PHOTOS env req w =
      (Normal {| res_status := 200;
                 res_body := json_bundle (Z.of_nat (List.length files)) files |}, w) /\
      NoDup (map file_photoId files) /\
      (forall f, In f files <-> exists p, In p (photos (db w)) /\ current p /\ f = signed p)) /\
   (forall id now p0,
      In p0 (photos (db w)) ->
      photo_id p0 = id ->
      photo_eventId p0 = purchase_eventId purchase ->
      photo_isUploaded p0 = true ->
      let later := snd (photo_update_published id now w) in
      exists files,
        download_all getSignedUrl jwt_verify ALL_PHOTOS env req later =
        (Normal {| res_status := 200;
                   res_body := json_bundle (Z.of_nat (List.length files)) files |}, later) /\
        count_occ string_dec (map file_photoId files) id = 1%nat)) /\
  (~ has_all_photos ->
   download_all getSignedUrl jwt_verify ALL_PHOTOS env req w =
   (Normal {| res_status := 403;
              res_body := json_error "All-photos bundle was not purchased." |}, w)).
Proof.
  intros Hcfg Hid Htok Hne Hver Hfield Hkeys Hin Hname Hpaid Hphotos
    has_all_photos current signed.
  assert (Hrun := fun w' => download_all_run getSignedUrl jwt_verify ALL_PHOTOS env cfg Hcfg
                     req w token fields purchase Hid Htok Hne Hver Hfield Hkeys Hin Hname
                     Hpaid w').
  assert (Hall : forall items,
             existsb (fun item => item_itemType item === ALL_PHOTOS)
               (filter (fun i => item_purchaseId i === purchase_id purchase) items) = true <->
             exists item, In item items /\ item_purchaseId item = purchase_id purchase /\
                          item_itemType item = ALL_PHOTOS).
  { intros items. rewrite existsb_filter. split; intros [item [H1 [H2 H3]]]; exists item;
      apply String.eqb_eq in H2 || apply String.eqb_eq in H2;
      (apply String.eqb_eq in H3 || apply String.eqb_eq in H3); auto. }
  split.
  - intros Hhas. split.
    + rewrite (Hrun w eq_refl). apply (proj2 (Hall _)) in Hhas. rewrite Hhas.
      eexists. split; [reflexivity |]. split.
      * apply sorted_files_NoDup; [reflexivity | exact Hphotos].
      * intros f. rewrite sorted_files_In. split; intros [p [H1 [H2 H3]]]; exists p;
          (split; [exact H1 |]); (split; [| exact H3]);
          apply bundle_filter_iff; exact H2.
    + intros id now p0 Hp0 Hp0id Hp0event Hp0up later.
      assert (Hsame : purchases (db later) = purchases (db w)) by reflexivity.
      assert (Hitems : purchaseItems (db later) = purchaseItems (db w)) by reflexivity.
      rewrite (Hrun later Hsame), Hitems. apply (proj2 (Hall _)) in Hhas. rewrite Hhas.
      eexists. split; [reflexivity |].
      assert (Hlater : photos (db later) =
                       map (fun p => if photo_id p === id
                                     then {| photo_id := photo_id p;
                                             photo_eventId := photo_eventId p;
                                             photo_storageKey := photo_storageKey p;
                                             photo_mimeType := photo_mimeType p;
                                             photo_fileSize := photo_fileSize p;
                                             photo_width := photo_width p;
                                             photo_height := photo_height p;
                                             photo_status := PUBLISHED;
                                             photo_capturedAt := photo_capturedAt p;
                                             photo_publishedAt := Some now;
                                             photo_createdAt := photo_createdAt p;
                                             photo_isUploaded := photo_isUploaded p |}
                                     else p) (photos (db w))) by reflexivity.
      rewrite Hlater.
      apply NoDup_count_occ'.
      * apply sorted_files_NoDup; [reflexivity |].
        rewrite map_map.
        rewrite (map_ext _ photo_id); [exact Hphotos |].
        intros p. destruct (photo_id p === id); reflexivity.
      * rewrite map_map. apply in_map_iff.
        exists {| photo_id := photo_id p0;
                  photo_eventId := photo_eventId p0;
                  photo_storageKey := photo_storageKey p0;
                  photo_mimeType := photo_mimeType p0;
                  photo_fileSize := photo_fileSize p0;
                  photo_width := photo_width p0;
                  photo_height := photo_height p0;
                  photo_status := PUBLISHED;
                  photo_capturedAt := photo_capturedAt p0;
                  photo_publishedAt := Some now;
                  photo_createdAt := photo_createdAt p0;
                  photo_isUploaded := photo_isUploaded p0 |}.
        split; [exact Hp0id |].
        apply (Permutation_in _ (Permutation_sym (stable_sort_Permutation _ _))).
        apply filter_In. split.
        -- apply in_map_iff. exists p0. split; [| exact Hp0].
           rewrite Hp0id, String.eqb_refl. reflexivity.
        -- apply bundle_filter_iff. simpl. auto.
  - intros Hnot. rewrite (Hrun w eq_refl).
    destruct (existsb _ _) eqn:Hex; [| reflexivity].
    exfalso. apply Hnot. apply Hall. exact Hex.
Qed.

Lemma bundle_download_lists_current_photos_witness :
  exists files,
    download_all Sample.getSignedUrl Sample.jwt_verify Sample.ALL_PHOTOS Sample.env
      (Sample.request "PUR1" "" "jwt:PUR1")
      (snd (photo_update_published "P9" 200 Sample.bundle_world)) =
    (Normal {| res_status := 200;
               res_body := json_bundle (Z.of_nat (List.length files)) files |},
     snd (photo_update_published "P9" 200 Sample.bundle_world)) /\
    count_occ string_dec (map file_photoId files) "P9" = 1%nat.
Proof.
  refine (proj2 (proj1
    (bundle_download_lists_current_photos Sample.getSignedUrl Sample.jwt_verify
       Sample.ALL_PHOTOS Sample.env Sample.storage (Sample.request "PUR1" "" "jwt:PUR1")
       Sample.bundle_world "jwt:PUR1" (Sample.payload "PUR1")
       (Sample.purchase "PUR1" "cs_1" PAID) _ _ _ _ _ _ _ _ _ _ _) _)
    "P9" 200 Sample.P9 _ _ _ _).
  - reflexivity.
  - discriminate.
  - reflexivity.
  - discriminate.
  - reflexivity.
  - reflexivity.
  - simpl. repeat constructor; simpl; intuition discriminate.
  - simpl. auto.
  - reflexivity.
  - reflexivity.
  - simpl. repeat constructor; simpl; intuition discriminate.
  - exists Sample.all_photos_item. simpl. auto.
  - simpl. auto.
  - reflexivity.
  - reflexivity.
  - reflexivity.
Defined.

(** C10: with a valid grant for a paid purchase whose items cover the
    photo (an all-photos item, or an item for that photo id), the
    single-photo route answers 200 with a signed URL for the photo as soon
    as the photo belongs to the purchase's event and is uploaded; the
    photo's publication state is not consulted, so a draft photo is
    served. *)
Theorem download_photo_ignores_publication
    getSignedUrl jwt_verify ALL_PHOTOS env cfg req w token fields purchase p :
  getStorageConfig env = Normal cfg ->
  params_purchaseId req <> "" ->
  params_photoId req <> "" ->
  getPurchaseTokenFromRequest req = Some token ->
  token <> "" ->
  jwt_verify token (getPurchaseAccessTokenSecret env) = Normal (JsObject fields) ->
  js_field "purchaseId" fields = JsString (params_purchaseId req) ->
  NoDup (map purchase_id (purchases (db w))) ->
  In purchase (purchases (db w)) ->
  purchase_id purchase = params_purchaseId req ->
  purchase_status purchase = PAID ->
  (exists item,
     In item (purchaseItems (db w)) /\
     item_purchaseId item = purchase_id purchase /\
     (item_itemType item = ALL_PHOTOS \/ item_photoId item = Some (params_photoId req))) ->
  NoDup (map photo_id (photos (db w))) ->
  In p (photos (db w)) ->
  photo_id p = params_photoId req ->
  photo_eventId p = purchase_eventId purchase ->
  photo_isUploaded p = true ->
  forall status,
    photo_status p = status ->
    download_photo getSignedUrl jwt_verify ALL_PHOTOS env req w =
    (Normal {| res_status := 200;
               res_body :=
                 json_photo_download (photo_id p)
                   (getSignedUrl (storage_bucket cfg) (photo_storageKey p) 600) |},
     w).
Proof.
  intros Hcfg Hid Hphoto Htok Hne Hver Hfield Hkeys Hin Hname Hpaid [item [Hitem [Hown Hcover]]]
    Hphotos Hp Hpid Hpevent Hpup status _.
  unfold download_photo.
  rewrite (parse_nonempty_ok _ _ Hid), (parse_nonempty_ok _ _ Hphoto), Htok.
  unfold lift at 1. unfold bind at 1. unfold lift at 1. unfold bind at 1.
  rewrite (token_truthy token Hne), (token_accepted jwt_verify env req token fields Hver Hfield).
  cbn [negb].
  unfold bind at 1.
  rewrite (getPaidPurchaseWithItems_run req w purchase Hkeys Hin Hname Hpaid w eq_refl).
  assert (Hentitled :
            andb
              (negb (existsb (fun item => item_itemType item === ALL_PHOTOS)
                       (filter (fun i => item_purchaseId i === purchase_id purchase)
                          (purchaseItems (db w)))))
              (negb (existsb
                       (fun item =>
                          match item_photoId item with
                          | Some id => id === params_photoId req
                          | None => false
                          end)
                       (filter (fun i => item_purchaseId i === purchase_id purchase)
                          (purchaseItems (db w))))) = false).
  { destruct Hcover as [Hall | Hone].
    - assert (H : existsb (fun item => item_itemType item === ALL_PHOTOS)
                    (filter (fun i => item_purchaseId i === purchase_id purchase)
                       (purchaseItems (db w))) = true).
      { apply existsb_filter. exists item.
        rewrite Hown, Hall, !String.eqb_refl. auto. }
      rewrite H. reflexivity.
    - assert (H : existsb
                    (fun item =>
                       match item_photoId item with
                       | Some id => id === params_photoId req
                       | None => false
                       end)
                    (filter (fun i => item_purchaseId i === purchase_id purchase)
                       (purchaseItems (db w))) = true).
      { apply existsb_filter. exists item.
        rewrite Hown, Hone, !String.eqb_refl. auto. }
      rewrite H. apply andb_false_r. }
  rewrite Hentitled.
  unfold photo_findFirst.
  unfold bind at 1. unfold bind at 1. unfold get_db at 1. unfold ret at 1.
  rewrite (find_by_key photo_id
             (fun q => andb (photo_eventId q === purchase_eventId purchase)
                            (Bool.eqb (photo_isUploaded q) true))
             (photos (db w)) p (params_photoId req) Hphotos Hp Hpid).
  - unfold bind at 1.
    rewrite (createSignedDownloadUrl_run getSignedUrl env cfg Hcfg). reflexivity.
  - rewrite Hpevent, Hpup, String.eqb_refl. reflexivity.
Qed.

Lemma download_photo_ignores_publication_witness :
  download_photo Sample.getSignedUrl Sample.jwt_verify Sample.ALL_PHOTOS Sample.env
    (Sample.request "PUR1" "P9" "jwt:PUR1") Sample.bundle_world =
  (Normal {| res_status := 200;
             res_body :=
               json_photo_download "P9"
                 "https://snapflow-photos/events/E1/original/p9.jpg" |},
   Sample.bundle_world).
Proof.
  refine (download_photo_ignores_publication Sample.getSignedUrl Sample.jwt_verify
            Sample.ALL_PHOTOS Sample.env Sample.storage (Sample.request "PUR1" "P9" "jwt:PUR1")
            Sample.bundle_world "jwt:PUR1" (Sample.payload "PUR1")
            (Sample.purchase "PUR1" "cs_1" PAID) Sample.P9
            _ _ _ _ _ _ _ _ _ _ _ _ _ _ _ _ _ DRAFT _).
  - reflexivity.
  - discriminate.
  - discriminate.
  - reflexivity.
  - discriminate.
  - reflexivity.
  - reflexivity.
  - simpl. repeat constructor; simpl; intuition discriminate.
  - simpl. auto.
  - reflexivity.
  - reflexivity.
  - exists Sample.all_photos_item. simpl. auto.
  - simpl. repeat constructor; simpl; intuition discriminate.
  - simpl. auto.
  - reflexivity.
  - reflexivity.
  - reflexivity.
  - reflexivity.
Defined.

(** ** The face index *)

Section FaceIndex.

Variable rekognition : Rekognition.
Variable env : Env.
Variable config : FaceSearchConfig.
Hypothesis configured : getFaceSearchConfig env = Some config.

Lemma send_run command w :
  send rekognition command w =
  (rekognition (sent w) command,
   {| db := db w; collectionReady := collectionReady w; sent := sent w ++ [command] |}).
Proof. reflexivity. Qed.

Lemma ensureCollection_when_ready w :
  collectionReady w = true -> ensureCollection rekognition config w = (Normal tt, w).
Proof.
  intros Hready. unfold ensureCollection, get_collectionReady, bind.
  rewrite Hready. reflexivity.
Qed.

(** [ensureCollection] never writes to the store, and a normal return
    leaves the ready flag set. *)
Lemma ensureCollection_effect w :
  db (snd (ensureCollection rekognition config w)) = db w /\
  (fst (ensureCollection rekognition config w) = Normal tt ->
   collectionReady (snd (ensureCollection rekognition config w)) = true).
Proof.
  unfold ensureCollection, get_collectionReady, set_collectionReady, try_catch, bind, ret,
    throw, send.
  destruct (collectionReady w) eqn:Hready; simpl; [auto |].
  destruct (rekognition (sent w) (DescribeCollectionCommand (collectionId config)))
    as [r | e]; simpl; [auto |].
  destruct (name_is e "ResourceNotFoundException"); simpl; [| split; [auto | discriminate]].
  destruct (rekognition _ (CreateCollectionCommand (collectionId config))) as [r | e'];
    simpl; split; auto; discriminate.
Qed.

Lemma clearExistingPhotoFaces_run photoId w :
  exists w',
    clearExistingPhotoFaces rekognition env photoId w = (Normal tt, w') /\
    faceEmbeddings (db w') =
      filter (fun f => negb (andb (fe_photoId f === photoId) (fe_provider f === FACE_PROVIDER)))
        (faceEmbeddings (db w)) /\
    photos (db w') = photos (db w) /\
    collectionReady w' = collectionReady w.
Proof.
  unfold clearExistingPhotoFaces, faceEmbedding_findMany, faceEmbedding_deleteMany.
  rewrite configured.
  unfold try_catch, bind, ret, get_db, put_db, send. simpl.
  destruct (0 <? Z.of_nat (List.length (map fe_externalId _))); simpl.
  - destruct (rekognition (sent w) _) as [r | e]; simpl; eexists; repeat split.
  - eexists; repeat split.
Qed.

Lemma faceEmbedding_create_run data w :
  existsb (fun q => photo_id q === fe_photoId data) (photos (db w)) = true ->
  existsb (fun f => andb (fe_provider f === fe_provider data)
                         (fe_externalId f === fe_externalId data))
    (faceEmbeddings (db w)) = false ->
  faceEmbedding_create data w =
  (Normal tt,
   {| db := with_faceEmbeddings (faceEmbeddings (db w) ++ [data]) (db w);
      collectionReady := collectionReady w;
      sent := sent w |}).
Proof.
  intros Hfk Huniq. unfold faceEmbedding_create, bind, get_db, put_db, throw.
  rewrite Hfk, Huniq. reflexivity.
Qed.

Variable p : Photo.

(** After the clearing, no stored record can clash with a handle that is
    not held by another photo. *)
Lemma cleared_no_clash (l : list FaceEmbedding) faceId :
  (forall f, In f l -> fe_provider f = FACE_PROVIDER -> fe_externalId f = faceId ->
             fe_photoId f = photo_id p) ->
  existsb (fun f => andb (fe_provider f === FACE_PROVIDER) (fe_externalId f === faceId))
    (filter (fun f => negb (andb (fe_photoId f === photo_id p)
                              (fe_provider f === FACE_PROVIDER))) l) = false.
Proof.
  intros Hfresh. apply not_true_is_false. intros Hex.
  apply existsb_exists in Hex. destruct Hex as [f [Hin Hf]].
  apply filter_In in Hin. destruct Hin as [Hin Hkeep].
  apply andb_true_iff in Hf. destruct Hf as [Hprov Hext].
  apply String.eqb_eq in Hprov. apply String.eqb_eq in Hext.
  pose proof (Hfresh f Hin Hprov Hext) as Hphoto.
  rewrite Hphoto, Hprov, !String.eqb_refl in Hkeep. discriminate.
Qed.

(** One run of [indexPhotoFace] when the collection can be ensured, the
    photo row exists and the provider answers with at most one record:
    the photo's old records are replaced by the record of the kept face. *)
Lemma indexPhotoFace_run w :
  fst (ensureCollection rekognition config w) = Normal tt ->
  existsb (fun q => photo_id q === photo_id p) (photos (db w)) = true ->
  detectsAtMostOneFace rekognition config p ->
  handlesUnclaimed rekognition config p (db w) ->
  exists history response result w',
    rekognition history (indexCommand config p) = Normal response /\
    indexPhotoFace rekognition env p w = (Normal result, w') /\
    index_status result =
      match keptFace (nullish (response_FaceRecords response) []) with
      | Some _ => FaceIndexStatus.indexed
      | None => FaceIndexStatus.no_face_detected
      end /\
    faceEmbeddings (db w') =
      filter (fun f => negb (andb (fe_photoId f === photo_id p)
                               (fe_provider f === FACE_PROVIDER)))
        (faceEmbeddings (db w))
      ++ recordsFor p (keptFace (nullish (response_FaceRecords response) [])) /\
    photos (db w') = photos (db w) /\
    collectionReady w' = true.
Proof.
  intros Hensure Hrow Hdetect Hfresh.
  destruct (ensureCollection_effect w) as [Hdb Hready].
  specialize (Hready Hensure).
  destruct (ensureCollection rekognition config w) as [c wa] eqn:Hrun.
  simpl in Hensure, Hdb, Hready. subst c.
  destruct (clearExistingPhotoFaces_run (photo_id p) wa) as [wb [Hclear [Hfaces [Hphotos Hflag]]]].
  destruct (Hdetect (sent wb)) as [response [Hanswer Hlen]].
  exists (sent wb), response.
  unfold indexPhotoFace. rewrite configured.
  unfold try_catch. unfold bind at 1. rewrite Hrun.
  unfold bind at 1. rewrite Hclear.
  unfold bind at 1. rewrite send_run. fold (indexCommand config p). rewrite Hanswer.
  specialize (Hfresh (sent wb) response).
  destruct (nullish (response_FaceRecords response) []) as [| record rest] eqn:Hrecords.
  - simpl. do 2 eexists. repeat split; simpl; try assumption.
    + rewrite app_nil_r, Hfaces, Hdb. reflexivity.
    + congruence.
    + congruence.
  - assert (rest = []) by (destruct rest; [reflexivity | simpl in Hlen; lia]). subst rest.
    unfold keptFace in *. 
    destruct (record_Face record) as [face |];
      [| simpl; do 2 eexists; repeat split; simpl;
         [rewrite app_nil_r, Hfaces, Hdb; reflexivity | congruence | congruence]].
    destruct (FaceId face) as [faceId |];
      [| simpl; do 2 eexists; repeat split; simpl;
         [rewrite app_nil_r, Hfaces, Hdb; reflexivity | congruence | congruence]].
    destruct (truthy faceId) eqn:Htruthy;
      [| simpl; do 2 eexists; repeat split; simpl;
         [rewrite app_nil_r, Hfaces, Hdb; reflexivity | congruence | congruence]].
    cbn [negb List.length]. 
    change (1 <? Z.of_nat 1) with false. cbv iota.
    unfold bind at 1. unfold ret at 1.
    unfold bind at 1.
    rewrite faceEmbedding_create_run.
    + simpl. do 2 eexists. repeat split; simpl.
      * rewrite Hfaces, Hdb. reflexivity.
      * congruence.
      * congruence.
    + simpl. rewrite Hphotos, Hdb. exact Hrow.
    + simpl. rewrite Hfaces.
      apply cleared_no_clash. intros f Hin Hprov Hext.
      rewrite Hdb in Hin.
      apply (Hfresh faceId (Confidence face) f); try assumption; reflexivity.
Qed.

End FaceIndex.

Lemma filter_after_removal {A : Type} (f : A -> bool) (l : list A) :
  filter f (filter (fun x => negb (f x)) l) = [].
Proof.
  induction l as [| a l IH]; simpl; [reflexivity |].
  destruct (f a) eqn:Hf; simpl; [exact IH |]. rewrite Hf. exact IH.
Qed.

Lemma faceRecordsOf_recordsFor p kept :
  filter (fun f => andb (fe_photoId f === photo_id p) (fe_provider f === FACE_PROVIDER))
    (recordsFor p kept) = recordsFor p kept.
Proof.
  destruct kept as [[faceId confidence] |]; simpl; [| reflexivity].
  rewrite String.eqb_refl. reflexivity.
Qed.

Lemma recordsFor_length p kept : (List.length (recordsFor p kept) <= 1)%nat.
Proof. destruct kept as [[faceId confidence] |]; simpl; lia. Qed.

(** The FaceRecords of the photo after a run that replaced them. *)
Lemma faceRecordsOf_replaced p kept (d d' : Database) :
  faceEmbeddings d' =
    filter (fun f => negb (andb (fe_photoId f === photo_id p)
                             (fe_provider f === FACE_PROVIDER)))
      (faceEmbeddings d)
    ++ recordsFor p kept ->
  faceRecordsOf (photo_id p) d' = recordsFor p kept.
Proof.
  intros Hd'. unfold faceRecordsOf. rewrite Hd', filter_app.
  rewrite (filter_after_removal
             (fun f => andb (fe_photoId f === photo_id p) (fe_provider f === FACE_PROVIDER))).
  apply faceRecordsOf_recordsFor.
Qed.

(** C7: when face search is configured, the collection can be ensured,
    the photo row exists, the provider finds zero or one face in the photo
    and gives it a handle that no other photo's FaceRecord holds, indexing
    the photo twice leaves it with at most one FaceRecord after the first
    run and, after the second run, with exactly the record of the face kept
    from the second detection: one record and status indexed when a face
    was detected, no record and status no_face_detected otherwise, never
    two. *)
Theorem indexPhotoFace_twice rekognition env config p w :
  getFaceSearchConfig env = Some config ->
  fst (ensureCollection rekognition config w) = Normal tt ->
  existsb (fun q => photo_id q === photo_id p) (photos (db w)) = true ->
  detectsAtMostOneFace rekognition config p ->
  handlesUnclaimed rekognition config p (db w) ->
  let once := snd (indexPhotoFace rekognition env p w) in
  let twice := indexPhotoFace rekognition env p once in
  (List.length (faceRecordsOf (photo_id p) (db once)) <= 1)%nat /\
  exists history response result,
    rekognition history (indexCommand config p) = Normal response /\
    fst twice = Normal result /\
    (List.length (faceRecordsOf (photo_id p) (db (snd twice))) <= 1)%nat /\
    match keptFace (nullish (response_FaceRecords response) []) with
    | Some (faceId, confidence) =>
        index_status result = FaceIndexStatus.indexed /\
        faceRecordsOf (photo_id p) (db (snd twice)) =
        [{| fe_photoId := photo_id p;
            fe_provider := FACE_PROVIDER;
            fe_externalId := faceId;
            fe_confidence := confidence |}]
    | None =>
        index_status result = FaceIndexStatus.no_face_detected /\
        faceRecordsOf (photo_id p) (db (snd twice)) = []
    end.
Proof.
  intros Hcfg Hensure Hrow Hdetect Hfresh once twice.
  destruct (indexPhotoFace_run rekognition env config Hcfg p w Hensure Hrow Hdetect Hfresh)
    as [h1 [response1 [r1 [w1 [Hans1 [Hrun1 [Hstatus1 [Hfaces1 [Hphotos1 Hready1]]]]]]]]].
  assert (Honce : once = w1) by (unfold once; rewrite Hrun1; reflexivity).
  assert (Hfresh1 : handlesUnclaimed rekognition config p (db w1)).
  { intros history response faceId confidence f Hans Hkept Hin Hprov Hext.
    rewrite Hfaces1 in Hin. apply in_app_or in Hin. destruct Hin as [Hin | Hin].
    - apply filter_In in Hin.
      apply (Hfresh history response faceId confidence f); tauto.
    - destruct (keptFace (nullish (response_FaceRecords response1) [])) as [[id c] |];
        simpl in Hin; [| contradiction].
      destruct Hin as [<- | []]. reflexivity. }
  assert (Hensure1 : fst (ensureCollection rekognition config w1) = Normal tt)
    by (rewrite (ensureCollection_when_ready rekognition config w1 Hready1); reflexivity).
  assert (Hrow1 : existsb (fun q => photo_id q === photo_id p) (photos (db w1)) = true)
    by (rewrite Hphotos1; exact Hrow).
  destruct (indexPhotoFace_run rekognition env config Hcfg p w1 Hensure1 Hrow1 Hdetect Hfresh1)
    as [h2 [response2 [r2 [w2 [Hans2 [Hrun2 [Hstatus2 [Hfaces2 [Hphotos2 Hready2]]]]]]]]].
  split.
  - rewrite Honce, (faceRecordsOf_replaced p _ (db w) (db w1) Hfaces1).
    apply recordsFor_length.
  - exists h2, response2, r2. unfold twice. rewrite Honce, Hrun2. simpl.
    rewrite (faceRecordsOf_replaced p _ (db w1) (db w2) Hfaces2).
    split; [exact Hans2 |]. split; [reflexivity |]. split; [apply recordsFor_length |].
    destruct (keptFace (nullish (response_FaceRecords response2) [])) as [[faceId confidence] |];
      simpl; split; auto.
Qed.

Lemma indexPhotoFace_twice_witness :
  (List.length
     (faceRecordsOf "P1"
        (db (snd (indexPhotoFace Sample.one_face Sample.env Sample.P1
                    Sample.unindexed_world)))) <= 1)%nat.
Proof.
  refine (proj1 (indexPhotoFace_twice Sample.one_face Sample.env Sample.config Sample.P1
                   Sample.unindexed_world _ _ _ _ _)).
  - reflexivity.
  - reflexivity.
  - reflexivity.
  - intros history. eexists. split; [reflexivity | simpl; lia].
  - intros history response faceId confidence f _ _ Hin. destruct Hin.
Defined.

(** Indexing photo [P1] twice with a provider that gives a new handle each
    time leaves the single record of the second detection. *)
Example reindexing_keeps_latest_detection :
  map fe_externalId
    (faceRecordsOf "P1"
       (db (snd (indexPhotoFace Sample.one_face Sample.env Sample.P1
                   (snd (indexPhotoFace Sample.one_face Sample.env Sample.P1
                           Sample.unindexed_world)))))) = ["F2"].
Proof. vm_compute. reflexivity. Qed.

(** C5 (the code at the failing input): the provider reports two faces for
    photo [P1] and the deletion of the extra face fails with a throttling
    error; [indexPhotoFace] then returns status error with the provider's
    message and the photo is left without any FaceRecord, although the
    deletion was sent for the extra face only. *)
Lemma indexPhotoFace_extra_deletion_failure :
  let run := indexPhotoFace Sample.two_faces_then_failure Sample.env Sample.P1
               Sample.unindexed_world in
  fst run = Normal {| index_status := FaceIndexStatus.error;
                      index_message := Some "Rate exceeded" |} /\
  faceRecordsOf "P1" (db (snd run)) = [] /\
  sent (snd run) =
    [IndexFacesCommand "snapflow-faces" "P1" 1 "snapflow-photos" "events/E1/original/p1.jpg";
     DeleteFacesCommand "snapflow-faces" ["F2"]].
Proof. vm_compute. repeat split. Qed.

(** ** Facts about [Map] and about comparisons of numbers *)

Lemma Qltb_true x y : Qltb x y = true <-> (x < y)%Q.
Proof.
  unfold Qltb. rewrite negb_true_iff. split.
  - intros H. apply Qnot_le_lt. intros Hle. apply Qle_bool_iff in Hle. congruence.
  - intros H. apply not_true_is_false. intros Hle. apply Qle_bool_iff in Hle.
    exact (Qlt_not_le _ _ H Hle).
Qed.

Lemma Qltb_false x y : Qltb x y = false <-> (y <= x)%Q.
Proof.
  unfold Qltb. rewrite negb_false_iff. apply Qle_bool_iff.
Qed.

Lemma truthy_true s : truthy s = true <-> s <> "".
Proof.
  unfold truthy. rewrite negb_true_iff. split.
  - intros H. apply String.eqb_neq. exact H.
  - intros H. apply String.eqb_neq. exact H.
Qed.

Section JsMapFacts.

Context {V : Type}.
Implicit Types (m : JsMap.t V) (k : string) (v : V).

Lemma map_get_set k v m : JsMap.get k (JsMap.set k v m) = Some v.
Proof.
  induction m as [| [k' v'] m IH]; simpl.
  - rewrite String.eqb_refl. reflexivity.
  - destruct (k' === k) eqn:Heq; simpl.
    + rewrite String.eqb_refl. reflexivity.
    + rewrite Heq. exact IH.
Qed.

Lemma map_get_set_other k k0 v m :
  k <> k0 -> JsMap.get k0 (JsMap.set k v m) = JsMap.get k0 m.
Proof.
  intros Hne. induction m as [| [k' v'] m IH]; simpl.
  - apply String.eqb_neq in Hne. rewrite Hne. reflexivity.
  - destruct (k' === k) eqn:Heq; simpl.
    + apply String.eqb_eq in Heq. subst k'.
      apply String.eqb_neq in Hne. rewrite Hne. reflexivity.
    + rewrite IH. reflexivity.
Qed.

Lemma map_keys_set k k0 v m :
  In k0 (JsMap.keys (JsMap.set k v m)) <-> k0 = k \/ In k0 (JsMap.keys m).
Proof.
  unfold JsMap.keys. induction m as [| [k' v'] m IH]; simpl.
  - intuition.
  - destruct (k' === k) eqn:Heq; simpl.
    + apply String.eqb_eq in Heq. subst k'. intuition.
    + rewrite IH. intuition.
Qed.

Lemma map_keys_set_NoDup k v m :
  NoDup (JsMap.keys m) -> NoDup (JsMap.keys (JsMap.set k v m)).
Proof.
  unfold JsMap.keys. induction m as [| [k' v'] m IH]; simpl; intros Hnd.
  - constructor; [intros [] | constructor].
  - inversion Hnd as [| ? ? Hnotin Hnd']; subst.
    destruct (k' === k) eqn:Heq; simpl.
    + apply String.eqb_eq in Heq. subst k'. constructor; assumption.
    + constructor; [| apply IH; exact Hnd'].
      intros Hin. apply (map_keys_set k k' v m) in Hin. destruct Hin as [-> | Hin].
      * rewrite String.eqb_refl in Heq. discriminate.
      * exact (Hnotin Hin).
Qed.

Lemma map_get_In k v m : JsMap.get k m = Some v -> In (k, v) m.
Proof.
  induction m as [| [k' v'] m IH]; simpl; [discriminate |].
  destruct (k' === k) eqn:Heq.
  - apply String.eqb_eq in Heq. intros [= ->]. left. congruence.
  - intros H. right. exact (IH H).
Qed.

Lemma map_In_get k v m : NoDup (JsMap.keys m) -> In (k, v) m -> JsMap.get k m = Some v.
Proof.
  unfold JsMap.keys. induction m as [| [k' v'] m IH]; simpl; intros Hnd Hin; [contradiction |].
  inversion Hnd as [| ? ? Hnotin Hnd']; subst.
  destruct Hin as [[= -> ->] | Hin].
  - rewrite String.eqb_refl. reflexivity.
  - destruct (k' === k) eqn:Heq.
    + apply String.eqb_eq in Heq. subst k'. exfalso. apply Hnotin.
      apply (in_map fst) in Hin. exact Hin.
    + apply IH; assumption.
Qed.

Lemma map_keys_get k m : In k (JsMap.keys m) <-> exists v, JsMap.get k m = Some v.
Proof.
  unfold JsMap.keys. induction m as [| [k' v'] m IH]; simpl.
  - split; [intros [] | intros [v H]; discriminate].
  - destruct (k' === k) eqn:Heq.
    + apply String.eqb_eq in Heq. split; [intros _; eauto | intros _; left; exact Heq].
    + apply String.eqb_neq in Heq. rewrite <- IH. intuition.
Qed.

End JsMapFacts.

(** ** The two loops of the selfie matcher *)

Lemma reported_more seen more k s : reported seen k s -> reported (seen ++ more) k s.
Proof.
  intros [Hk [m [Hin H]]]. split; [exact Hk |]. exists m. split; [| exact H].
  apply in_or_app. left. exact Hin.
Qed.

Lemma reported_last seen m k s :
  reported (seen ++ [m]) k s ->
  reported seen k s \/ (k <> "" /\ match_FaceId m = Some k /\ Similarity m = Some s).
Proof.
  intros [Hk [m' [Hin H]]]. apply in_app_or in Hin. destruct Hin as [Hin | [<- | []]].
  - left. split; [exact Hk |]. exists m'. tauto.
  - right. tauto.
Qed.

Lemma similarityInvariant_skip seen m match_ :
  (forall k s, k <> "" -> match_FaceId match_ = Some k -> Similarity match_ = Some s ->
               (0 < s)%Q -> exists v, JsMap.get k m = Some v /\ (s <= v)%Q) ->
  similarityInvariant seen m ->
  similarityInvariant (seen ++ [match_]) m.
Proof.
  intros Hcovered [Hnd [Hsound Hmax]]. split; [exact Hnd |]. split.
  - intros k v Hget. destruct (Hsound k v Hget) as [Hpos Hrep].
    split; [exact Hpos | apply reported_more; exact Hrep].
  - intros k s Hrep Hpos. apply reported_last in Hrep.
    destruct Hrep as [Hrep | [Hk [Hid Hsim]]].
    + exact (Hmax k s Hrep Hpos).
    + exact (Hcovered k s Hk Hid Hsim Hpos).
Qed.

Lemma similarityInvariant_step seen m match_ :
  similarityInvariant seen m ->
  similarityInvariant (seen ++ [match_]) (recordSimilarity m match_).
Proof.
  intros Hinv. unfold recordSimilarity.
  destruct (match_FaceId match_) as [faceId |] eqn:Hid;
    [| apply similarityInvariant_skip; [intros; congruence | exact Hinv]].
  destruct (Similarity match_) as [similarity |] eqn:Hsim;
    [| apply similarityInvariant_skip; [intros; congruence | exact Hinv]].
  destruct (truthy faceId) eqn:Htruthy; simpl.
  2:{ apply similarityInvariant_skip; [| exact Hinv].
      intros k s Hk Hk' _ _. exfalso.
      assert (k = faceId) by congruence. subst k.
      apply truthy_true in Hk. congruence. }
  apply truthy_true in Htruthy.
  destruct Hinv as [Hnd [Hsound Hmax]].
  destruct (Qltb (nullish (JsMap.get faceId m) 0%Q) similarity) eqn:Hlt.
  - apply Qltb_true in Hlt.
    assert (Hpositive : (0 < similarity)%Q).
    { destruct (JsMap.get faceId m) as [v0 |] eqn:Hget0; simpl in Hlt; [| exact Hlt].
      destruct (Hsound faceId v0 Hget0) as [Hv0 _].
      eapply Qlt_trans; eassumption. }
    split; [apply map_keys_set_NoDup; exact Hnd |]. split.
    + intros k v Hget. destruct (String.eqb_spec faceId k) as [<- | Hne].
      * rewrite map_get_set in Hget. injection Hget as <-.
        split; [exact Hpositive |]. split; [exact Htruthy |].
        exists match_. split; [apply in_or_app; right; left; reflexivity | tauto].
      * rewrite (map_get_set_other _ _ _ _ Hne) in Hget.
        destruct (Hsound k v Hget) as [Hpos Hrep].
        split; [exact Hpos | apply reported_more; exact Hrep].
    + intros k s Hrep Hpos. apply reported_last in Hrep.
      destruct (String.eqb_spec faceId k) as [<- | Hne].
      * exists similarity. rewrite map_get_set. split; [reflexivity |].
        destruct Hrep as [Hrep | [_ [_ Hs]]].
        -- destruct (Hmax faceId s Hrep Hpos) as [v [Hget Hle]].
           rewrite Hget in Hlt. simpl in Hlt.
           apply Qlt_le_weak. eapply Qle_lt_trans; eassumption.
        -- assert (s = similarity) by congruence. subst s. apply Qle_refl.
      * rewrite (map_get_set_other _ _ _ _ Hne).
        destruct Hrep as [Hrep | [_ [Hk _]]]; [exact (Hmax k s Hrep Hpos) | congruence].
  - apply Qltb_false in Hlt.
    apply similarityInvariant_skip; [| exact (conj Hnd (conj Hsound Hmax))].
    intros k s Hk Hk' Hs Hpos.
    assert (k = faceId) by congruence. subst k.
    assert (s = similarity) by congruence. subst s.
    destruct (JsMap.get faceId m) as [v0 |] eqn:Hget0; simpl in Hlt.
    + exists v0. split; [reflexivity | exact Hlt].
    + exfalso. exact (Qlt_not_le _ _ Hpos Hlt).
Qed.

Lemma similarityInvariant_fold l : forall seen m,
  similarityInvariant seen m ->
  similarityInvariant (seen ++ l) (fold_left recordSimilarity l m).
Proof.
  induction l as [| match_ l IH]; intros seen m Hinv; simpl.
  - rewrite app_nil_r. exact Hinv.
  - replace (seen ++ match_ :: l) with ((seen ++ [match_]) ++ l)
      by (rewrite <- app_assoc; reflexivity).
    apply IH. apply similarityInvariant_step. exact Hinv.
Qed.

Lemma similarityInvariant_loop faceMatches :
  similarityInvariant faceMatches (fold_left recordSimilarity faceMatches JsMap.empty).
Proof.
  apply (similarityInvariant_fold faceMatches [] JsMap.empty).
  split; [constructor |]. split.
  - intros k v H. discriminate.
  - intros k s [_ [m [[] _]]].
Qed.

Lemma bestInvariant_skip sims seen b f p :
  (exists x, JsMap.get (fe_photoId f) b = Some x /\
             (similarityOf sims f <= best_similarity x)%Q) ->
  bestInvariant sims seen b ->
  bestInvariant sims (seen ++ [(f, p)]) b.
Proof.
  intros Hcovered [Hnd [Hsound Hmax]]. split; [exact Hnd |]. split.
  - intros k x Hget. destruct (Hsound k x Hget) as [f0 [p0 [Hin H]]].
    exists f0, p0. split; [apply in_or_app; left; exact Hin | exact H].
  - intros f0 p0 Hin. apply in_app_or in Hin. destruct Hin as [Hin | [[= <- <-] | []]].
    + exact (Hmax f0 p0 Hin).
    + exact Hcovered.
Qed.

Lemma bestInvariant_set sims seen b f p :
  (forall previous, JsMap.get (fe_photoId f) b = Some previous ->
                    (best_similarity previous <= similarityOf sims f)%Q) ->
  bestInvariant sims seen b ->
  bestInvariant sims (seen ++ [(f, p)])
    (JsMap.set (fe_photoId f)
       {| best_similarity := similarityOf sims f; best_photo := p |} b).
Proof.
  intros Hprevious [Hnd [Hsound Hmax]].
  split; [apply map_keys_set_NoDup; exact Hnd |]. split.
  - intros k x Hget. destruct (String.eqb_spec (fe_photoId f) k) as [<- | Hne].
    + rewrite map_get_set in Hget. injection Hget as <-.
      exists f, p. split; [apply in_or_app; right; left; reflexivity | auto].
    + rewrite (map_get_set_other _ _ _ _ Hne) in Hget.
      destruct (Hsound k x Hget) as [f0 [p0 [Hin H]]].
      exists f0, p0. split; [apply in_or_app; left; exact Hin | exact H].
  - intros f0 p0 Hin. apply in_app_or in Hin.
    destruct (String.eqb_spec (fe_photoId f) (fe_photoId f0)) as [Heq | Hne].
    + rewrite <- Heq, map_get_set. eexists. split; [reflexivity |]. simpl.
      destruct Hin as [Hin | [[= <- <-] | []]]; [| apply Qle_refl].
      destruct (Hmax f0 p0 Hin) as [x [Hget Hle]].
      rewrite <- Heq in Hget. eapply Qle_trans; [exact Hle |].
      exact (Hprevious x Hget).
    + rewrite (map_get_set_other _ _ _ _ Hne).
      destruct Hin as [Hin | [[= Hf _] | []]]; [exact (Hmax f0 p0 Hin) |].
      subst f0. congruence.
Qed.

Lemma bestInvariant_step sims seen b row :
  bestInvariant sims seen b ->
  bestInvariant sims (seen ++ [row]) (recordBest sims b row).
Proof.
  intros Hinv. destruct row as [f p]. unfold recordBest. simpl fst. simpl snd.
  fold (similarityOf sims f).
  destruct (JsMap.get (fe_photoId f) b) as [previous |] eqn:Hget.
  - destruct (Qltb (best_similarity previous) (similarityOf sims f)) eqn:Hlt.
    + apply Qltb_true in Hlt. apply bestInvariant_set; [| exact Hinv].
      intros previous' Hget'. assert (previous' = previous) by congruence. subst previous'.
      apply Qlt_le_weak. exact Hlt.
    + apply Qltb_false in Hlt. apply bestInvariant_skip; [| exact Hinv].
      exists previous. split; [exact Hget | exact Hlt].
  - apply bestInvariant_set; [| exact Hinv]. intros previous Hget'. congruence.
Qed.

Lemma bestInvariant_fold sims l : forall seen b,
  bestInvariant sims seen b ->
  bestInvariant sims (seen ++ l) (fold_left (recordBest sims) l b).
Proof.
  induction l as [| row l IH]; intros seen b Hinv; simpl.
  - rewrite app_nil_r. exact Hinv.
  - replace (seen ++ row :: l) with ((seen ++ [row]) ++ l)
      by (rewrite <- app_assoc; reflexivity).
    apply IH. apply bestInvariant_step. exact Hinv.
Qed.

Lemma bestInvariant_loop sims rows :
  bestInvariant sims rows (fold_left (recordBest sims) rows JsMap.empty).
Proof.
  apply (bestInvariant_fold sims rows [] JsMap.empty).
  split; [constructor |]. split.
  - intros k x H. discriminate.
  - intros f p [].
Qed.

(** ** The query of the selfie matcher *)

Lemma includePhoto_In where_ d f p :
  In (f, p) (includePhoto where_ d) <->
  In f (faceEmbeddings d) /\
  find (fun q => photo_id q === fe_photoId f) (photos d) = Some p /\
  where_ f p = true.
Proof.
  unfold includePhoto. rewrite in_flat_map. split.
  - intros [f0 [Hin Hrow]].
    destruct (find _ (photos d)) as [p0 |] eqn:Hfind; [| destruct Hrow].
    destruct (where_ f0 p0) eqn:Hwhere; [| destruct Hrow].
    destruct Hrow as [[= <- <-] | []]. auto.
  - intros [Hin [Hfind Hwhere]]. exists f. split; [exact Hin |].
    rewrite Hfind, Hwhere. left. reflexivity.
Qed.

Lemma selfieWhere_true eventId faceIds f p :
  selfieWhere eventId faceIds f p = true <->
  fe_provider f = FACE_PROVIDER /\ In (fe_externalId f) faceIds /\ eligible eventId p.
Proof.
  unfold selfieWhere, eligible.
  rewrite !andb_true_iff, !String.eqb_eq, Bool.eqb_true_iff, PhotoStatus_eqb_eq.
  rewrite existsb_exists. split.
  - intros [Hprov [[id [Hin Hid]] H]]. apply String.eqb_eq in Hid. subst id. tauto.
  - intros [Hprov [Hin H]]. split; [exact Hprov |]. split; [| tauto].
    exists (fe_externalId f). split; [exact Hin | apply String.eqb_refl].
Qed.

(** A row of the query: a FaceRecord of this provider whose handle is
    among the searched ones, joined with its eligible photo. *)
Lemma selfie_row eventId faceIds d f p :
  In (f, p) (includePhoto (selfieWhere eventId faceIds) d) <->
  In f (faceEmbeddings d) /\
  find (fun q => photo_id q === fe_photoId f) (photos d) = Some p /\
  fe_provider f = FACE_PROVIDER /\
  In (fe_externalId f) faceIds /\
  eligible eventId p.
Proof. rewrite includePhoto_In, selfieWhere_true. tauto. Qed.

(** ** Sorting and truncating *)

Lemma sort_insert_sorted {A : Type} (before : A -> A -> bool) (R : A -> A -> Prop) :
  (forall x y, before y x = true -> R y x) ->
  (forall x y, before y x = false -> R x y) ->
  (forall x y z, R x y -> R y z -> R x z) ->
  forall x l, StronglySorted R l -> StronglySorted R (sort_insert before x l).
Proof.
  intros Hbefore Hafter Htrans x l. induction l as [| y l IH]; intros Hsorted; simpl.
  - constructor; constructor.
  - apply StronglySorted_inv in Hsorted. destruct Hsorted as [Hl Hy].
    destruct (before y x) eqn:Hyx.
    + constructor; [apply IH; exact Hl |].
      apply (Permutation_Forall (Permutation_sym (sort_insert_Permutation before x l))).
      constructor; [apply Hbefore; exact Hyx | exact Hy].
    + constructor; [constructor; assumption |].
      constructor; [apply Hafter; exact Hyx |].
      eapply Forall_impl; [| exact Hy]. intros z Hz. eapply Htrans; [| exact Hz].
      apply Hafter. exact Hyx.
Qed.

Lemma stable_sort_sorted {A : Type} (before : A -> A -> bool) (R : A -> A -> Prop) :
  (forall x y, before y x = true -> R y x) ->
  (forall x y, before y x = false -> R x y) ->
  (forall x y z, R x y -> R y z -> R x z) ->
  forall l, StronglySorted R (stable_sort before l).
Proof.
  intros Hbefore Hafter Htrans l. induction l as [| x l IH]; simpl.
  - constructor.
  - apply sort_insert_sorted; assumption.
Qed.

Lemma js_sort_descending (l : list Best) :
  StronglySorted (fun a b => (best_similarity b <= best_similarity a)%Q)
    (js_sort bySimilarityDesc l).
Proof.
  unfold js_sort. apply stable_sort_sorted.
  - intros x y H. apply Qltb_true in H. unfold bySimilarityDesc in H. lra.
  - intros x y H. apply Qltb_false in H. unfold bySimilarityDesc in H. lra.
  - intros x y z Hxy Hyz. eapply Qle_trans; eassumption.
Qed.

Lemma StronglySorted_firstn {A : Type} (R : A -> A -> Prop) (l : list A) :
  StronglySorted R l -> forall n, StronglySorted R (firstn n l).
Proof.
  induction 1 as [| a l Hl IH Ha]; intros n.
  - rewrite firstn_nil. constructor.
  - destruct n as [| n]; simpl; [constructor |].
    constructor; [apply IH |].
    rewrite Forall_forall in *. intros x Hx. apply Ha.
    rewrite <- (firstn_skipn n l). apply in_or_app. left. exact Hx.
Qed.

Lemma StronglySorted_map {A B : Type} (g : A -> B) (R : B -> B -> Prop) (l : list A) :
  StronglySorted (fun a b => R (g a) (g b)) l -> StronglySorted R (map g l).
Proof.
  induction 1 as [| a l Hl IH Ha]; simpl; constructor; [exact IH |].
  rewrite Forall_forall in *. intros y Hy. apply in_map_iff in Hy.
  destruct Hy as [x [<- Hx]]. apply Ha. exact Hx.
Qed.

Lemma slice0_firstn {A : Type} (l : list A) (end_ : Z) :
  exists n, slice0 l end_ = firstn n l /\ (0 <= end_ -> n = Z.to_nat end_).
Proof.
  unfold slice0. destruct (end_ <? 0) eqn:Hneg.
  - apply Z.ltb_lt in Hneg. eexists. split; [reflexivity | lia].
  - eexists. split; [reflexivity | reflexivity].
Qed.

Lemma In_firstn {A : Type} (n : nat) (l : list A) x : In x (firstn n l) -> In x l.
Proof.
  intros H. rewrite <- (firstn_skipn n l). apply in_or_app. left. exact H.
Qed.

Lemma NoDup_firstn {A : Type} (n : nat) (l : list A) : NoDup l -> NoDup (firstn n l).
Proof.
  intros H. rewrite <- (firstn_skipn n l) in H. exact (NoDup_app_remove_r _ _ H).
Qed.

(** ** The selfie matcher *)

Lemma Promise_all_pure {A B : Type} (f : A -> Async B) (g : A -> B) :
  (forall x w, f x w = (Normal (g x), w)) ->
  forall l w, Promise_all f l w = (Normal (map g l), w).
Proof.
  intros Hf l. induction l as [| x l IH]; intros w; [reflexivity |].
  simpl. unfold bind. rewrite Hf, IH. reflexivity.
Qed.

Section SelfieMatcher.

Variable rekognition : Rekognition.
Variable getSignedUrl : string -> string -> Z -> string.
Variable env : Env.
Variable config : FaceSearchConfig.
Hypothesis configured : getFaceSearchConfig env = Some config.

(** A configured face search has the bucket that the storage needs. *)
Lemma faceSearch_storage :
  getStorageConfig env =
  Normal {| storage_bucket := bucket config;
            storage_region := nullish (S3_REGION env) "us-east-1" |}.
Proof.
  unfold getFaceSearchConfig in configured. unfold getStorageConfig.
  destruct (S3_BUCKET env) as [b |]; [| discriminate].
  destruct (AWS_REKOGNITION_COLLECTION_ID env) as [c |]; [| discriminate].
  destruct (truthy b); simpl in configured; [| discriminate].
  destruct (truthy c); simpl in configured; [| discriminate].
  injection configured as <-. reflexivity.
Qed.

Lemma serialize_all_run (l : list Best) w :
  Promise_all
    (fun match_ =>
       (sp <- serializePhoto getSignedUrl env (best_photo match_) ;;
        ret {| similarity := best_similarity match_; photo := sp |})%async)
    l w =
  (Normal
     (map (fun b =>
             {| similarity := best_similarity b;
                photo :=
                  serializedWith
                    (getSignedUrl (bucket config) (photo_storageKey (best_photo b)) 3600)
                    (best_photo b) |}) l),
   w).
Proof.
  apply Promise_all_pure. intros b w'. unfold serializePhoto, bind.
  rewrite (createSignedDownloadUrl_run getSignedUrl env _ faceSearch_storage).
  reflexivity.
Qed.

Variable eventId : string.
Variable selfieBytes : list Byte.byte.
Variable limit : Z.

Lemma providerSearch_db w :
  db (snd (providerSearch rekognition env config selfieBytes w)) = db w.
Proof.
  unfold providerSearch, bind.
  destruct (ensureCollection_effect rekognition config w) as [Hdb _].
  destruct (ensureCollection rekognition config w) as [[[] | e] wa]; simpl in Hdb;
    [| exact Hdb].
  rewrite send_run.
  destruct (rekognition (sent wa) _) as [response | e]; simpl; exact Hdb.
Qed.

(** One run of [findSelfieMatches], from the provider's answer on. *)
Lemma findSelfieMatches_run w :
  findSelfieMatches rekognition getSignedUrl env eventId selfieBytes limit w =
  match providerSearch rekognition env config selfieBytes w with
  | (Thrown error, w') =>
      (Normal
         (if name_is error "InvalidParameterException"
          then {| search_status := SelfieSearchStatus.no_face_detected;
                  matches := [];
                  search_message := Some "No face detected in the selfie." |}
          else {| search_status := SelfieSearchStatus.error;
                  matches := [];
                  search_message :=
                    Some (if err_is_Error error then err_message error
                          else "Face match search failed.") |}),
       w')
  | (Normal faceMatches, w') =>
      let sims := fold_left recordSimilarity faceMatches JsMap.empty in
      let rows := includePhoto (selfieWhere eventId (JsMap.keys sims)) (db w') in
      (Normal
         (if Z.of_nat (List.length faceMatches) =? 0
          then {| search_status := SelfieSearchStatus.no_matches;
                  matches := [];
                  search_message := None |}
          else if Z.of_nat (List.length (JsMap.keys sims)) =? 0
          then {| search_status := SelfieSearchStatus.no_face_detected;
                  matches := [];
                  search_message := Some "No face detected in the selfie." |}
          else if Z.of_nat (List.length rows) =? 0
          then {| search_status := SelfieSearchStatus.no_matches;
                  matches := [];
                  search_message := None |}
          else {| search_status := SelfieSearchStatus.ok;
                  matches :=
                    map (fun b =>
                           {| similarity := best_similarity b;
                              photo :=
                                serializedWith
                                  (getSignedUrl (bucket config)
                                     (photo_storageKey (best_photo b)) 3600)
                                  (best_photo b) |})
                      (slice0
                         (js_sort bySimilarityDesc
                            (JsMap.values (fold_left (recordBest sims) rows JsMap.empty)))
                         limit);
                  search_message := None |}),
       w')
  end.
Proof.
  unfold findSelfieMatches, providerSearch. rewrite configured.
  unfold try_catch. unfold bind at 1. unfold bind at 5.
  destruct (ensureCollection rekognition config w) as [[[] | e] wa];
    [| destruct (name_is e _); reflexivity].
  unfold bind at 1. unfold bind at 4.
  destruct (send rekognition _ wa) as [[response | e] wb];
    [| destruct (name_is e _); reflexivity].
  change (ret (nullish (response_FaceMatches response) []) wb)
    with (Normal (nullish (response_FaceMatches response) []), wb).
  cbv beta iota zeta.
  destruct (Z.of_nat (List.length (nullish (response_FaceMatches response) [])) =? 0);
    [reflexivity |].
  destruct (Z.of_nat (List.length (JsMap.keys _)) =? 0); [reflexivity |].
  unfold faceEmbedding_findMany_include_photo.
  unfold bind at 1. unfold bind at 1. unfold get_db at 1. unfold ret at 1.
  destruct (Z.of_nat (List.length (includePhoto _ (db wb))) =? 0); [reflexivity |].
  unfold bind at 1. rewrite serialize_all_run. reflexivity.
Qed.

End SelfieMatcher.

Section BestEntries.

Variable faceMatches : list FaceMatch.
Variable d : Database.
Variable eventId : string.

Let sims := fold_left recordSimilarity faceMatches JsMap.empty.
Let rows := includePhoto (selfieWhere eventId (JsMap.keys sims)) d.
Let best := fold_left (recordBest sims) rows JsMap.empty.

(** Every entry of [bestByPhotoId] is a row of the query, filed under its
    photo. *)
Lemma best_entry x :
  In x (JsMap.values best) ->
  exists f p,
    In (f, p) rows /\
    x = {| best_similarity := similarityOf sims f; best_photo := p |} /\
    JsMap.get (fe_photoId f) best = Some x.
Proof.
  intros Hin. destruct (bestInvariant_loop sims rows) as [Hnd [Hsound _]].
  fold best in Hnd, Hsound.
  unfold JsMap.values in Hin. apply in_map_iff in Hin. destruct Hin as [[k x'] [Hx Hin]].
  simpl in Hx. subst x'.
  pose proof (map_In_get k x best Hnd Hin) as Hget.
  destruct (Hsound k x Hget) as [f [p [Hrow [Hk Hx]]]].
  exists f, p. subst k. auto.
Qed.

Lemma row_photo f p : In (f, p) rows -> photo_id p = fe_photoId f.
Proof.
  intros Hrow. apply selfie_row in Hrow. destruct Hrow as [_ [Hfind _]].
  apply find_some in Hfind. destruct Hfind as [_ Heq]. apply String.eqb_eq. exact Heq.
Qed.

Lemma best_ids :
  map (fun x => photo_id (best_photo x)) (JsMap.values best) = JsMap.keys best.
Proof.
  destruct (bestInvariant_loop sims rows) as [Hnd [Hsound _]]. fold best in Hnd, Hsound.
  unfold JsMap.values, JsMap.keys. rewrite map_map.
  apply map_ext_in. intros [k x] Hin. simpl.
  pose proof (map_In_get k x best Hnd Hin) as Hget.
  destruct (Hsound k x Hget) as [f [p [Hrow [Hk Hx]]]].
  subst x k. simpl. apply row_photo. exact Hrow.
Qed.

Lemma best_ids_NoDup :
  NoDup (map (fun x => photo_id (best_photo x)) (JsMap.values best)).
Proof.
  rewrite best_ids. destruct (bestInvariant_loop sims rows) as [Hnd _]. exact Hnd.
Qed.

(** The photo of an entry is an eligible photo of the store. *)
Lemma best_entry_eligible x :
  In x (JsMap.values best) ->
  In (best_photo x) (photos d) /\ eligible eventId (best_photo x).
Proof.
  intros Hin. destruct (best_entry x Hin) as [f [p [Hrow [Hx _]]]]. subst x. simpl.
  apply selfie_row in Hrow. destruct Hrow as [_ [Hfind [_ [_ Heligible]]]].
  apply find_some in Hfind. tauto.
Qed.

(** The similarity of an entry was reported for a handle that resolves to
    the entry's photo, and no handle that resolves to that photo was
    reported with more. *)
Lemma best_entry_maximal x :
  In x (JsMap.values best) ->
  (exists h, resolves d h (photo_id (best_photo x)) /\
             reported faceMatches h (best_similarity x)) /\
  (forall h s, resolves d h (photo_id (best_photo x)) ->
               reported faceMatches h s -> (s <= best_similarity x)%Q).
Proof.
  intros Hin. destruct (best_entry x Hin) as [f [p [Hrow [Hx Hget]]]].
  pose proof (row_photo f p Hrow) as Hphoto.
  pose proof Hrow as Hrow'. apply selfie_row in Hrow'.
  destruct Hrow' as [Hf [Hfind [Hprov [Hkey Heligible]]]].
  destruct (similarityInvariant_loop faceMatches) as [_ [Hsound Hmax]].
  fold sims in Hsound, Hmax.
  apply map_keys_get in Hkey. destruct Hkey as [v Hv].
  assert (Hsim : similarityOf sims f = v) by (unfold similarityOf; rewrite Hv; reflexivity).
  destruct (Hsound _ _ Hv) as [Hpositive Hreported].
  subst x. simpl. rewrite Hsim. split.
  - exists (fe_externalId f). split; [| exact Hreported].
    exists f. auto.
  - intros h s [f' [Hf' [Hprov' [Hext' Hphoto']]]] Hrep.
    destruct (Qlt_le_dec 0 s) as [Hpos | Hneg].
    + destruct (Hmax h s Hrep Hpos) as [v' [Hv' Hle]].
      assert (Hrow' : In (f', p) rows).
      { apply selfie_row. split; [exact Hf' |].
        split; [rewrite Hphoto', Hphoto; exact Hfind |].
        split; [exact Hprov' |].
        split; [| exact Heligible].
        rewrite Hext'. apply map_keys_get. exists v'. exact Hv'. }
      destruct (bestInvariant_loop sims rows) as [_ [_ Hbest]]. fold best in Hbest.
      destruct (Hbest f' p Hrow') as [x' [Hget' Hle']].
      rewrite Hphoto', Hphoto, Hget in Hget'. injection Hget' as <-. simpl in Hle'.
      rewrite Hsim in Hle'.
      unfold similarityOf in Hle'. rewrite Hext', Hv' in Hle'. simpl in Hle'.
      eapply Qle_trans; eassumption.
    + apply Qlt_le_weak. eapply Qle_lt_trans; eassumption.
Qed.

End BestEntries.

Lemma keys_usable faceMatches h :
  In h (JsMap.keys (fold_left recordSimilarity faceMatches JsMap.empty)) <->
  usableHandle faceMatches h.
Proof.
  destruct (similarityInvariant_loop faceMatches) as [_ [Hsound Hmax]].
  rewrite map_keys_get. split.
  - intros [v Hv]. destruct (Hsound h v Hv) as [Hpos Hrep]. exists v. auto.
  - intros [s [Hrep Hpos]]. destruct (Hmax h s Hrep Hpos) as [v [Hv _]]. eauto.
Qed.

Lemma length_zero {A : Type} (l : list A) :
  (Z.of_nat (List.length l) =? 0) = true <-> l = [].
Proof.
  destruct l as [| a l]; simpl List.length; split; intros H.
  - reflexivity.
  - reflexivity.
  - apply Z.eqb_eq in H. lia.
  - discriminate H.
Qed.

Lemma name_is_true error name : name_is error name = true <-> err_name error = Some name.
Proof.
  unfold name_is. destruct (err_name error) as [n |].
  - rewrite String.eqb_eq. split; congruence.
  - split; discriminate.
Qed.

Section SelfieMatcherResults.

Variable rekognition : Rekognition.
Variable getSignedUrl : string -> string -> Z -> string.
Variable env : Env.
Variable eventId : string.
Variable selfieBytes : list Byte.byte.
Variable limit : Z.
Variable w : World.

(** [findSelfieMatches] always returns a result, and its match list is
    either empty or the serialized front of the sorted entries of
    [bestByPhotoId]. *)
Lemma findSelfieMatches_matches :
  exists result,
    fst (findSelfieMatches rekognition getSignedUrl env eventId selfieBytes limit w) =
      Normal result /\
    (matches result = [] \/
     exists config faceMatches n,
       getFaceSearchConfig env = Some config /\
       fst (providerSearch rekognition env config selfieBytes w) = Normal faceMatches /\
       (0 <= limit -> n = Z.to_nat limit) /\
       let sims := fold_left recordSimilarity faceMatches JsMap.empty in
       let rows := includePhoto (selfieWhere eventId (JsMap.keys sims)) (db w) in
       matches result =
       map (fun b =>
              {| similarity := best_similarity b;
                 photo :=
                   serializedWith
                     (getSignedUrl (bucket config) (photo_storageKey (best_photo b)) 3600)
                     (best_photo b) |})
         (firstn n
            (js_sort bySimilarityDesc
               (JsMap.values (fold_left (recordBest sims) rows JsMap.empty))))).
Proof.
  destruct (getFaceSearchConfig env) as [config |] eqn:Hcfg.
  2:{ unfold findSelfieMatches. rewrite Hcfg. eexists. split; [reflexivity | left; reflexivity]. }
  rewrite (findSelfieMatches_run rekognition getSignedUrl env config Hcfg).
  pose proof (providerSearch_db rekognition env config selfieBytes w) as Hdb.
  destruct (providerSearch rekognition env config selfieBytes w) as [[faceMatches | e] w']
    eqn:Hsearch.
  2:{ destruct (name_is e _); eexists; (split; [reflexivity | left; reflexivity]). }
  simpl in Hdb. cbv zeta. rewrite Hdb.
  destruct (Z.of_nat (List.length faceMatches) =? 0);
    [eexists; split; [reflexivity | left; reflexivity] |].
  destruct (Z.of_nat (List.length (JsMap.keys _)) =? 0);
    [eexists; split; [reflexivity | left; reflexivity] |].
  destruct (Z.of_nat (List.length (includePhoto _ _)) =? 0);
    [eexists; split; [reflexivity | left; reflexivity] |].
  eexists. split; [reflexivity |]. right. simpl matches.
  destruct (slice0_firstn
              (js_sort bySimilarityDesc
                 (JsMap.values
                    (fold_left
                       (recordBest (fold_left recordSimilarity faceMatches JsMap.empty))
                       (includePhoto
                          (selfieWhere eventId
                             (JsMap.keys (fold_left recordSimilarity faceMatches JsMap.empty)))
                          (db w))
                       JsMap.empty)))
              limit) as [n [Hslice Hn]].
  exists config, faceMatches, n. rewrite Hslice.
  split; [reflexivity |]. split; [rewrite Hsearch; reflexivity |].
  split; [exact Hn |]. reflexivity.
Qed.

End SelfieMatcherResults.

(** C4: a selfie search always returns a result in which no photo appears
    twice; every returned photo is a photo of the store that belongs to
    the requested event, is published and is uploaded; and its similarity
    was reported by the provider for a face handle that resolves to the
    photo, while no face handle that resolves to the photo was reported
    with a higher similarity.  Nothing is assumed about the provider's
    answer, which may repeat handles or name handles of other events. *)
Theorem findSelfieMatches_deduplicated
    rekognition getSignedUrl env eventId selfieBytes limit w :
  exists result,
    fst (findSelfieMatches rekognition getSignedUrl env eventId selfieBytes limit w) =
      Normal result /\
    NoDup (map (fun m => sp_id (photo m)) (matches result)) /\
    forall m, In m (matches result) ->
      sp_eventId (photo m) = eventId /\
      sp_status (photo m) = PUBLISHED /\
      (exists p url,
         In p (photos (db w)) /\ eligible eventId p /\ photo m = serializedWith url p) /\
      exists config faceMatches,
        getFaceSearchConfig env = Some config /\
        fst (providerSearch rekognition env config selfieBytes w) = Normal faceMatches /\
        (exists h, resolves (db w) h (sp_id (photo m)) /\
                   reported faceMatches h (similarity m)) /\
        (forall h s, resolves (db w) h (sp_id (photo m)) ->
                     reported faceMatches h s -> (s <= similarity m)%Q).
Proof.
  destruct (findSelfieMatches_matches rekognition getSignedUrl env eventId selfieBytes limit w)
    as [result [Hrun Hmatches]].
  exists result. split; [exact Hrun |].
  destruct Hmatches as [Hnil | [config [faceMatches [n [Hcfg [Hsearch [_ Hmatches]]]]]]].
  - rewrite Hnil. split; [constructor | intros m []].
  - cbv zeta in Hmatches. rewrite Hmatches. split.
    + rewrite map_map. simpl. rewrite <- firstn_map. apply NoDup_firstn.
      eapply Permutation_NoDup.
      * apply Permutation_map. apply Permutation_sym. apply stable_sort_Permutation.
      * apply best_ids_NoDup.
    + intros m Hm. apply in_map_iff in Hm. destruct Hm as [x [<- Hx]].
      apply In_firstn in Hx.
      apply (Permutation_in _ (stable_sort_Permutation _ _)) in Hx.
      destruct (best_entry_eligible faceMatches (db w) eventId x Hx) as [Hstored Heligible].
      destruct (best_entry_maximal faceMatches (db w) eventId x Hx) as [Hreported Hmaximal].
      simpl. split; [apply Heligible |]. split; [apply Heligible |]. split.
      * exists (best_photo x). eexists. split; [exact Hstored |]. split; [exact Heligible |].
        reflexivity.
      * exists config, faceMatches. auto.
Qed.

(** The scenario of the duplicate handle: [F1] is reported with 91.2 and
    with 87.0, and [P1] is returned once, with 91.2; the draft photo [P9]
    is not returned. *)
Example duplicate_handle_scenario :
  option_map
    (fun result => (search_status result,
                    map (fun m => (sp_id (photo m), similarity m)) (matches result)))
    (match fst (findSelfieMatches Sample.duplicate_handles Sample.getSignedUrl Sample.env
                  "E1" Sample.selfie 24 Sample.indexed_world) with
     | Normal result => Some result
     | Thrown _ => None
     end) =
  Some (SelfieSearchStatus.ok, [("P1", 912 # 10)]).
Proof. vm_compute. reflexivity. Qed.

(** ** Order and length of the match list *)

Lemma findMeQuerySchema_range limit parsed :
  findMeQuerySchema limit = Normal parsed -> 1 <= parsed <= 50.
Proof.
  unfold findMeQuerySchema.
  destruct (nullish limit (JsFinite 24)) as [| negative | q]; try discriminate.
  destruct (Pos.eqb (Qden (Qred q)) 1); simpl; [| discriminate].
  destruct (Qnum (Qred q) <? 1) eqn:Hlow; [discriminate |].
  destruct (50 <? Qnum (Qred q)) eqn:Hhigh; [discriminate |].
  intros [= <-]. apply Z.ltb_ge in Hlow, Hhigh. lia.
Qed.

Lemma findSelfieMatches_sorted rekognition getSignedUrl env eventId selfieBytes limit w :
  0 <= limit ->
  exists result,
    fst (findSelfieMatches rekognition getSignedUrl env eventId selfieBytes limit w) =
      Normal result /\
    descending (matches result) /\
    Z.of_nat (List.length (matches result)) <= limit.
Proof.
  intros Hlimit.
  destruct (findSelfieMatches_matches rekognition getSignedUrl env eventId selfieBytes limit w)
    as [result [Hrun Hmatches]].
  exists result. split; [exact Hrun |].
  destruct Hmatches as [Hnil | [config [faceMatches [n [_ [_ [Hn Hmatches]]]]]]].
  - rewrite Hnil. split; [constructor | simpl; lia].
  - cbv zeta in Hmatches. rewrite Hmatches. split.
    + unfold descending. apply StronglySorted_map. simpl.
      apply StronglySorted_firstn. apply js_sort_descending.
    + rewrite length_map. rewrite (Hn Hlimit).
      pose proof (firstn_le_length (Z.to_nat limit)
                    (js_sort bySimilarityDesc
                       (JsMap.values
                          (fold_left
                             (recordBest (fold_left recordSimilarity faceMatches JsMap.empty))
                             (includePhoto
                                (selfieWhere eventId
                                   (JsMap.keys
                                      (fold_left recordSimilarity faceMatches JsMap.empty)))
                                (db w))
                             JsMap.empty)))) as Hle.
      lia.
Qed.

(** C8: a limit accepted by the query schema of the find-me route lies
    between 1 and 50; with such a limit every selfie search returns a
    match list whose similarities do not increase from one entry to the
    next and whose length is at most the limit; and this is the list, with
    its count, that the route sends in its 200 answer. *)
Theorem find_me_sorted_and_bounded rekognition getSignedUrl env req w limit :
  findMeQuerySchema (query_limit req) = Normal limit ->
  1 <= limit <= 50 /\
  (forall eventId selfieBytes,
     exists result,
       fst (findSelfieMatches rekognition getSignedUrl env eventId selfieBytes limit w) =
         Normal result /\
       descending (matches result) /\
       Z.of_nat (List.length (matches result)) <= limit) /\
  (forall status found count message w',
     find_me rekognition getSignedUrl env req w =
     (Normal {| res_status := 200;
                res_body := json_find_me status found count message |}, w') ->
     descending found /\ count = Z.of_nat (List.length found) /\ count <= limit).
Proof.
  intros Hschema. pose proof (findMeQuerySchema_range _ _ Hschema) as Hrange.
  assert (Hsearch : forall eventId selfieBytes,
             exists result,
               fst (findSelfieMatches rekognition getSignedUrl env eventId selfieBytes limit w) =
                 Normal result /\
               descending (matches result) /\
               Z.of_nat (List.length (matches result)) <= limit).
  { intros eventId selfieBytes. apply findSelfieMatches_sorted. lia. }
  split; [exact Hrange |]. split; [exact Hsearch |].
  intros status found count message w' Hroute.
  unfold find_me, event_findUnique_slug in Hroute. rewrite Hschema in Hroute.
  unfold lift, bind, respond, ret, get_db in Hroute.
  destruct (parse_nonempty "eventSlug" (params_eventSlug req)) as [slug | e];
    [| discriminate].
  destruct (file req) as [f |]; [| discriminate].
  destruct (negb (startsWith "image/" (mimetype f))); [discriminate |].
  destruct (find _ (events (db w))) as [event |]; [| discriminate].
  destruct (Hsearch (event_id event) (buffer f)) as [result [Hrun [Hsorted Hlength]]].
  destruct (findSelfieMatches rekognition getSignedUrl env (event_id event) (buffer f) limit w)
    as [[result' | e] w''] eqn:Hfind; simpl in Hrun; [| discriminate].
  injection Hrun as ->.
  destruct (search_status result); try discriminate;
    injection Hroute as <- <- <- <- <-; auto.
Qed.

Lemma find_me_sorted_and_bounded_witness :
  1 <= 24 <= 50.
Proof.
  refine (proj1 (find_me_sorted_and_bounded Sample.duplicate_handles Sample.getSignedUrl
                   Sample.env
                   {| params_eventSlug := "gala"; query_limit := None; file := None |}
                   Sample.indexed_world 24 _)).
  reflexivity.
Defined.

(** ** The statuses of a search without matches *)

Lemma keys_empty_iff faceMatches :
  JsMap.keys (fold_left recordSimilarity faceMatches JsMap.empty) = [] <->
  forall h, ~ usableHandle faceMatches h.
Proof.
  split.
  - intros Hnil h Hh. apply keys_usable in Hh. rewrite Hnil in Hh. destruct Hh.
  - intros Hnone.
    destruct (JsMap.keys (fold_left recordSimilarity faceMatches JsMap.empty))
      as [| k rest] eqn:Hkeys; [reflexivity |].
    exfalso. apply (Hnone k). apply keys_usable. rewrite Hkeys. left. reflexivity.
Qed.

Lemma rows_empty_iff faceMatches d eventId :
  includePhoto
    (selfieWhere eventId (JsMap.keys (fold_left recordSimilarity faceMatches JsMap.empty)))
    d = [] <->
  forall f, In f (faceEmbeddings d) -> usableHandle faceMatches (fe_externalId f) ->
            ~ eligibleRecord d eventId f.
Proof.
  split.
  - intros Hnil f Hf Husable [Hprov [p [Hfind Heligible]]].
    assert (Hrow : In (f, p)
                     (includePhoto
                        (selfieWhere eventId
                           (JsMap.keys (fold_left recordSimilarity faceMatches JsMap.empty)))
                        d)).
    { apply selfie_row. split; [exact Hf |]. split; [exact Hfind |].
      split; [exact Hprov |]. split; [apply keys_usable; exact Husable | exact Heligible]. }
    rewrite Hnil in Hrow. destruct Hrow.
  - intros Hnone.
    destruct (includePhoto _ d) as [| [f p] rest] eqn:Hrows; [reflexivity |].
    exfalso.
    assert (Hrow : In (f, p)
                     (includePhoto
                        (selfieWhere eventId
                           (JsMap.keys (fold_left recordSimilarity faceMatches JsMap.empty)))
                        d))
      by (rewrite Hrows; left; reflexivity).
    apply selfie_row in Hrow. destruct Hrow as [Hf [Hfind [Hprov [Hkey Heligible]]]].
    apply (Hnone f Hf); [apply keys_usable; exact Hkey |].
    split; [exact Hprov |]. exists p. auto.
Qed.

(** C6 (as amended): with face search configured, the status is
    no_face_detected exactly when a provider call of the search raises an
    error named InvalidParameterException, or the provider answers with a
    non-empty match list in which no handle is usable (no entry has a
    non-empty face id with a positive similarity); and it is no_matches
    exactly when the provider answers with an empty match list, or with
    usable handles none of which belongs to a FaceRecord of an uploaded,
    published photo of the event. *)
Theorem selfie_status_without_matches
    rekognition getSignedUrl env config eventId selfieBytes limit w :
  getFaceSearchConfig env = Some config ->
  exists result,
    fst (findSelfieMatches rekognition getSignedUrl env eventId selfieBytes limit w) =
      Normal result /\
    (search_status result = SelfieSearchStatus.no_face_detected <->
     (exists error,
        fst (providerSearch rekognition env config selfieBytes w) = Thrown error /\
        err_name error = Some "InvalidParameterException") \/
     (exists faceMatches,
        fst (providerSearch rekognition env config selfieBytes w) = Normal faceMatches /\
        faceMatches <> [] /\
        forall h, ~ usableHandle faceMatches h)) /\
    (search_status result = SelfieSearchStatus.no_matches <->
     exists faceMatches,
       fst (providerSearch rekognition env config selfieBytes w) = Normal faceMatches /\
       (faceMatches = [] \/
        ((exists h, usableHandle faceMatches h) /\
         forall f, In f (faceEmbeddings (db w)) ->
                   usableHandle faceMatches (fe_externalId f) ->
                   ~ eligibleRecord (db w) eventId f))).
Proof.
  intros Hcfg.
  rewrite (findSelfieMatches_run rekognition getSignedUrl env config Hcfg).
  pose proof (providerSearch_db rekognition env config selfieBytes w) as Hdb.
  destruct (providerSearch rekognition env config selfieBytes w) as [[faceMatches | e] w'];
    simpl in Hdb; simpl fst.
  - cbv zeta. rewrite Hdb.
    pose proof (length_zero faceMatches) as Hmatches.
    pose proof (length_zero
                  (JsMap.keys (fold_left recordSimilarity faceMatches JsMap.empty))) as Hkeys.
    pose proof (length_zero
                  (includePhoto
                     (selfieWhere eventId
                        (JsMap.keys (fold_left recordSimilarity faceMatches JsMap.empty)))
                     (db w))) as Hrows.
    rewrite keys_empty_iff in Hkeys. rewrite rows_empty_iff in Hrows.
    destruct (Z.of_nat (List.length faceMatches) =? 0).
    { eexists. split; [reflexivity |]. simpl. split.
      - split; [discriminate |]. intros Hcase. exfalso.
        destruct Hcase as [[error [H _]] | [fm [H [Hne _]]]]; [discriminate |].
        injection H as <-. apply Hne. apply Hmatches. reflexivity.
      - split; [| reflexivity]. intros _. exists faceMatches.
        split; [reflexivity |]. left. apply Hmatches. reflexivity. }
    assert (Hnonempty : faceMatches <> [])
      by (intros H; apply Hmatches in H; discriminate).
    destruct (Z.of_nat (List.length (JsMap.keys _)) =? 0).
    { pose proof (proj1 Hkeys eq_refl) as Hnone.
      eexists. split; [reflexivity |]. simpl. split.
      - split; [| reflexivity]. intros _. right. exists faceMatches. auto.
      - split; [discriminate |]. intros Hcase. exfalso.
        destruct Hcase as [fm [H [Hnil | [[h Hh] _]]]]; injection H as <-.
        + contradiction.
        + exact (Hnone h Hh). }
    assert (Husable : exists h, usableHandle faceMatches h).
    { destruct (JsMap.keys (fold_left recordSimilarity faceMatches JsMap.empty))
        as [| k rest] eqn:Hk.
      - exfalso. assert (Hall : forall h, ~ usableHandle faceMatches h).
        { intros h Hh. apply keys_usable in Hh. rewrite Hk in Hh. destruct Hh. }
        apply Hkeys in Hall. discriminate.
      - exists k. apply keys_usable. rewrite Hk. left. reflexivity. }
    destruct Husable as [k Hk].
    destruct (Z.of_nat (List.length (includePhoto _ _)) =? 0).
    { pose proof (proj1 Hrows eq_refl) as Hnone.
      eexists. split; [reflexivity |]. simpl. split.
      - split; [discriminate |]. intros Hcase. exfalso.
        destruct Hcase as [[error [H _]] | [fm [H [_ Hall]]]]; [discriminate |].
        injection H as <-. exact (Hall k Hk).
      - split; [| reflexivity]. intros _. exists faceMatches.
        split; [reflexivity |]. right. split; [exists k; exact Hk | exact Hnone]. }
    eexists. split; [reflexivity |]. simpl. split.
    + split; [discriminate |]. intros Hcase. exfalso.
      destruct Hcase as [[error [H _]] | [fm [H [_ Hall]]]]; [discriminate |].
      injection H as <-. exact (Hall k Hk).
    + split; [discriminate |]. intros Hcase. exfalso.
      destruct Hcase as [fm [H [Hnil | [_ Hall]]]]; injection H as <-.
      * contradiction.
      * apply Hrows in Hall. discriminate.
  - destruct (name_is e "InvalidParameterException") eqn:Hname.
    + eexists. split; [reflexivity |]. simpl. split.
      * split; [| reflexivity]. intros _. left. exists e.
        split; [reflexivity | apply name_is_true; exact Hname].
      * split; [discriminate |]. intros [fm [H _]]. discriminate.
    + eexists. split; [reflexivity |]. simpl. split.
      * split; [discriminate |]. intros Hcase. exfalso.
        destruct Hcase as [[error [H Herror]] | [fm [H _]]]; [| discriminate].
        injection H as <-. apply name_is_true in Herror. congruence.
      * split; [discriminate |]. intros [fm [H _]]. discriminate.
Qed.

Lemma selfie_status_without_matches_witness :
  exists result,
    fst (findSelfieMatches Sample.faceless_match Sample.getSignedUrl Sample.env "E1"
           Sample.selfie 24 Sample.indexed_world) = Normal result.
Proof.
  destruct (selfie_status_without_matches Sample.faceless_match Sample.getSignedUrl
              Sample.env Sample.config "E1" Sample.selfie 24 Sample.indexed_world eq_refl)
    as [result [Hrun _]].
  exists result. exact Hrun.
Defined.

(** C6 (as stated) fails: the provider answers the search normally, with
    one match that carries no face, so it signals no invalid parameter;
    the status is no_face_detected all the same. *)
Lemma no_face_without_provider_signal :
  fst (providerSearch Sample.faceless_match Sample.env Sample.config Sample.selfie
         Sample.indexed_world) =
    Normal [{| Similarity := Some (900 # 10); match_Face := None |}] /\
  fst (findSelfieMatches Sample.faceless_match Sample.getSignedUrl Sample.env "E1"
         Sample.selfie 24 Sample.indexed_world) =
    Normal {| search_status := SelfieSearchStatus.no_face_detected;
              matches := [];
              search_message := Some "No face detected in the selfie." |}.
Proof. split; vm_compute; reflexivity. Qed.

(** * Further properties of the code *)

(** ** The webhook handler *)


(** The world after the handler is the world before, or the result of one
    of the two reconciliation updates for the session of a verified
    event. *)
Lemma stripeWebhookHandler_world constructEvent env req w :
  snd (stripeWebhookHandler constructEvent env req w) = w \/
  exists signature payload event,
    header_stripe_signature req = Some signature /\
    webhook_body req = Some payload /\
    constructStripeEvent constructEvent env payload signature = Normal event /\
    (snd (stripeWebhookHandler constructEvent env req w) =
       snd (markPurchasePaid (event_data_object event) w) \/
     snd (stripeWebhookHandler constructEvent env req w) =
       snd (markPurchaseFailed (event_data_object event) w)).
Proof.
  unfold stripeWebhookHandler.
  destruct (header_stripe_signature req) as [signature |]; [| left; reflexivity].
  destruct (truthy signature); simpl; [| left; reflexivity].
  destruct (webhook_body req) as [payload |]; [| left; reflexivity].
  destruct (constructStripeEvent constructEvent env payload signature) as [event | e] eqn:Hev;
    [| left; reflexivity].
  unfold bind, respond, ret.
  destruct (orb _ _).
  - right. exists signature, payload, event. do 2 (split; [reflexivity |]).
    split; [exact Hev |]. left.
    unfold markPurchasePaid. rewrite purchase_updateMany_run. reflexivity.
  - destruct (orb _ _); [| left; reflexivity].
    right. exists signature, payload, event. do 2 (split; [reflexivity |]).
    split; [exact Hev |]. right.
    rewrite markPurchaseFailed_run. reflexivity.
Qed.

(** An [updateMany] on purchases whose [data] keeps the session id: the
    row at each position is kept, or is a row of the matched session that
    [data] rewrote. *)
Lemma purchase_updateMany_rows where_ data w n p :
  nth_error (purchases (db w)) n = Some p ->
  nth_error (purchases (db (snd (purchase_updateMany where_ data w)))) n =
  Some (if where_ p then data p else p).
Proof.
  intros Hn. rewrite purchase_updateMany_run. simpl. rewrite nth_error_map, Hn. reflexivity.
Qed.

(** X2: the webhook handler never adds or removes a purchase and never
    touches another table, the ready flag or the command log; a purchase
    row either stays exactly as it was or belongs to the session of the
    verified event, and then keeps its id, event, session id, amount,
    currency, payout state and creation time. *)
Theorem stripeWebhookHandler_frame constructEvent env req w :
  let w' := snd (stripeWebhookHandler constructEvent env req w) in
  events (db w') = events (db w) /\
  photos (db w') = photos (db w) /\
  faceEmbeddings (db w') = faceEmbeddings (db w) /\
  purchaseItems (db w') = purchaseItems (db w) /\
  collectionReady w' = collectionReady w /\
  sent w' = sent w /\
  List.length (purchases (db w')) = List.length (purchases (db w)) /\
  forall n p,
    nth_error (purchases (db w)) n = Some p ->
    exists p',
      nth_error (purchases (db w')) n = Some p' /\
      purchase_id p' = purchase_id p /\
      purchase_eventId p' = purchase_eventId p /\
      purchase_stripeSessionId p' = purchase_stripeSessionId p /\
      purchase_amountTotal p' = purchase_amountTotal p /\
      purchase_currency p' = purchase_currency p /\
      purchase_payoutStatus p' = purchase_payoutStatus p /\
      purchase_createdAt p' = purchase_createdAt p /\
      (p' = p \/
       exists signature payload event,
         header_stripe_signature req = Some signature /\
         webhook_body req = Some payload /\
         constructStripeEvent constructEvent env payload signature = Normal event /\
         purchase_stripeSessionId p = session_id (event_data_object event)).
Proof.
  intros w'. subst w'.
  destruct (stripeWebhookHandler_world constructEvent env req w)
    as [-> | [signature [payload [event [Hsig [Hbody [Hev [-> | ->]]]]]]]].
  - repeat (split; [reflexivity |]). intros n p Hn. exists p. repeat (split; [auto |]). auto.
  - unfold markPurchasePaid. rewrite purchase_updateMany_run. simpl.
    repeat (split; [reflexivity |]). split; [apply length_map |].
    intros n p Hn. rewrite nth_error_map, Hn. simpl.
    destruct (purchase_stripeSessionId p === session_id (event_data_object event)) eqn:Heq.
    + eexists. split; [reflexivity |]. simpl. repeat (split; [reflexivity |]).
      right. exists signature, payload, event. apply String.eqb_eq in Heq. auto.
    + exists p. repeat (split; [auto |]). auto.
  - rewrite markPurchaseFailed_run. simpl.
    repeat (split; [reflexivity |]). split; [apply length_map |].
    intros n p Hn. rewrite nth_error_map, Hn. simpl.
    destruct (purchase_stripeSessionId p === session_id (event_data_object event)) eqn:Heq;
      simpl.
    + destruct (PurchaseStatus_eqb (purchase_status p) PENDING).
      * eexists. split; [reflexivity |]. simpl. repeat (split; [reflexivity |]).
        right. exists signature, payload, event. apply String.eqb_eq in Heq. auto.
      * exists p. repeat (split; [auto |]). auto.
    + exists p. repeat (split; [auto |]). auto.
Qed.





(** ** The face index and the matcher, whatever the provider does *)

(** X4: the similarity threshold sent to the provider always lies between 0
    and 100; it is 80 when the variable is unset or is not a finite number,
    and it is the configured number itself when that lies in the range. *)
Theorem getMatchThreshold_clamped env :
  (0 <= getMatchThreshold env <= 100)%Q /\
  (FACE_MATCH_THRESHOLD env = None -> getMatchThreshold env = 80%Q) /\
  (forall negative, FACE_MATCH_THRESHOLD env = Some (JsInfinity negative) ->
                    getMatchThreshold env = 80%Q) /\
  (FACE_MATCH_THRESHOLD env = Some JsNaN -> getMatchThreshold env = 80%Q) /\
  (forall q, FACE_MATCH_THRESHOLD env = Some (JsFinite q) ->
             (0 <= q <= 100)%Q -> (getMatchThreshold env == q)%Q) /\
  (forall q, FACE_MATCH_THRESHOLD env = Some (JsFinite q) ->
             (q <= 0)%Q -> (getMatchThreshold env == 0)%Q) /\
  (forall q, FACE_MATCH_THRESHOLD env = Some (JsFinite q) ->
             (100 <= q)%Q -> (getMatchThreshold env == 100)%Q).
Proof.
  unfold getMatchThreshold. split.
  - destruct (nullish (FACE_MATCH_THRESHOLD env) (JsFinite 80)) as [| negative | q].
    + split; discriminate.
    + split; discriminate.
    + split; [apply Q.le_max_l |].
      apply Q.max_lub; [discriminate | apply Q.le_min_l].
  - split; [intros ->; reflexivity |].
    split; [intros negative ->; reflexivity |].
    split; [intros ->; reflexivity |].
    split; [| split].
    + intros q -> [Hlow Hhigh]. simpl.
      rewrite (Q.min_r 100 q Hhigh). apply Q.max_r. exact Hlow.
    + intros q -> Hlow. simpl.
      apply Q.max_l. eapply Qle_trans; [apply Q.le_min_r | exact Hlow].
    + intros q -> Hhigh. simpl.
      rewrite (Q.min_l 100 q Hhigh). apply Q.max_r. discriminate.
Qed.

(** X5: a selfie search never throws and never writes to the store; when face
    search is not configured it answers disabled without sending a command
    to the provider. *)
Theorem findSelfieMatches_reads_only
    rekognition getSignedUrl env eventId selfieBytes limit w :
  exists result w',
    findSelfieMatches rekognition getSignedUrl env eventId selfieBytes limit w =
      (Normal result, w') /\
    db w' = db w /\
    (getFaceSearchConfig env = None ->
     w' = w /\ search_status result = SelfieSearchStatus.disabled /\ matches result = []).
Proof.
  destruct (getFaceSearchConfig env) as [config |] eqn:Hcfg.
  - rewrite (findSelfieMatches_run rekognition getSignedUrl env config Hcfg).
    pose proof (providerSearch_db rekognition env config selfieBytes w) as Hdb.
    destruct (providerSearch rekognition env config selfieBytes w) as [[faceMatches | e] w'];
      simpl in Hdb; do 2 eexists; (split; [reflexivity |]); (split; [exact Hdb |]);
      discriminate.
  - unfold findSelfieMatches. rewrite Hcfg. do 2 eexists.
    split; [reflexivity |]. split; [reflexivity |]. intros _. auto.
Qed.

(** X6: the collection is ensured once: [ensureCollection] sends at most two
    commands, and after it has returned normally a further call returns
    normally without sending anything. *)
Theorem ensureCollection_cached rekognition config w :
  let w' := snd (ensureCollection rekognition config w) in
  db w' = db w /\
  (exists commands, sent w' = sent w ++ commands /\ (List.length commands <= 2)%nat) /\
  (collectionReady w = true -> ensureCollection rekognition config w = (Normal tt, w)) /\
  (fst (ensureCollection rekognition config w) = Normal tt ->
   ensureCollection rekognition config w' = (Normal tt, w')).
Proof.
  intros w'. subst w'.
  destruct (ensureCollection_effect rekognition config w) as [Hdb Hready].
  split; [exact Hdb |]. split; [| split].
  - unfold ensureCollection, get_collectionReady, set_collectionReady, try_catch, bind, ret,
      throw, send.
    destruct (collectionReady w); simpl.
    + exists []. rewrite app_nil_r. split; [reflexivity | simpl; lia].
    + destruct (rekognition (sent w) (DescribeCollectionCommand (collectionId config)))
        as [r | e]; simpl.
      * eexists. split; [reflexivity | simpl; lia].
      * destruct (name_is e "ResourceNotFoundException"); simpl.
        -- destruct (rekognition _ (CreateCollectionCommand (collectionId config)));
             simpl; rewrite <- app_assoc; eexists; (split; [reflexivity | simpl; lia]).
        -- eexists. split; [reflexivity | simpl; lia].
  - apply ensureCollection_when_ready.
  - intros Hok. apply ensureCollection_when_ready. apply Hready. exact Hok.
Qed.

Lemma clearExistingPhotoFaces_effect rekognition env photoId w :
  exists w',
    clearExistingPhotoFaces rekognition env photoId w = (Normal tt, w') /\
    db w' =
      with_faceEmbeddings
        (filter (fun f => negb (andb (fe_photoId f === photoId)
                                  (fe_provider f === FACE_PROVIDER)))
           (faceEmbeddings (db w)))
        (db w) /\
    faceRecordsOf photoId (db w') = [] /\
    collectionReady w' = collectionReady w /\
    (sent w' = sent w \/
     exists config,
       getFaceSearchConfig env = Some config /\
       faceRecordsOf photoId (db w) <> [] /\
       sent w' =
       sent w ++ [DeleteFacesCommand (collectionId config)
                    (map fe_externalId (faceRecordsOf photoId (db w)))]).
Proof.
  unfold clearExistingPhotoFaces, faceEmbedding_findMany, faceEmbedding_deleteMany.
  fold (faceRecordsOf photoId (db w)).
  assert (Hnone : forall d,
             faceRecordsOf photoId
               (with_faceEmbeddings
                  (filter (fun f => negb (andb (fe_photoId f === photoId)
                                            (fe_provider f === FACE_PROVIDER)))
                     (faceEmbeddings d)) d) = []).
  { intros d. unfold faceRecordsOf. simpl.
    apply (filter_after_removal
             (fun f => andb (fe_photoId f === photoId) (fe_provider f === FACE_PROVIDER))). }
  unfold try_catch, bind, ret, get_db, put_db, send. simpl.
  fold (faceRecordsOf photoId (db w)).
  destruct (getFaceSearchConfig env) as [config |] eqn:Hcfg.
  - destruct (0 <? Z.of_nat (List.length (map fe_externalId (faceRecordsOf photoId (db w)))))
      eqn:Hlen; simpl.
    + assert (Hne : faceRecordsOf photoId (db w) <> []).
      { intros Hnil. rewrite Hnil in Hlen. discriminate. }
      destruct (rekognition (sent w) _) as [r | e]; simpl; eexists;
        (split; [reflexivity |]); (split; [reflexivity |]); (split; [apply Hnone |]);
        (split; [reflexivity |]); right; exists config; auto.
    + eexists. split; [reflexivity |]. split; [reflexivity |]. split; [apply Hnone |].
      split; [reflexivity |]. left. reflexivity.
  - simpl. eexists. split; [reflexivity |]. split; [reflexivity |]. split; [apply Hnone |].
    split; [reflexivity |]. left. reflexivity.
Qed.


Lemma faceRecordsOf_cleared photoId d l :
  faceEmbeddings d =
    filter (fun f => negb (andb (fe_photoId f === photoId) (fe_provider f === FACE_PROVIDER))) l ->
  faceRecordsOf photoId d = [].
Proof.
  intros Hd. unfold faceRecordsOf. rewrite Hd.
  apply (filter_after_removal
           (fun f => andb (fe_photoId f === photoId) (fe_provider f === FACE_PROVIDER))).
Qed.

Lemma others_after_removal {A : Type} (f : A -> bool) (l : list A) :
  filter (fun x => negb (f x)) (filter (fun x => negb (f x)) l) =
  filter (fun x => negb (f x)) l.
Proof.
  induction l as [| a l IH]; simpl; [reflexivity |].
  destruct (f a) eqn:Hf; simpl; [exact IH |]. rewrite Hf. simpl. rewrite IH. reflexivity.
Qed.

Lemma indexPhotoFace_effect rekognition env p w :
  exists result w',
    indexPhotoFace rekognition env p w = (Normal result, w') /\
    events (db w') = events (db w) /\
    photos (db w') = photos (db w) /\
    purchases (db w') = purchases (db w) /\
    purchaseItems (db w') = purchaseItems (db w) /\
    filter (fun f => negb (andb (fe_photoId f === photo_id p)
                             (fe_provider f === FACE_PROVIDER)))
      (faceEmbeddings (db w')) =
    filter (fun f => negb (andb (fe_photoId f === photo_id p)
                             (fe_provider f === FACE_PROVIDER)))
      (faceEmbeddings (db w)) /\
    match index_status result with
    | FaceIndexStatus.indexed =>
        exists faceId confidence,
          faceId <> "" /\
          faceRecordsOf (photo_id p) (db w') =
          [{| fe_photoId := photo_id p;
              fe_provider := FACE_PROVIDER;
              fe_externalId := faceId;
              fe_confidence := confidence |}]
    | FaceIndexStatus.no_face_detected => faceRecordsOf (photo_id p) (db w') = []
    | FaceIndexStatus.disabled => w' = w /\ getFaceSearchConfig env = None
    | FaceIndexStatus.error => faceRecordsOf (photo_id p) (db w') = [] \/ db w' = db w
    end.
Proof.
  unfold indexPhotoFace.
  destruct (getFaceSearchConfig env) as [config |] eqn:Hcfg.
  2:{ do 2 eexists. split; [reflexivity |]. repeat (split; [reflexivity |]). simpl. auto. }
  unfold try_catch. unfold bind at 1.
  destruct (ensureCollection_effect rekognition config w) as [Hdb _].
  destruct (ensureCollection rekognition config w) as [[[] | e] wa]; simpl in Hdb.
  2:{ do 2 eexists. split; [reflexivity |]. rewrite Hdb.
      repeat (split; [reflexivity |]). simpl. right. reflexivity. }
  unfold bind at 1.
  destruct (clearExistingPhotoFaces_effect rekognition env (photo_id p) wa)
    as [wb [Hclear [Hdbb [Hnone _]]]].
  rewrite Hclear.
  assert (Hframe : forall wc,
             db wc = db wb ->
             events (db wc) = events (db w) /\
             photos (db wc) = photos (db w) /\
             purchases (db wc) = purchases (db w) /\
             purchaseItems (db wc) = purchaseItems (db w) /\
             filter (fun f => negb (andb (fe_photoId f === photo_id p)
                                      (fe_provider f === FACE_PROVIDER)))
               (faceEmbeddings (db wc)) =
             filter (fun f => negb (andb (fe_photoId f === photo_id p)
                                      (fe_provider f === FACE_PROVIDER)))
               (faceEmbeddings (db w)) /\
             faceRecordsOf (photo_id p) (db wc) = []).
  { intros wc Hwc. rewrite Hwc, Hdbb, Hdb. simpl.
    repeat (split; [reflexivity |]). split.
    - apply (others_after_removal
               (fun f => andb (fe_photoId f === photo_id p) (fe_provider f === FACE_PROVIDER))).
    - rewrite <- Hdb, <- Hdbb. exact Hnone. }
  unfold bind at 1. rewrite send_run.
  set (wc := {| db := db wb; collectionReady := collectionReady wb;
                sent := sent wb ++ _ |}).
  assert (Hwc : db wc = db wb) by reflexivity.
  destruct (rekognition (sent wb) _) as [response | e].
  2:{ destruct (Hframe wc Hwc) as [H1 [H2 [H3 [H4 [H5 H6]]]]].
      do 2 eexists. split; [reflexivity |]. repeat (split; [assumption |]).
      simpl. left. exact H6. }
  assert (Hnoface :
            exists result w',
              (Normal {| index_status := FaceIndexStatus.no_face_detected;
                         index_message := Some "No clear face detected in this photo." |},
               wc) = (Normal result, w') /\
              events (db w') = events (db w) /\
              photos (db w') = photos (db w) /\
              purchases (db w') = purchases (db w) /\
              purchaseItems (db w') = purchaseItems (db w) /\
              filter (fun f => negb (andb (fe_photoId f === photo_id p)
                                       (fe_provider f === FACE_PROVIDER)))
                (faceEmbeddings (db w')) =
              filter (fun f => negb (andb (fe_photoId f === photo_id p)
                                       (fe_provider f === FACE_PROVIDER)))
                (faceEmbeddings (db w)) /\
              match index_status result with
              | FaceIndexStatus.indexed =>
                  exists faceId confidence,
                    faceId <> "" /\
                    faceRecordsOf (photo_id p) (db w') =
                    [{| fe_photoId := photo_id p;
                        fe_provider := FACE_PROVIDER;
                        fe_externalId := faceId;
                        fe_confidence := confidence |}]
              | FaceIndexStatus.no_face_detected => faceRecordsOf (photo_id p) (db w') = []
              | FaceIndexStatus.disabled => w' = w /\ Some config = None
              | FaceIndexStatus.error =>
                  faceRecordsOf (photo_id p) (db w') = [] \/ db w' = db w
              end).
  { destruct (Hframe wc Hwc) as [H1 [H2 [H3 [H4 [H5 H6]]]]].
    do 2 eexists. split; [reflexivity |]. repeat (split; [assumption |]). exact H6. }
  destruct (nullish (response_FaceRecords response) []) as [| record rest]; [exact Hnoface |].
  destruct (record_Face record) as [face |]; [| exact Hnoface].
  destruct (FaceId face) as [faceId |]; [| exact Hnoface].
  destruct (truthy faceId) eqn:Htruthy; [| exact Hnoface].
  clear Hnoface. apply truthy_true in Htruthy. cbn [negb].
  unfold bind at 1.
  assert (Hcreate : forall wd,
             db wd = db wb ->
             exists result w',
               (let (c, w'0) :=
                  faceEmbedding_create
                    {| fe_photoId := photo_id p;
                       fe_provider := FACE_PROVIDER;
                       fe_externalId := faceId;
                       fe_confidence := Confidence face |} wd in
                match c with
                | Normal _ =>
                    ret {| index_status := FaceIndexStatus.indexed; index_message := None |}
                      w'0
                | Thrown e => (Thrown e, w'0)
                end) = (result, w') /\
               match result with
               | Normal r => r = {| index_status := FaceIndexStatus.indexed;
                                    index_message := None |} /\
                             db w' =
                             with_faceEmbeddings
                               (faceEmbeddings (db wd) ++
                                [{| fe_photoId := photo_id p;
                                    fe_provider := FACE_PROVIDER;
                                    fe_externalId := faceId;
                                    fe_confidence := Confidence face |}])
                               (db wd)
               | Thrown _ => db w' = db wd
               end).
  { intros wd Hwd. unfold faceEmbedding_create, bind, get_db, put_db, throw, ret.
    destruct (negb (existsb _ (photos (db wd)))); [do 2 eexists; split; reflexivity |].
    destruct (existsb _ (faceEmbeddings (db wd))); do 2 eexists; split; try reflexivity.
    simpl. auto. }
  assert (Hfinish : forall wd,
             db wd = db wb ->
             exists result w',
               (let (c, w'0) :=
                  (let (c, w'0) :=
                     faceEmbedding_create
                       {| fe_photoId := photo_id p;
                          fe_provider := FACE_PROVIDER;
                          fe_externalId := faceId;
                          fe_confidence := Confidence face |} wd in
                   match c with
                   | Normal _ =>
                       ret {| index_status := FaceIndexStatus.indexed;
                              index_message := None |} w'0
                   | Thrown e => (Thrown e, w'0)
                   end) in
                match c with
                | Normal a => (Normal a, w'0)
                | Thrown e =>
                    ret {| index_status := FaceIndexStatus.error;
                           index_message :=
                             Some (if err_is_Error e then err_message e
                                   else "Unable to index face.") |} w'0
                end) = (Normal result, w') /\
               events (db w') = events (db w) /\
               photos (db w') = photos (db w) /\
               purchases (db w') = purchases (db w) /\
               purchaseItems (db w') = purchaseItems (db w) /\
               filter (fun f => negb (andb (fe_photoId f === photo_id p)
                                        (fe_provider f === FACE_PROVIDER)))
                 (faceEmbeddings (db w')) =
               filter (fun f => negb (andb (fe_photoId f === photo_id p)
                                        (fe_provider f === FACE_PROVIDER)))
                 (faceEmbeddings (db w)) /\
               match index_status result with
               | FaceIndexStatus.indexed =>
                   exists faceId confidence,
                     faceId <> "" /\
                     faceRecordsOf (photo_id p) (db w') =
                     [{| fe_photoId := photo_id p;
                         fe_provider := FACE_PROVIDER;
                         fe_externalId := faceId;
                         fe_confidence := confidence |}]
               | FaceIndexStatus.no_face_detected => faceRecordsOf (photo_id p) (db w') = []
               | FaceIndexStatus.disabled => w' = w /\ Some config = None
               | FaceIndexStatus.error =>
                   faceRecordsOf (photo_id p) (db w') = [] \/ db w' = db w
               end).
  { intros wd Hwd. destruct (Hcreate wd Hwd) as [result [w' [Hrun Hresult]]].
    rewrite Hrun. destruct (Hframe wd Hwd) as [H1 [H2 [H3 [H4 [H5 H6]]]]].
    destruct result as [r | e].
    - destruct Hresult as [-> Hdb']. do 2 eexists. split; [reflexivity |].
      rewrite Hdb'. simpl. repeat (split; [assumption |]). split.
      + rewrite filter_app. simpl. rewrite !String.eqb_refl. simpl.
        rewrite app_nil_r. exact H5.
      + exists faceId, (Confidence face). split; [exact Htruthy |].
        unfold faceRecordsOf in *. simpl. rewrite filter_app, H6. simpl.
        rewrite !String.eqb_refl. reflexivity.
    - do 2 eexists. split; [reflexivity |]. rewrite Hresult.
      repeat (split; [assumption |]). simpl. left. exact H6. }
  destruct (1 <? Z.of_nat (List.length (record :: rest))).
  - destruct (0 <? Z.of_nat (List.length (filter truthy _))).
    + unfold bind at 1. rewrite send_run.
      destruct (rekognition _ (DeleteFacesCommand _ _)) as [r | e].
      * unfold ret at 1. apply Hfinish. reflexivity.
      * destruct (Hframe wc Hwc) as [H1 [H2 [H3 [H4 [H5 H6]]]]].
        do 2 eexists. split; [reflexivity |]. simpl db.
        repeat (split; [assumption |]). simpl. left. exact H6.
    + unfold ret at 1. apply Hfinish. reflexivity.
  - unfold ret at 1. apply Hfinish. reflexivity.
Qed.

(** X8: what one run of [indexPhotoFace] can do, whatever the provider and the
    store: it returns a result, leaves the tables other than the
    FaceRecords and the FaceRecords of other photos alone, and its status
    tells how many FaceRecords the photo has. *)
Theorem indexPhotoFace_postcondition rekognition env p w :
  exists result w',
    indexPhotoFace rekognition env p w = (Normal result, w') /\
    events (db w') = events (db w) /\
    photos (db w') = photos (db w) /\
    purchases (db w') = purchases (db w) /\
    purchaseItems (db w') = purchaseItems (db w) /\
    filter (fun f => negb (andb (fe_photoId f === photo_id p)
                             (fe_provider f === FACE_PROVIDER)))
      (faceEmbeddings (db w')) =
    filter (fun f => negb (andb (fe_photoId f === photo_id p)
                             (fe_provider f === FACE_PROVIDER)))
      (faceEmbeddings (db w)) /\
    match index_status result with
    | FaceIndexStatus.indexed =>
        exists faceId confidence,
          faceId <> "" /\
          faceRecordsOf (photo_id p) (db w') =
          [{| fe_photoId := photo_id p;
              fe_provider := FACE_PROVIDER;
              fe_externalId := faceId;
              fe_confidence := confidence |}]
    | FaceIndexStatus.no_face_detected => faceRecordsOf (photo_id p) (db w') = []
    | FaceIndexStatus.disabled => w' = w /\ getFaceSearchConfig env = None
    | FaceIndexStatus.error => faceRecordsOf (photo_id p) (db w') = [] \/ db w' = db w
    end.
Proof.
  exact (indexPhotoFace_effect rekognition env p w).
Qed.

(** X9: when the provider reports several faces and its deletions succeed,
    [indexPhotoFace] keeps the first face: it answers indexed, the photo
    has exactly the FaceRecord of the first face, and the last commands
    sent are the indexing and then one deletion that names exactly the
    non-empty face ids of the other records (no deletion when there are
    none). *)
Theorem indexPhotoFace_keeps_first_face
    rekognition env config p w response faceId confidence :
  getFaceSearchConfig env = Some config ->
  fst (ensureCollection rekognition config w) = Normal tt ->
  existsb (fun q => photo_id q === photo_id p) (photos (db w)) = true ->
  (forall history, rekognition history (indexCommand config p) = Normal response) ->
  (forall history ids,
     exists r, rekognition history (DeleteFacesCommand (collectionId config) ids) = Normal r) ->
  keptFace (nullish (response_FaceRecords response) []) = Some (faceId, confidence) ->
  (forall f, In f (faceEmbeddings (db w)) -> fe_provider f = FACE_PROVIDER ->
             fe_externalId f = faceId -> fe_photoId f = photo_id p) ->
  exists w',
    indexPhotoFace rekognition env p w =
      (Normal {| index_status := FaceIndexStatus.indexed; index_message := None |}, w') /\
    faceRecordsOf (photo_id p) (db w') =
      [{| fe_photoId := photo_id p;
          fe_provider := FACE_PROVIDER;
          fe_externalId := faceId;
          fe_confidence := confidence |}] /\
    exists before,
      sent w' =
      before ++
      indexCommand config p ::
      match extraFaceIds (nullish (response_FaceRecords response) []) with
      | [] => []
      | ids => [DeleteFacesCommand (collectionId config) ids]
      end.
Proof.
  intros Hcfg Hensure Hrow Hanswer Hdelete Hkept Hfresh.
  destruct (ensureCollection_effect rekognition config w) as [Hdb _].
  destruct (ensureCollection rekognition config w) as [c wa] eqn:Hrun.
  simpl in Hensure, Hdb. subst c.
  destruct (clearExistingPhotoFaces_run rekognition env config Hcfg (photo_id p) wa)
    as [wb [Hclear [Hfaces [Hphotos _]]]].
  unfold indexPhotoFace. rewrite Hcfg.
  unfold try_catch. unfold bind at 1. rewrite Hrun.
  unfold bind at 1. rewrite Hclear.
  unfold bind at 1. rewrite send_run. fold (indexCommand config p). rewrite Hanswer.
  unfold extraFaceIds.
  destruct (nullish (response_FaceRecords response) []) as [| record rest] eqn:Hrecords;
    [discriminate |].
  unfold keptFace in Hkept.
  destruct (record_Face record) as [face |]; [| discriminate].
  destruct (FaceId face) as [id |]; [| discriminate].
  destruct (truthy id) eqn:Htruthy; [| discriminate].
  injection Hkept as -> <-.
  cbn [negb].
  assert (Hcreate : forall wd,
             db wd = db wb ->
             faceEmbedding_create
               {| fe_photoId := photo_id p;
                  fe_provider := FACE_PROVIDER;
                  fe_externalId := faceId;
                  fe_confidence := Confidence face |} wd =
             (Normal tt,
              {| db := with_faceEmbeddings
                         (faceEmbeddings (db wd) ++
                          [{| fe_photoId := photo_id p;
                              fe_provider := FACE_PROVIDER;
                              fe_externalId := faceId;
                              fe_confidence := Confidence face |}])
                         (db wd);
                 collectionReady := collectionReady wd;
                 sent := sent wd |})).
  { intros wd Hwd. apply faceEmbedding_create_run; simpl; rewrite Hwd.
    - rewrite Hphotos, Hdb. exact Hrow.
    - rewrite Hfaces. apply cleared_no_clash. intros f Hin Hprov Hext.
      rewrite Hdb in Hin. apply Hfresh; assumption. }
  assert (Hrecords' : forall wd,
             db wd = db wb ->
             faceRecordsOf (photo_id p)
               (with_faceEmbeddings
                  (faceEmbeddings (db wd) ++
                   [{| fe_photoId := photo_id p;
                       fe_provider := FACE_PROVIDER;
                       fe_externalId := faceId;
                       fe_confidence := Confidence face |}])
                  (db wd)) =
             [{| fe_photoId := photo_id p;
                 fe_provider := FACE_PROVIDER;
                 fe_externalId := faceId;
                 fe_confidence := Confidence face |}]).
  { intros wd Hwd. unfold faceRecordsOf. simpl. rewrite filter_app, Hwd.
    pose proof (faceRecordsOf_cleared (photo_id p) (db wb) _ Hfaces) as Hnone.
    unfold faceRecordsOf in Hnone. rewrite Hnone. simpl.
    rewrite !String.eqb_refl. reflexivity. }
  simpl skipn.
  destruct (1 <? Z.of_nat (List.length (record :: rest))) eqn:Hmany.
  - destruct (filter truthy _) as [| extra extras] eqn:Hextras.
    + change (0 <? Z.of_nat (List.length (@nil string))) with false. cbv iota.
      unfold bind at 1. unfold ret at 1.
      unfold bind at 1. rewrite Hcreate by reflexivity.
      eexists. split; [reflexivity |]. split; [apply Hrecords'; reflexivity |].
      simpl. exists (sent wb). reflexivity.
    + assert (Hpos : (0 <? Z.of_nat (List.length (extra :: extras))) = true)
        by (apply Z.ltb_lt; simpl List.length; lia).
      rewrite Hpos.
      unfold bind at 1. unfold bind at 1. rewrite send_run.
      match goal with
      | |- context [rekognition ?h (DeleteFacesCommand (collectionId config) ?ids)] =>
          destruct (Hdelete h ids) as [r Hr]; rewrite Hr
      end.
      unfold ret at 1.
      unfold bind at 1. rewrite Hcreate by reflexivity.
      eexists. split; [reflexivity |]. split; [apply Hrecords'; reflexivity |].
      simpl. exists (sent wb). rewrite <- app_assoc. reflexivity.
  - assert (Hrest : rest = []).
    { apply Z.ltb_ge in Hmany. destruct rest; [reflexivity | simpl List.length in Hmany; lia]. }
    subst rest. simpl.
    unfold bind at 1. unfold ret at 1.
    unfold bind at 1. rewrite Hcreate by reflexivity.
    eexists. split; [reflexivity |]. split; [apply Hrecords'; reflexivity |].
    simpl. exists (sent wb). reflexivity.
Qed.

Lemma indexPhotoFace_keeps_first_face_witness :
  exists w',
    indexPhotoFace Demo.three_faces Sample.env Sample.P1 Sample.unindexed_world =
      (Normal {| index_status := FaceIndexStatus.indexed; index_message := None |}, w') /\
    faceRecordsOf "P1" (db w') =
      [{| fe_photoId := "P1";
          fe_provider := FACE_PROVIDER;
          fe_externalId := "F1";
          fe_confidence := Some (999 # 10) |}].
Proof.
  destruct
    (indexPhotoFace_keeps_first_face Demo.three_faces Sample.env Sample.config Sample.P1
       Sample.unindexed_world
       (IndexFacesResponse
          (Some [{| record_Face := Some (Sample.face "F1") |};
                 {| record_Face := Some (Sample.face "F2") |};
                 {| record_Face := Some (Sample.face "F3") |}]))
       "F1" (Some (999 # 10)))
    as [w' [Hrun [Hrecords _]]].
  - reflexivity.
  - reflexivity.
  - reflexivity.
  - intros history. reflexivity.
  - intros history ids. eexists. reflexivity.
  - reflexivity.
  - intros f [].
  - exists w'. split; [exact Hrun | exact Hrecords].
Defined.

(** ** Purchase grants and the download routes *)

Lemma startsWith_truthy p s : p <> "" -> startsWith p s = true -> truthy s = true.
Proof.
  intros Hp Hs. destruct s as [| c s]; [| reflexivity].
  destruct p as [| d p]; [contradiction | discriminate].
Qed.

(** The grant of a request is read from the [Authorization] header when
    that starts with [Bearer ], whatever the rest of the request carries;
    otherwise from the [token] query parameter when it is a string; and
    only then from the [x-purchase-token] header. *)
Theorem getPurchaseTokenFromRequest_precedence req :
  (forall h, header_authorization req = Some h -> startsWith "Bearer " h = true ->
             getPurchaseTokenFromRequest req = Some (trim (string_drop 7 h))) /\
  ((forall h, header_authorization req = Some h -> startsWith "Bearer " h = false) ->
   (forall s, query_token req = JsString s -> getPurchaseTokenFromRequest req = Some s) /\
   ((forall s, query_token req <> JsString s) ->
    getPurchaseTokenFromRequest req = header_x_purchase_token req)).
Proof.
  unfold getPurchaseTokenFromRequest. split.
  - intros h -> Hbearer.
    rewrite (startsWith_truthy "Bearer " h) by (discriminate || exact Hbearer).
    rewrite Hbearer. reflexivity.
  - intros Hother.
    assert (Hnone :
              match header_authorization req with
              | Some h =>
                  if andb (truthy h) (startsWith "Bearer " h)
                  then Some (trim (string_drop (String.length "Bearer ") h))
                  else None
              | None => None
              end = None).
    { destruct (header_authorization req) as [h |]; [| reflexivity].
      rewrite (Hother h eq_refl), andb_false_r. reflexivity. }
    rewrite Hnone. split.
    + intros s ->. reflexivity.
    + intros Hquery. destruct (query_token req); try reflexivity.
      exfalso. eapply Hquery. reflexivity.
Qed.



Lemma PurchaseStatus_eqb_eq a b : PurchaseStatus_eqb a b = true <-> a = b.
Proof. destruct a, b; simpl; split; congruence. Qed.



(** ** The find-me route *)

Lemma Qred_inject_Z n : Qred (inject_Z n) = inject_Z n.
Proof.
  unfold Qred, inject_Z.
  pose proof (Z.ggcd_gcd n 1) as Hg.
  pose proof (Z.ggcd_correct_divisors n 1) as Hd.
  destruct (Z.ggcd n 1) as [g [aa bb]]. simpl in *.
  rewrite Z.gcd_1_r in Hg. subst g. destruct Hd as [Ha Hb].
  rewrite Z.mul_1_l in Ha, Hb. subst aa bb. reflexivity.
Qed.

(** X12: the [limit] of a find-me request is accepted exactly when it is
    absent, and then it is 24, or is a number equal to an integer between
    1 and 50, and then it is that integer; NaN, the infinities, fractions
    and integers outside the range are refused. *)
Theorem findMeQuerySchema_accepts_exactly limit n :
  findMeQuerySchema limit = Normal n <->
  1 <= n <= 50 /\
  ((limit = None /\ n = 24) \/
   exists q, limit = Some (JsFinite q) /\ (q == inject_Z n)%Q).
Proof.
  split.
  - intros Hparse. split; [exact (findMeQuerySchema_range limit n Hparse) |].
    unfold findMeQuerySchema in Hparse.
    destruct limit as [[| negative | q] |]; simpl nullish in Hparse; try discriminate.
    + right. exists q. split; [reflexivity |].
      cbv beta iota zeta in Hparse.
      destruct (Pos.eqb (Qden (Qred q)) 1) eqn:Hden; cbn [negb] in Hparse; [| discriminate].
      destruct (Qnum (Qred q) <? 1); [discriminate |].
      destruct (50 <? Qnum (Qred q)); [discriminate |].
      injection Hparse as <-. apply Pos.eqb_eq in Hden.
      rewrite <- (Qred_correct q) at 1.
      destruct (Qred q) as [num den]. simpl in *. subst den. reflexivity.
    + left. split; [reflexivity |]. vm_compute in Hparse. congruence.
  - intros [Hrange [[-> ->] | [q [-> Hq]]]]; [reflexivity |].
    unfold findMeQuerySchema. simpl nullish. cbv beta iota zeta.
    rewrite (Qred_complete _ _ Hq), Qred_inject_Z. simpl.
    destruct (n <? 1) eqn:Hlow; [apply Z.ltb_lt in Hlow; lia |].
    destruct (50 <? n) eqn:Hhigh; [apply Z.ltb_lt in Hhigh; lia |].
    reflexivity.
Qed.


(** ** Slugs and file names *)

Section Characters.

Variable P : ascii -> Prop.

Let chars := list_ascii_of_string.

Lemma chars_rev_onto s acc :
  chars (string_rev_onto s acc) = rev (chars s) ++ chars acc.
Proof.
  revert acc. induction s as [| c s IH]; intros acc; simpl; [reflexivity |].
  rewrite IH. simpl. rewrite <- app_assoc. reflexivity.
Qed.

Lemma chars_rev s : chars (string_rev s) = rev (chars s).
Proof.
  unfold string_rev. rewrite chars_rev_onto. simpl. apply app_nil_r.
Qed.

Lemma dashRuns_Forall keep inRun s :
  (forall c, In c (chars s) -> keep c = true -> P c) ->
  P "-"%char ->
  Forall P (chars (dashRuns keep inRun s)).
Proof.
  intros Hkeep Hdash. revert inRun.
  induction s as [| c s IH]; intros inRun; simpl; [constructor |].
  assert (Hrest : forall b, Forall P (chars (dashRuns keep b s)))
    by (apply IH; intros d Hd; apply Hkeep; right; exact Hd).
  destruct (keep c) eqn:Hc.
  - constructor; [apply Hkeep; [left; reflexivity | exact Hc] | apply Hrest].
  - destruct inRun; [apply Hrest |]. constructor; [exact Hdash | apply Hrest].
Qed.

Lemma dropDashes_Forall s : Forall P (chars s) -> Forall P (chars (dropDashes s)).
Proof.
  induction s as [| c s IH]; simpl; intros H; [constructor |].
  destruct (is_dash c); [apply IH; inversion H; assumption | exact H].
Qed.

Lemma stripDashes_Forall s : Forall P (chars s) -> Forall P (chars (stripDashes s)).
Proof.
  intros H. unfold stripDashes. rewrite chars_rev. apply Forall_rev.
  apply dropDashes_Forall. rewrite chars_rev. apply Forall_rev.
  apply dropDashes_Forall. exact H.
Qed.


End Characters.


(** What [dropDashes] removed was a run of dashes. *)
Lemma dropDashes_spec s :
  exists k,
    list_ascii_of_string s =
      repeat "-"%char k ++ list_ascii_of_string (dropDashes s) /\
    hd_error (list_ascii_of_string (dropDashes s)) <> Some "-"%char.
Proof.
  induction s as [| c s [k [Hs Hhd]]].
  - exists 0%nat. split; [reflexivity | discriminate].
  - simpl. destruct (is_dash c) eqn:Hc.
    + exists (S k). apply Ascii.eqb_eq in Hc. subst c. simpl. rewrite Hs at 1.
      split; [reflexivity | exact Hhd].
    + exists 0%nat. split; [reflexivity |]. simpl. intros [= ->]. discriminate.
Qed.

(** [stripDashes] leaves no dash at either end. *)
Lemma stripDashes_ends s :
  hd_error (list_ascii_of_string (stripDashes s)) <> Some "-"%char /\
  hd_error (rev (list_ascii_of_string (stripDashes s))) <> Some "-"%char.
Proof.
  unfold stripDashes.
  destruct (dropDashes_spec s) as [_ [_ Hfront]].
  destruct (dropDashes_spec (string_rev (dropDashes s))) as [k [Hback Hlast]].
  rewrite chars_rev in Hback. rewrite chars_rev.
  split; [| rewrite rev_involutive; exact Hlast].
  set (t := list_ascii_of_string (dropDashes s)) in *.
  set (u := list_ascii_of_string (dropDashes (string_rev (dropDashes s)))) in *.
  assert (Ht : t = rev u ++ repeat "-"%char k).
  { rewrite <- (rev_involutive t), Hback, rev_app_distr.
    f_equal. clear. induction k as [| k IH]; [reflexivity |].
    simpl. rewrite IH. clear IH. induction k as [| k IH]; [reflexivity |].
    simpl. rewrite <- IH. reflexivity. }
  destruct (rev u) as [| c r] eqn:Hr; [discriminate |].
  rewrite Ht in Hfront. exact Hfront.
Qed.






Lemma normalizeBaseSlug_chars value :
  Forall (fun c => orb (is_lower_alnum c) (is_dash c) = true)
    (list_ascii_of_string (normalizeBaseSlug value)).
Proof.
  unfold normalizeBaseSlug.
  destruct (truthy _).
  - apply stripDashes_Forall. apply dashRuns_Forall; [| reflexivity].
    intros c _ Hc. rewrite Hc. reflexivity.
  - repeat constructor.
Qed.

(** The base of a slug is never empty, consists of lower-case letters,
    digits and dashes only, and neither starts nor ends with a dash,
    whatever the name of the event was. *)
Theorem normalizeBaseSlug_shape value :
  let slug := list_ascii_of_string (normalizeBaseSlug value) in
  slug <> [] /\
  forallb (fun c => orb (is_lower_alnum c) (is_dash c)) slug = true /\
  hd_error slug <> Some "-"%char /\
  hd_error (rev slug) <> Some "-"%char.
Proof.
  cbv zeta. split; [| split].
  - unfold normalizeBaseSlug.
    destruct (truthy _) eqn:Hbase; [| discriminate].
    apply truthy_true in Hbase. intros Hnil. apply Hbase.
    destruct (stripDashes _); [reflexivity | discriminate].
  - apply forallb_forall. apply Forall_forall. apply normalizeBaseSlug_chars.
  - unfold normalizeBaseSlug.
    destruct (truthy _); [apply stripDashes_ends | split; discriminate].
Qed.





(** ** User access tokens *)

Lemma bearer_token token :
  startsWith "Bearer " ("Bearer " ++ token) = true /\
  string_drop (String.length "Bearer ") ("Bearer " ++ token) = token.
Proof.
  split; [| reflexivity].
  unfold startsWith. simpl. destruct token; reflexivity.
Qed.


(** X17: round trip: a token that [signAccessToken] issued for a user, sent as
    [Bearer <token>], authenticates as exactly that user, when the library
    decodes its own token to the signed payload with its time stamps, and
    the token has no white space around it. *)
Theorem signAccessToken_authenticates jwt_sign jwt_verify env user claims :
  jwt_verify (signAccessToken jwt_sign env user) (getJwtSecret env) =
    Normal (JsObject ([("sub", JsString (auth_sub user));
                       ("email", JsString (auth_email user));
                       ("role", JsString (auth_role user))] ++ claims)) ->
  trim (signAccessToken jwt_sign env user) = signAccessToken jwt_sign env user ->
  verifyAccessToken jwt_verify env (signAccessToken jwt_sign env user) = Normal user /\
  requireAuth jwt_verify env (Some ("Bearer " ++ signAccessToken jwt_sign env user)%string) =
    inr user.
Proof.
  intros Hverify Htrim.
  assert (Hround : verifyAccessToken jwt_verify env (signAccessToken jwt_sign env user) =
                   Normal user).
  { unfold verifyAccessToken. rewrite Hverify. simpl. destruct user; reflexivity. }
  split; [exact Hround |].
  unfold requireAuth.
  destruct (bearer_token (signAccessToken jwt_sign env user)) as [Hbearer Hdrop].
  rewrite Hbearer, Hdrop, Htrim, Hround.
  rewrite (startsWith_truthy "Bearer " _) by (discriminate || exact Hbearer).
  reflexivity.
Qed.

(** X18: the two kinds of token are not interchangeable, even in a deployment
    where both are signed with the same secret: a user access token is
    refused as the grant of any purchase, and a purchase grant is refused
    as a user access token.  The library is assumed to decode its own
    tokens to the signed payload with claims that add neither a
    [purchaseId] nor an [email]. *)
Theorem token_kinds_not_interchangeable
    jwt_sign jwt_verify env user purchaseId userClaims grantClaims :
  getPurchaseAccessTokenSecret env = getJwtSecret env ->
  jwt_verify (signAccessToken jwt_sign env user) (getJwtSecret env) =
    Normal (JsObject ([("sub", JsString (auth_sub user));
                       ("email", JsString (auth_email user));
                       ("role", JsString (auth_role user))] ++ userClaims)) ->
  jwt_verify (signPurchaseAccessToken jwt_sign env purchaseId) (getJwtSecret env) =
    Normal (JsObject ([("sub", JsString purchaseId);
                       ("purchaseId", JsString purchaseId)] ++ grantClaims)) ->
  js_field "purchaseId" userClaims = JsUndefined ->
  js_field "email" grantClaims = JsUndefined ->
  (forall id,
     verifyPurchaseAccessToken jwt_verify env id (signAccessToken jwt_sign env user) =
     Thrown (new_Error "Invalid purchase access token.")) /\
  verifyAccessToken jwt_verify env (signPurchaseAccessToken jwt_sign env purchaseId) =
    Thrown (new_Error "Invalid token payload").
Proof.
  intros Hsecret Huser Hgrant HnoPurchase HnoEmail.
  split.
  - intros id. unfold verifyPurchaseAccessToken. rewrite Hsecret, Huser. simpl.
    rewrite HnoPurchase. reflexivity.
  - unfold verifyAccessToken. rewrite Hgrant. simpl. rewrite HnoEmail. reflexivity.
Qed.

Lemma signAccessToken_authenticates_witness :
  requireAuth Demo.jwt_verify Demo.shared_env (Some "Bearer u:U1") = inr Demo.owner.
Proof.
  refine (proj2
    (signAccessToken_authenticates Demo.jwt_sign Demo.jwt_verify Demo.shared_env Demo.owner
       Demo.timeClaims _ _)); reflexivity.
Defined.

Lemma token_kinds_not_interchangeable_witness :
  verifyAccessToken Demo.jwt_verify Demo.shared_env "p:PUR1" =
  Thrown (new_Error "Invalid token payload").
Proof.
  refine (proj2
    (token_kinds_not_interchangeable Demo.jwt_sign Demo.jwt_verify Demo.shared_env Demo.owner
       "PUR1" Demo.timeClaims Demo.timeClaims _ _ _ _ _)); reflexivity.
Defined.

(** ** The session route of the purchases *)

(** X19: the session route is a read: the world is as before.  It answers 200,
    402 or 404, and it hands out a grant only together with 200, for a
    stored purchase of the given checkout session whose status is PAID;
    the grant is the one signed for that purchase's id, and the summary
    reports that purchase: its bundle flag is set exactly when one of its
    items is the all-photos bundle, and the photo ids listed are photo ids
    of its items. *)
Theorem purchase_session_grants_only_paid
    jwt_sign ALL_PHOTOS env sessionId w response w' :
  purchase_session jwt_sign ALL_PHOTOS env sessionId w = (Normal response, w') ->
  w' = w /\
  (api_status response = 200 \/ api_status response = 402 \/ api_status response = 404) /\
  (api_status response = 200 ->
   exists summary accessToken, api_body response = api_session summary accessToken) /\
  forall summary accessToken,
    api_body response = api_session summary accessToken ->
    api_status response = 200 /\
    exists purchase,
      In purchase (purchases (db w)) /\
      purchase_stripeSessionId purchase = sessionId /\
      purchase_status purchase = PAID /\
      summary_id summary = purchase_id purchase /\
      summary_status summary = PAID /\
      summary_eventId summary = purchase_eventId purchase /\
      summary_buyerEmail summary = purchase_buyerEmail purchase /\
      accessToken = signPurchaseAccessToken jwt_sign env (purchase_id purchase) /\
      (summary_hasAllPhotos summary = true <->
       exists item, In item (purchaseItems (db w)) /\
                    item_purchaseId item = purchase_id purchase /\
                    item_itemType item = ALL_PHOTOS) /\
      (forall id, In id (summary_purchasedPhotoIds summary) ->
                  exists item, In item (purchaseItems (db w)) /\
                               item_purchaseId item = purchase_id purchase /\
                               item_photoId item = Some id).
Proof.
  unfold purchase_session.
  unfold lift at 1. unfold bind at 1. unfold parse_nonempty at 1.
  destruct (1 <=? Z.of_nat (String.length sessionId)); [| discriminate].
  unfold get_db at 1. unfold bind at 1.
  destruct (find _ (purchases (db w))) as [purchase |] eqn:Hfind.
  2: { intros H. injection H as <- <-. simpl. split; [reflexivity |]. split; [auto |].
       split; [discriminate |]. discriminate. }
  apply find_some in Hfind. destruct Hfind as [Hstored Hsession].
  apply String.eqb_eq in Hsession.
  destruct (find _ (events (db w))) as [event |]; [| discriminate].
  destruct (PurchaseStatus_eqb (purchase_status purchase) PAID) eqn:Hpaid; cbn [negb].
  2: { intros H. injection H as <- <-. simpl. split; [reflexivity |]. split; [auto |].
       split; [discriminate |]. discriminate. }
  apply PurchaseStatus_eqb_eq in Hpaid.
  intros H. injection H as <- <-. simpl.
  split; [reflexivity |]. split; [auto |].
  split; [intros _; do 2 eexists; reflexivity |].
  intros summary accessToken Hbody. injection Hbody as <- <-. simpl.
  split; [reflexivity |].
  exists purchase. repeat (split; [first [assumption | reflexivity] |]).
  split.
  - rewrite existsb_exists. split.
    + intros [item [Hitem Htype]]. apply filter_In in Hitem. destruct Hitem as [Hitem Hof].
      exists item. split; [exact Hitem |].
      split; apply String.eqb_eq; assumption.
    + intros [item [Hitem [Hof Htype]]]. exists item.
      split; [| apply String.eqb_eq; exact Htype].
      apply filter_In. split; [exact Hitem | apply String.eqb_eq; exact Hof].
  - intros id Hid. apply filter_In in Hid. destruct Hid as [Hid _].
    apply in_flat_map in Hid. destruct Hid as [item [Hitem Hphoto]].
    apply filter_In in Hitem. destruct Hitem as [Hitem Hof].
    exists item. split; [exact Hitem |].
    split; [apply String.eqb_eq; exact Hof |].
    destruct (item_photoId item) as [photoId |]; [| contradiction].
    destruct Hphoto as [-> | []]. reflexivity.
Qed.

Lemma purchase_session_ok jwt_sign ALL_PHOTOS env sessionId w summary accessToken w' :
  purchase_session jwt_sign ALL_PHOTOS env sessionId w =
    (Normal {| api_status := 200; api_body := api_session summary accessToken |}, w') ->
  exists purchase,
    In purchase (purchases (db w)) /\
    purchase_status purchase = PAID /\
    summary_id summary = purchase_id purchase /\
    accessToken = signPurchaseAccessToken jwt_sign env (purchase_id purchase) /\
    summary_hasAllPhotos summary =
      existsb (fun item => item_itemType item === ALL_PHOTOS)
        (filter (fun i => item_purchaseId i === purchase_id purchase) (purchaseItems (db w))).
Proof.
  unfold purchase_session.
  unfold lift at 1. unfold bind at 1. unfold parse_nonempty at 1.
  destruct (1 <=? Z.of_nat (String.length sessionId)); [| discriminate].
  unfold get_db at 1. unfold bind at 1.
  destruct (find _ (purchases (db w))) as [purchase |] eqn:Hfind; [| discriminate].
  apply find_some in Hfind. destruct Hfind as [Hstored _].
  destruct (find _ (events (db w))) as [event |]; [| discriminate].
  destruct (PurchaseStatus_eqb (purchase_status purchase) PAID) eqn:Hpaid; cbn [negb];
    [| discriminate].
  apply PurchaseStatus_eqb_eq in Hpaid.
  intros H. injection H as <- <- <-. exists purchase. simpl. auto.
Qed.

(** X20: the grant that the session route hands out opens the bundle of the
    same purchase: when the library verifies the grant it signed, a bundle
    request for the purchase of the summary with that grant is answered
    200 with the files if the summary says that the bundle was bought, and
    403 if it says that it was not. *)
Theorem session_grant_opens_bundle
    jwt_sign jwt_verify getSignedUrl ALL_PHOTOS env cfg sessionId w summary accessToken
    claims req :
  getStorageConfig env = Normal cfg ->
  NoDup (map purchase_id (purchases (db w))) ->
  purchase_session jwt_sign ALL_PHOTOS env sessionId w =
    (Normal {| api_status := 200; api_body := api_session summary accessToken |}, w) ->
  jwt_verify accessToken (getPurchaseAccessTokenSecret env) =
    Normal (JsObject ([("sub", JsString (summary_id summary));
                       ("purchaseId", JsString (summary_id summary))] ++ claims)) ->
  accessToken <> "" ->
  summary_id summary <> "" ->
  params_purchaseId req = summary_id summary ->
  getPurchaseTokenFromRequest req = Some accessToken ->
  exists response,
    download_all getSignedUrl jwt_verify ALL_PHOTOS env req w = (Normal response, w) /\
    (summary_hasAllPhotos summary = true ->
     res_status response = 200 /\
     exists files, res_body response = json_bundle (Z.of_nat (List.length files)) files) /\
    (summary_hasAllPhotos summary = false ->
     response = {| res_status := 403;
                   res_body := json_error "All-photos bundle was not purchased." |}).
Proof.
  intros Hstorage Hkeys Hsession Hverify Htoken Hid Hparam Hpresented.
  destruct (purchase_session_ok _ _ _ _ _ _ _ _ Hsession)
    as [purchase [Hstored [Hpaid [Hsummary [_ Hbundle]]]]].
  assert (Hrun := download_all_run getSignedUrl jwt_verify ALL_PHOTOS env cfg Hstorage req w
                    accessToken
                    ([("sub", JsString (summary_id summary));
                      ("purchaseId", JsString (summary_id summary))] ++ claims)
                    purchase).
  rewrite Hparam in Hrun.
  specialize (Hrun Hid Hpresented Htoken Hverify eq_refl Hkeys Hstored (eq_sym Hsummary)
                Hpaid w eq_refl).
  rewrite Hrun. eexists. split; [reflexivity |]. rewrite Hbundle.
  destruct (existsb _ _).
  - split; [| discriminate]. intros _. split; [reflexivity |]. eexists. reflexivity.
  - split; [discriminate |]. intros _. reflexivity.
Qed.

Lemma purchase_session_grants_only_paid_witness :
  Demo.shop_world = Demo.shop_world.
Proof.
  refine (proj1
    (purchase_session_grants_only_paid Demo.grant_sign Sample.ALL_PHOTOS Sample.env "cs_1"
       Demo.shop_world _ Demo.shop_world _)).
  reflexivity.
Defined.

Lemma session_grant_opens_bundle_witness :
  exists response,
    download_all Sample.getSignedUrl Sample.jwt_verify Sample.ALL_PHOTOS Sample.env
      Demo.bundle_request Demo.shop_world = (Normal response, Demo.shop_world).
Proof.
  destruct
    (session_grant_opens_bundle Demo.grant_sign Sample.jwt_verify Sample.getSignedUrl
       Sample.ALL_PHOTOS Sample.env Sample.storage "cs_1" Demo.shop_world
       {| summary_id := "PUR1";
          summary_status := PAID;
          summary_eventId := "E1";
          summary_eventSlug := "gala";
          summary_eventName := "Gala";
          summary_buyerEmail := "guest@example.com";
          summary_hasAllPhotos := true;
          summary_purchasedPhotoIds := [] |}
       "jwt:PUR1"
       [("iat", JsNum (JsFinite 0)); ("exp", JsNum (JsFinite 43200))]
       Demo.bundle_request)
    as [response [Hrun _]].
  - reflexivity.
  - repeat constructor. intros [].
  - reflexivity.
  - reflexivity.
  - discriminate.
  - discriminate.
  - reflexivity.
  - reflexivity.
  - exists response. exact Hrun.
Defined.

(** ** The public gallery *)

Lemma serializePhoto_run getSignedUrl env cfg p w :
  getStorageConfig env = Normal cfg ->
  serializePhoto getSignedUrl env p w =
  (Normal (serializedWith (getSignedUrl (storage_bucket cfg) (photo_storageKey p) 3600) p), w).
Proof.
  intros Hstorage. unfold serializePhoto. unfold bind at 1.
  rewrite (createSignedDownloadUrl_run getSignedUrl env cfg Hstorage). reflexivity.
Qed.

(** X21: the public gallery of an event shows exactly the photos of that event
    that are uploaded and published, each once: a draft, a photo whose
    upload is not complete and a photo of another event never appear.  The
    route reads only. *)
Theorem public_photos_shows_published getSignedUrl env cfg eventSlug event w :
  getStorageConfig env = Normal cfg ->
  eventSlug <> "" ->
  find (fun e => event_slug e === eventSlug) (events (db w)) = Some event ->
  NoDup (map photo_id (photos (db w))) ->
  exists shown,
    public_photos getSignedUrl env eventSlug w =
      (Normal {| api_status := 200; api_body := api_photos shown |}, w) /\
    NoDup (map sp_id shown) /\
    (forall id,
       In id (map sp_id shown) <->
       exists p, In p (photos (db w)) /\ photo_id p = id /\
                 photo_eventId p = event_id event /\
                 photo_isUploaded p = true /\ photo_status p = PUBLISHED) /\
    (forall s, In s shown ->
               sp_status s = PUBLISHED /\ sp_eventId s = event_id event /\
               exists p, In p (photos (db w)) /\
                         s = serializedWith
                               (getSignedUrl (storage_bucket cfg) (photo_storageKey p) 3600) p).
Proof.
  intros Hstorage Hslug Hevent Hkeys.
  set (selected :=
         stable_sort publishedAt_desc_before
           (filter
              (fun p =>
                 andb (photo_eventId p === event_id event)
                   (andb (Bool.eqb (photo_isUploaded p) true)
                      (PhotoStatus_eqb (photo_status p) PUBLISHED)))
              (photos (db w)))).
  set (show_ := fun p =>
         serializedWith (getSignedUrl (storage_bucket cfg) (photo_storageKey p) 3600) p).
  assert (Hselected : forall p,
             In p selected <->
             In p (photos (db w)) /\ photo_eventId p = event_id event /\
             photo_isUploaded p = true /\ photo_status p = PUBLISHED).
  { intros p. unfold selected. split.
    - intros Hin. apply (Permutation_in _ (stable_sort_Permutation _ _)) in Hin.
      apply filter_In in Hin. destruct Hin as [Hin Hp].
      apply bundle_filter_iff in Hp. tauto.
    - intros [Hin Hp].
      apply (Permutation_in _ (Permutation_sym (stable_sort_Permutation _ _))).
      apply filter_In. split; [exact Hin | apply bundle_filter_iff; exact Hp]. }
  exists (map show_ selected). split; [| split; [| split]].
  - unfold public_photos. rewrite (parse_nonempty_ok _ _ Hslug).
    unfold lift at 1. unfold bind at 1.
    unfold event_findUnique_slug. unfold get_db at 1.
    unfold bind at 1. unfold bind at 1. unfold ret at 1. rewrite Hevent.
    unfold photo_findMany_ordered. unfold get_db at 1.
    unfold bind at 1. unfold bind at 1. unfold ret at 1.
    unfold bind at 1.
    rewrite (Promise_all_pure (serializePhoto getSignedUrl env) show_)
      by (intros p w0; apply serializePhoto_run; exact Hstorage).
    reflexivity.
  - rewrite map_map. change (fun x => sp_id (show_ x)) with photo_id.
    unfold selected.
    apply (Permutation_NoDup
             (Permutation_map photo_id (Permutation_sym (stable_sort_Permutation _ _)))).
    apply NoDup_map_filter. exact Hkeys.
  - intros id. rewrite map_map. change (fun x => sp_id (show_ x)) with photo_id.
    rewrite in_map_iff. split.
    + intros [p [Hid Hin]]. exists p. apply Hselected in Hin. tauto.
    + intros [p [Hin [Hid Hp]]]. exists p. split; [exact Hid |].
      apply Hselected. tauto.
  - intros s Hs. apply in_map_iff in Hs. destruct Hs as [p [<- Hin]].
    apply Hselected in Hin. destruct Hin as [Hin [Hev [_ Hstatus]]].
    simpl. split; [exact Hstatus |]. split; [exact Hev |].
    exists p. split; [exact Hin | reflexivity].
Qed.

Lemma public_photos_shows_published_witness :
  exists shown,
    public_photos Sample.getSignedUrl Sample.env "gala" Demo.shop_world =
      (Normal {| api_status := 200; api_body := api_photos shown |}, Demo.shop_world) /\
    NoDup (map sp_id shown).
Proof.
  destruct
    (public_photos_shows_published Sample.getSignedUrl Sample.env Sample.storage "gala"
       Demo.gala Demo.shop_world)
    as [shown [Hrun [Hnodup _]]].
  - reflexivity.
  - discriminate.
  - reflexivity.
  - repeat constructor; simpl; intuition discriminate.
  - exists shown. split; [exact Hrun | exact Hnodup].
Defined.

(** ** Realtime updates *)

Lemma getChannel_inj a b : getChannel a = getChannel b -> a = b.
Proof. unfold getChannel. simpl. intros [= H]. exact H. Qed.

Lemma listenersOf_on channel other l bus :
  listenersOf other (emitter_on channel l bus) =
  if channel === other then listenersOf channel bus ++ [l] else listenersOf other bus.
Proof.
  unfold emitter_on. unfold listenersOf at 1. simpl registered.
  destruct (channel === other) eqn:Heq.
  - apply String.eqb_eq in Heq. subst other. rewrite map_get_set. reflexivity.
  - apply String.eqb_neq in Heq. rewrite (map_get_set_other _ _ _ _ Heq). reflexivity.
Qed.

Lemma listenersOf_off channel other l bus :
  listenersOf other (emitter_off channel l bus) =
  if channel === other then remove_last l (listenersOf channel bus)
  else listenersOf other bus.
Proof.
  unfold emitter_off. unfold listenersOf at 1. simpl registered.
  destruct (channel === other) eqn:Heq.
  - apply String.eqb_eq in Heq. subst other. rewrite map_get_set. reflexivity.
  - apply String.eqb_neq in Heq. rewrite (map_get_set_other _ _ _ _ Heq). reflexivity.
Qed.

Lemma remove_last_snoc l ls : remove_last l (ls ++ [l]) = ls.
Proof.
  unfold remove_last. rewrite rev_app_distr. simpl.
  rewrite Nat.eqb_refl. apply rev_involutive.
Qed.

Lemma remove_first_absent l ls : ~ In l ls -> remove_first l ls = ls.
Proof.
  induction ls as [| x ls IH]; simpl; intros Hnotin; [reflexivity |].
  destruct (Nat.eqb x l) eqn:Heq.
  - apply Nat.eqb_eq in Heq. exfalso. apply Hnotin. left. exact Heq.
  - rewrite IH; [reflexivity |]. intros Hin. apply Hnotin. right. exact Hin.
Qed.

Lemma delivered_to_absent (l : Listener) (payload : RealtimePhotoEvent) ls :
  ~ In l ls ->
  filter (fun call => Nat.eqb (fst call) l) (map (fun x => (x, payload)) ls) = [].
Proof.
  induction ls as [| x ls IH]; simpl; intros Hnotin; [reflexivity |].
  destruct (Nat.eqb x l) eqn:Heq.
  - apply Nat.eqb_eq in Heq. exfalso. apply Hnotin. left. exact Heq.
  - apply IH. intros Hin. apply Hnotin. right. exact Hin.
Qed.

Lemma receivedBy_emit l channel payload bus :
  receivedBy l (emitter_emit channel payload bus) =
  receivedBy l bus ++
  map snd (filter (fun call => Nat.eqb (fst call) l)
             (map (fun x => (x, payload)) (listenersOf channel bus))).
Proof.
  unfold receivedBy, emitter_emit. simpl. rewrite filter_app, map_app. reflexivity.
Qed.

(** X22: unsubscribing undoes the subscription: the listeners of every channel
    are those from before, nothing was delivered in between, and so every
    later update reaches exactly the listeners it would have reached
    without the two calls. *)
Theorem unsubscribe_undoes_subscribe eventSlug listener bus :
  let bus' := unsubscribe eventSlug listener (subscribeEventUpdates eventSlug listener bus) in
  (forall channel, listenersOf channel bus' = listenersOf channel bus) /\
  calls bus' = calls bus /\
  forall timestamp slug photoId type,
    calls (publishEventUpdate timestamp slug photoId type bus') =
    calls (publishEventUpdate timestamp slug photoId type bus).
Proof.
  cbv zeta.
  assert (Hsame : forall channel,
             listenersOf channel
               (unsubscribe eventSlug listener (subscribeEventUpdates eventSlug listener bus)) =
             listenersOf channel bus).
  { intros channel. unfold unsubscribe, subscribeEventUpdates.
    rewrite listenersOf_off, !listenersOf_on, String.eqb_refl, remove_last_snoc.
    destruct (getChannel eventSlug === channel) eqn:Heq; [| reflexivity].
    apply String.eqb_eq in Heq. subst channel. reflexivity. }
  split; [exact Hsame |]. split; [reflexivity |].
  intros timestamp slug photoId type. unfold publishEventUpdate, emitter_emit.
  simpl calls. rewrite Hsame. reflexivity.
Qed.

(** X23: a listener that subscribes to an event receives an update published
    for that event exactly once; it receives nothing from an update of
    another event, and nothing once it has unsubscribed.  The listener is
    one that was not yet registered for the event. *)
Theorem subscriber_receives_own_updates
    timestamp eventSlug other photoId type listener bus :
  ~ In listener (listenersOf (getChannel eventSlug) bus) ->
  other <> eventSlug ->
  let update :=
    {| rt_type := type; rt_eventSlug := eventSlug; rt_photoId := photoId;
       rt_timestamp := timestamp |} in
  receivedBy listener
    (publishEventUpdate timestamp eventSlug photoId type
       (subscribeEventUpdates eventSlug listener bus)) =
    receivedBy listener bus ++ [update] /\
  receivedBy listener
    (publishEventUpdate timestamp eventSlug photoId type
       (subscribeEventUpdates other listener bus)) =
    receivedBy listener bus /\
  receivedBy listener
    (publishEventUpdate timestamp eventSlug photoId type
       (unsubscribe eventSlug listener (subscribeEventUpdates eventSlug listener bus))) =
    receivedBy listener bus.
Proof.
  intros Hfresh Hother. cbv zeta. unfold publishEventUpdate.
  rewrite !receivedBy_emit.
  split; [| split].
  - unfold subscribeEventUpdates. rewrite listenersOf_on, String.eqb_refl.
    rewrite map_app, filter_app, (delivered_to_absent _ _ _ Hfresh).
    simpl. rewrite Nat.eqb_refl. reflexivity.
  - unfold subscribeEventUpdates. rewrite listenersOf_on.
    destruct (getChannel other === getChannel eventSlug) eqn:Heq.
    + apply String.eqb_eq in Heq. apply getChannel_inj in Heq. contradiction.
    + rewrite (delivered_to_absent _ _ _ Hfresh). simpl. apply app_nil_r.
  - unfold unsubscribe, subscribeEventUpdates.
    rewrite listenersOf_off, listenersOf_on, String.eqb_refl, remove_last_snoc.
    rewrite (delivered_to_absent _ _ _ Hfresh). simpl. apply app_nil_r.
Qed.

Lemma subscriber_receives_own_updates_witness :
  receivedBy 7%nat
    (publishEventUpdate 1000 "gala" "P1" photo_published
       (subscribeEventUpdates "gala" 7%nat Demo.quiet)) =
  [{| rt_type := photo_published; rt_eventSlug := "gala"; rt_photoId := "P1";
      rt_timestamp := 1000 |}].
Proof.
  refine (proj1
    (subscriber_receives_own_updates 1000 "gala" "other" "P1" photo_published 7%nat
       Demo.quiet _ _)); [intros [] | discriminate].
Defined.

(** ** The photographer's photo routes *)

(** The photographer, the event and the photo that the three handlers
    need before they do anything. *)
Lemma withOwnedPhoto_cases req k s :
  (exists c, withOwnedPhoto req k s = (c, s)) \/
  exists user event p,
    authUser req = Some user /\
    auth_sub user <> "" /\
    params_eventId req <> "" /\
    photo_params_photoId req <> "" /\
    find (fun e => andb (event_id e === params_eventId req)
                        (event_ownerId e === auth_sub user))
      (events (db (world s))) = Some event /\
    find (fun q => andb (photo_id q === photo_params_photoId req)
                        (photo_eventId q === params_eventId req))
      (photos (db (world s))) = Some p /\
    withOwnedPhoto req k s = k event p s.
Proof.
  destruct s as [w b]. unfold withOwnedPhoto.
  destruct (authUser req) as [user |]; [| left; eexists; reflexivity].
  destruct (truthy (auth_sub user)) eqn:Hsub; cbn [negb]; [| left; eexists; reflexivity].
  apply truthy_true in Hsub.
  unfold hbind at 1. unfold onWorld at 1. unfold lift at 1. cbn [world bus].
  unfold parse_nonempty at 1.
  destruct (1 <=? Z.of_nat (String.length (params_eventId req))) eqn:Hevent;
    [| left; eexists; reflexivity].
  unfold hbind at 1. unfold onWorld at 1. unfold lift at 1. cbn [world bus].
  unfold parse_nonempty at 1.
  destruct (1 <=? Z.of_nat (String.length (photo_params_photoId req))) eqn:Hphoto;
    [| left; eexists; reflexivity].
  unfold hbind at 1. unfold onWorld at 1. unfold assertEventOwner.
  unfold bind at 1. unfold get_db at 1. unfold ret at 1. cbn [world bus].
  destruct (find _ (events (db w))) as [event |] eqn:Hfind;
    [| left; eexists; reflexivity].
  unfold hbind at 1. unfold onWorld at 1. unfold photo_findFirst.
  unfold bind at 1. unfold get_db at 1. unfold ret at 1. cbn [world bus].
  destruct (find _ (photos (db w))) as [p |] eqn:Hp;
    [| left; eexists; reflexivity].
  right. exists user, event, p.
  split; [reflexivity |]. split; [exact Hsub |].
  split; [intros Hempty; rewrite Hempty in Hevent; discriminate |].
  split; [intros Hempty; rewrite Hempty in Hphoto; discriminate |].
  split; [first [exact Hfind | reflexivity] |].
  split; [first [exact Hp | reflexivity] |].
  unfold hbind, onWorld, lift, assertEventOwner, photo_findFirst, bind, get_db, ret,
    parse_nonempty.
  cbn [world bus]. rewrite Hevent, Hphoto. cbn [world bus]. rewrite Hfind.
  cbn [world bus]. rewrite Hp. reflexivity.
Qed.

(** X24: none of the three photo routes changes anything, in the store or on
    the realtime bus, unless the request is authenticated as a user with
    an id, that user owns the event of the path, and the photo of the path
    is a photo of that event. *)
Theorem photo_routes_require_owner rekognition getSignedUrl env now emittedAt req s :
  let owned :=
    exists user event p,
      authUser req = Some user /\
      In event (events (db (world s))) /\
      event_id event = params_eventId req /\
      event_ownerId event = auth_sub user /\
      auth_sub user <> "" /\
      In p (photos (db (world s))) /\
      photo_id p = photo_params_photoId req /\
      photo_eventId p = event_id event in
  (snd (complete_upload rekognition getSignedUrl env emittedAt req s) <> s -> owned) /\
  (snd (publish_photo rekognition getSignedUrl env now emittedAt req s) <> s -> owned) /\
  (snd (unpublish_photo getSignedUrl env emittedAt req s) <> s -> owned).
Proof.
  cbv zeta.
  assert (Hgate : forall k,
             snd (withOwnedPhoto req k s) <> s ->
             exists user event p,
               authUser req = Some user /\
               In event (events (db (world s))) /\
               event_id event = params_eventId req /\
               event_ownerId event = auth_sub user /\
               auth_sub user <> "" /\
               In p (photos (db (world s))) /\
               photo_id p = photo_params_photoId req /\
               photo_eventId p = event_id event).
  { intros k Hchanged.
    destruct (withOwnedPhoto_cases req k s)
      as [[c Hsame] | [user [event [p [Huser [Hsub [_ [_ [Hevent [Hphoto _]]]]]]]]]].
    - exfalso. apply Hchanged. rewrite Hsame. reflexivity.
    - apply find_some in Hevent. destruct Hevent as [Hevent Howner].
      apply andb_true_iff in Howner. destruct Howner as [Hid Howner].
      apply String.eqb_eq in Hid. apply String.eqb_eq in Howner.
      apply find_some in Hphoto. destruct Hphoto as [Hphoto Hof].
      apply andb_true_iff in Hof. destruct Hof as [Hpid Hpevent].
      apply String.eqb_eq in Hpid. apply String.eqb_eq in Hpevent.
      exists user, event, p. rewrite Hid. auto 10. }
  split; [| split]; apply Hgate.
Qed.

Lemma withOwnedPhoto_run req k s user event p :
  authUser req = Some user ->
  auth_sub user <> "" ->
  params_eventId req <> "" ->
  photo_params_photoId req <> "" ->
  find (fun e => andb (event_id e === params_eventId req)
                      (event_ownerId e === auth_sub user))
    (events (db (world s))) = Some event ->
  find (fun q => andb (photo_id q === photo_params_photoId req)
                      (photo_eventId q === params_eventId req))
    (photos (db (world s))) = Some p ->
  withOwnedPhoto req k s = k event p s.
Proof.
  intros Huser Hsub Hevent Hphoto Hfind Hp.
  destruct s as [w b]. cbn [world] in Hfind, Hp.
  unfold withOwnedPhoto. rewrite Huser.
  apply truthy_true in Hsub. rewrite Hsub. cbn [negb].
  unfold hbind, onWorld, lift, assertEventOwner, photo_findFirst, bind, get_db, ret.
  cbn [world bus].
  rewrite (parse_nonempty_ok _ _ Hevent), (parse_nonempty_ok _ _ Hphoto).
  cbn [world bus]. rewrite Hfind. cbn [world bus]. rewrite Hp. reflexivity.
Qed.

Lemma photo_update_run id data w :
  photo_update id data w =
  (Normal tt,
   {| db := with_photos (map (fun p => if photo_id p === id then data p else p) (photos (db w)))
              (db w);
      collectionReady := collectionReady w;
      sent := sent w |}).
Proof. reflexivity. Qed.

Lemma faceEmbedding_findFirst_run where_ w :
  faceEmbedding_findFirst where_ w = (Normal (find where_ (faceEmbeddings (db w))), w).
Proof. reflexivity. Qed.

Lemma find_none_filter {A : Type} (f : A -> bool) (l : list A) :
  find f l = None <-> filter f l = [].
Proof.
  induction l as [| a l IH]; simpl; [tauto |].
  destruct (f a); [split; discriminate | exact IH].
Qed.

(** X25: publishing a photo of one's own event.  A photo whose upload is not
    complete is refused with 400 and nothing changes.  Otherwise the
    answer is 200 with the photo as published now; in the store exactly
    the rows with the photo's id change, to PUBLISHED at the time of the
    request; the realtime bus delivers one [photo.published] update of
    the event to each of its listeners; and the photo is sent to the face
    index only when it has no FaceRecord yet. *)
Theorem publish_photo_publishes
    rekognition getSignedUrl env cfg now emittedAt req user event p s :
  getStorageConfig env = Normal cfg ->
  authUser req = Some user ->
  auth_sub user <> "" ->
  params_eventId req <> "" ->
  photo_params_photoId req <> "" ->
  find (fun e => andb (event_id e === params_eventId req)
                      (event_ownerId e === auth_sub user))
    (events (db (world s))) = Some event ->
  find (fun q => andb (photo_id q === photo_params_photoId req)
                      (photo_eventId q === params_eventId req))
    (photos (db (world s))) = Some p ->
  (photo_isUploaded p = false ->
   publish_photo rekognition getSignedUrl env now emittedAt req s =
   (Normal {| api_status := 400; api_body := api_error "Photo upload is not complete" |}, s)) /\
  (photo_isUploaded p = true ->
   exists faceIndexing s',
     publish_photo rekognition getSignedUrl env now emittedAt req s =
       (Normal
          {| api_status := 200;
             api_body :=
               api_photo
                 (serializedWith
                    (getSignedUrl (storage_bucket cfg) (photo_storageKey p) 3600)
                    (with_published now p))
                 faceIndexing |},
        s') /\
     photos (db (world s')) =
       map (fun q => if photo_id q === photo_id p then with_published now q else q)
         (photos (db (world s))) /\
     events (db (world s')) = events (db (world s)) /\
     purchases (db (world s')) = purchases (db (world s)) /\
     purchaseItems (db (world s')) = purchaseItems (db (world s)) /\
     registered (bus s') = registered (bus s) /\
     calls (bus s') =
       calls (bus s) ++
       map (fun l => (l, {| rt_type := photo_published;
                            rt_eventSlug := event_slug event;
                            rt_photoId := photo_id p;
                            rt_timestamp := emittedAt |}))
         (listenersOf (getChannel (event_slug event)) (bus s)) /\
     (faceRecordsOf (photo_id p) (db (world s)) <> [] ->
      faceIndexing = None /\
      faceEmbeddings (db (world s')) = faceEmbeddings (db (world s)) /\
      sent (world s') = sent (world s)) /\
     (faceRecordsOf (photo_id p) (db (world s)) = [] ->
      exists result, faceIndexing = Some result)).
Proof.
  intros Hstorage Huser Hsub Hevent Hphoto Hfind Hp.
  unfold publish_photo.
  rewrite (withOwnedPhoto_run req _ s user event p Huser Hsub Hevent Hphoto Hfind Hp).
  destruct s as [w b]. cbn [world bus] in *.
  split; intros Huploaded; rewrite Huploaded; cbn [negb]; [reflexivity |].
  unfold hbind at 1. unfold onWorld at 1. cbn [world bus].
  unfold photo_update_published. rewrite photo_update_run.
  fold (with_published now).
  unfold hbind at 1. unfold onWorld at 1. cbn [world bus].
  rewrite faceEmbedding_findFirst_run. cbn [db faceEmbeddings with_photos].
  change (photo_id (with_published now p)) with (photo_id p).
  destruct (find _ (faceEmbeddings (db w))) as [f |] eqn:Hindexed.
  - unfold hbind at 1. unfold hret at 1.
    unfold hbind at 1. unfold onBus at 1. cbn [world bus].
    unfold hbind at 1. unfold onWorld at 1. cbn [world bus].
    rewrite (serializePhoto_run getSignedUrl env cfg _ _ Hstorage).
    do 2 eexists. split; [reflexivity |]. cbn.
    repeat (split; [reflexivity |]). split.
    + intros _. auto.
    + intros Hnone. apply find_none_filter in Hnone. congruence.
  - unfold hbind at 1. unfold hbind at 1. unfold onWorld at 1. cbn [world bus].
    match goal with
    | |- context [indexPhotoFace rekognition env ?q ?w1] =>
        destruct (indexPhotoFace_effect rekognition env q w1)
          as [result [w2 [Hrun [Hevents [Hphotos [Hpurchases [Hitems _]]]]]]]
    end.
    rewrite Hrun. unfold hret at 1.
    unfold hbind at 1. unfold onBus at 1. cbn [world bus].
    unfold hbind at 1. unfold onWorld at 1. cbn [world bus].
    rewrite (serializePhoto_run getSignedUrl env cfg _ _ Hstorage).
    do 2 eexists. split; [reflexivity |]. cbn [world bus].
    split; [exact Hphotos |]. split; [exact Hevents |].
    split; [exact Hpurchases |]. split; [exact Hitems |].
    split; [reflexivity |]. split; [reflexivity |]. split.
    + intros Hsome. exfalso. apply Hsome. apply find_none_filter. exact Hindexed.
    + intros _. eexists. reflexivity.
Qed.

Lemma publish_photo_publishes_witness :
  exists faceIndexing s',
    publish_photo Sample.one_face Sample.getSignedUrl Sample.env 70 71
      (Demo.photo_request "P9") Demo.studio =
    (Normal
       {| api_status := 200;
          api_body :=
            api_photo
              (serializedWith
                 (Sample.getSignedUrl "snapflow-photos" (photo_storageKey Sample.P9) 3600)
                 (with_published 70 Sample.P9))
              faceIndexing |},
     s').
Proof.
  destruct
    (proj2
       (publish_photo_publishes Sample.one_face Sample.getSignedUrl Sample.env Sample.storage
          70 71 (Demo.photo_request "P9") Demo.owner Demo.gala Sample.P9 Demo.studio
          eq_refl eq_refl
          ltac:(discriminate) ltac:(discriminate) ltac:(discriminate) eq_refl eq_refl)
       eq_refl)
    as [faceIndexing [s' [Hrun _]]].
  exists faceIndexing, s'. exact Hrun.
Defined.

(** Every photo that the public gallery shows is a stored row that is
    published and uploaded. *)
Lemma public_photos_shown getSignedUrl env cfg eventSlug w shown w' :
  getStorageConfig env = Normal cfg ->
  public_photos getSignedUrl env eventSlug w =
    (Normal {| api_status := 200; api_body := api_photos shown |}, w') ->
  forall id, In id (map sp_id shown) ->
             exists q, In q (photos (db w)) /\ photo_id q = id /\
                       photo_status q = PUBLISHED /\ photo_isUploaded q = true.
Proof.
  intros Hstorage. unfold public_photos.
  unfold lift at 1. unfold bind at 1.
  destruct (parse_nonempty "eventSlug" eventSlug) as [slug | e]; [| discriminate].
  unfold event_findUnique_slug. unfold get_db at 1.
  unfold bind at 1. unfold bind at 1. unfold ret at 1.
  destruct (find _ (events (db w))) as [event |]; [| discriminate].
  unfold photo_findMany_ordered. unfold get_db at 1.
  unfold bind at 1. unfold bind at 1. unfold ret at 1.
  unfold bind at 1.
  rewrite (Promise_all_pure (serializePhoto getSignedUrl env)
             (fun p => serializedWith
                         (getSignedUrl (storage_bucket cfg) (photo_storageKey p) 3600) p))
    by (intros p w0; apply serializePhoto_run; exact Hstorage).
  intros H. injection H as <- <-.
  intros id Hid. rewrite map_map in Hid. simpl in Hid.
  apply in_map_iff in Hid. destruct Hid as [q [Hq Hin]].
  apply (Permutation_in _ (stable_sort_Permutation _ _)) in Hin.
  apply filter_In in Hin. destruct Hin as [Hin Hkeep].
  apply bundle_filter_iff in Hkeep. exists q. tauto.
Qed.

(** X26: unpublishing a photo of one's own event answers 200 with the photo as
    a draft; in the store exactly the rows with the photo's id change, to
    DRAFT without a publication time; the realtime bus delivers one
    [photo.unpublished] update of the event to each of its listeners; and
    from then on no public gallery shows the photo. *)
Theorem unpublish_photo_hides getSignedUrl env cfg emittedAt req user event p s :
  getStorageConfig env = Normal cfg ->
  authUser req = Some user ->
  auth_sub user <> "" ->
  params_eventId req <> "" ->
  photo_params_photoId req <> "" ->
  find (fun e => andb (event_id e === params_eventId req)
                      (event_ownerId e === auth_sub user))
    (events (db (world s))) = Some event ->
  find (fun q => andb (photo_id q === photo_params_photoId req)
                      (photo_eventId q === params_eventId req))
    (photos (db (world s))) = Some p ->
  exists s',
    unpublish_photo getSignedUrl env emittedAt req s =
      (Normal
         {| api_status := 200;
            api_body :=
              api_photo
                (serializedWith
                   (getSignedUrl (storage_bucket cfg) (photo_storageKey p) 3600)
                   (with_draft p))
                None |},
       s') /\
    db (world s') =
      with_photos
        (map (fun q => if photo_id q === photo_id p then with_draft q else q)
           (photos (db (world s))))
        (db (world s)) /\
    sent (world s') = sent (world s) /\
    registered (bus s') = registered (bus s) /\
    calls (bus s') =
      calls (bus s) ++
      map (fun l => (l, {| rt_type := photo_unpublished;
                           rt_eventSlug := event_slug event;
                           rt_photoId := photo_id p;
                           rt_timestamp := emittedAt |}))
        (listenersOf (getChannel (event_slug event)) (bus s)) /\
    forall eventSlug shown w',
      public_photos getSignedUrl env eventSlug (world s') =
        (Normal {| api_status := 200; api_body := api_photos shown |}, w') ->
      ~ In (photo_id p) (map sp_id shown).
Proof.
  intros Hstorage Huser Hsub Hevent Hphoto Hfind Hp.
  unfold unpublish_photo.
  rewrite (withOwnedPhoto_run req _ s user event p Huser Hsub Hevent Hphoto Hfind Hp).
  destruct s as [w b]. cbn [world bus] in *.
  unfold hbind at 1. unfold onWorld at 1. cbn [world bus].
  rewrite photo_update_run.
  unfold hbind at 1. unfold onBus at 1. cbn [world bus].
  unfold hbind at 1. unfold onWorld at 1. cbn [world bus].
  rewrite (serializePhoto_run getSignedUrl env cfg _ _ Hstorage).
  eexists. split; [reflexivity |]. cbn [world bus db sent].
  repeat (split; [reflexivity |]).
  intros eventSlug shown w' Hgallery Hin.
  destruct (public_photos_shown _ _ _ _ _ _ _ Hstorage Hgallery _ Hin)
    as [q [Hq [Hid [Hstatus _]]]].
  cbn [db with_photos photos] in Hq. apply in_map_iff in Hq.
  destruct Hq as [q0 [Hq0 _]].
  destruct (photo_id q0 === photo_id p) eqn:Heq.
  - subst q. discriminate.
  - subst q. apply String.eqb_neq in Heq. contradiction.
Qed.

Lemma unpublish_photo_hides_witness :
  exists s',
    unpublish_photo Sample.getSignedUrl Sample.env 71 (Demo.photo_request "P1") Demo.studio =
    (Normal
       {| api_status := 200;
          api_body :=
            api_photo
              (serializedWith
                 (Sample.getSignedUrl "snapflow-photos" (photo_storageKey Sample.P1) 3600)
                 (with_draft Sample.P1))
              None |},
     s').
Proof.
  destruct
    (unpublish_photo_hides Sample.getSignedUrl Sample.env Sample.storage 71
       (Demo.photo_request "P1") Demo.owner Demo.gala Sample.P1 Demo.studio
       eq_refl eq_refl
       ltac:(discriminate) ltac:(discriminate) ltac:(discriminate) eq_refl eq_refl)
    as [s' [Hrun _]].
  exists s'. exact Hrun.
Defined.

Lemma find_map_preserved {A : Type} (f : A -> bool) (g : A -> A) (l : list A) :
  (forall x, f (g x) = f x) ->
  find f (map g l) = option_map g (find f l).
Proof.
  intros Hfg. induction l as [| a l IH]; simpl; [reflexivity |].
  rewrite Hfg. destruct (f a); [reflexivity | exact IH].
Qed.

(** X27: completing the upload of a photo of one's own event answers 200 with
    the photo and the result of its face indexing; in the store the rows
    with the photo's id are marked as uploaded and keep their status; the
    realtime bus delivers one [photo.uploaded] update of the event to each
    of its listeners; and a later request for the same photo finds it
    uploaded. *)
Theorem complete_upload_marks_uploaded
    rekognition getSignedUrl env cfg emittedAt req user event p s :
  getStorageConfig env = Normal cfg ->
  authUser req = Some user ->
  auth_sub user <> "" ->
  params_eventId req <> "" ->
  photo_params_photoId req <> "" ->
  find (fun e => andb (event_id e === params_eventId req)
                      (event_ownerId e === auth_sub user))
    (events (db (world s))) = Some event ->
  find (fun q => andb (photo_id q === photo_params_photoId req)
                      (photo_eventId q === params_eventId req))
    (photos (db (world s))) = Some p ->
  exists faceIndexing s',
    complete_upload rekognition getSignedUrl env emittedAt req s =
      (Normal
         {| api_status := 200;
            api_body :=
              api_photo
                (serializedWith
                   (getSignedUrl (storage_bucket cfg) (photo_storageKey p) 3600)
                   (with_isUploaded p))
                (Some faceIndexing) |},
       s') /\
    photos (db (world s')) =
      map (fun q => if photo_id q === photo_id p then with_isUploaded q else q)
        (photos (db (world s))) /\
    events (db (world s')) = events (db (world s)) /\
    purchases (db (world s')) = purchases (db (world s)) /\
    purchaseItems (db (world s')) = purchaseItems (db (world s)) /\
    registered (bus s') = registered (bus s) /\
    calls (bus s') =
      calls (bus s) ++
      map (fun l => (l, {| rt_type := photo_uploaded;
                           rt_eventSlug := event_slug event;
                           rt_photoId := photo_id p;
                           rt_timestamp := emittedAt |}))
        (listenersOf (getChannel (event_slug event)) (bus s)) /\
    find (fun q => andb (photo_id q === photo_params_photoId req)
                        (photo_eventId q === params_eventId req))
      (photos (db (world s'))) = Some (with_isUploaded p).
Proof.
  intros Hstorage Huser Hsub Hevent Hphoto Hfind Hp.
  unfold complete_upload.
  rewrite (withOwnedPhoto_run req _ s user event p Huser Hsub Hevent Hphoto Hfind Hp).
  destruct s as [w b]. cbn [world bus] in *.
  unfold hbind at 1. unfold onWorld at 1. cbn [world bus].
  rewrite photo_update_run.
  unfold hbind at 1. unfold onWorld at 1. cbn [world bus].
  match goal with
  | |- context [indexPhotoFace rekognition env ?q ?w1] =>
      destruct (indexPhotoFace_effect rekognition env q w1)
        as [result [w2 [Hrun [Hevents [Hphotos [Hpurchases [Hitems _]]]]]]]
  end.
  rewrite Hrun.
  unfold hbind at 1. unfold onBus at 1. cbn [world bus].
  unfold hbind at 1. unfold onWorld at 1. cbn [world bus].
  rewrite (serializePhoto_run getSignedUrl env cfg _ _ Hstorage).
  do 2 eexists. split; [reflexivity |]. cbn [world bus].
  split; [exact Hphotos |]. split; [exact Hevents |].
  split; [exact Hpurchases |]. split; [exact Hitems |].
  split; [reflexivity |]. split; [reflexivity |].
  rewrite Hphotos. cbn [db with_photos photos].
  assert (Hid : photo_id p = photo_params_photoId req).
  { apply find_some in Hp. destruct Hp as [_ Hp].
    apply andb_true_iff in Hp. destruct Hp as [Hp _].
    apply String.eqb_eq in Hp. exact Hp. }
  rewrite find_map_preserved, Hp.
  - simpl. rewrite Hid, String.eqb_refl. reflexivity.
  - intros q. destruct (photo_id q === photo_id p); reflexivity.
Qed.

Lemma complete_upload_marks_uploaded_witness :
  exists faceIndexing s',
    complete_upload Sample.one_face Sample.getSignedUrl Sample.env 71
      (Demo.photo_request "P9") Demo.studio =
    (Normal
       {| api_status := 200;
          api_body :=
            api_photo
              (serializedWith
                 (Sample.getSignedUrl "snapflow-photos" (photo_storageKey Sample.P9) 3600)
                 (with_isUploaded Sample.P9))
              (Some faceIndexing) |},
     s').
Proof.
  destruct
    (complete_upload_marks_uploaded Sample.one_face Sample.getSignedUrl Sample.env
       Sample.storage 71 (Demo.photo_request "P9") Demo.owner Demo.gala Sample.P9 Demo.studio
       eq_refl eq_refl
       ltac:(discriminate) ltac:(discriminate) ltac:(discriminate) eq_refl eq_refl)
    as [faceIndexing [s' [Hrun _]]].
  exists faceIndexing, s'. exact Hrun.
Defined.

(** ** Missing configuration *)

(** X28: without a Stripe secret key or without a webhook secret the webhook
    handler never reconciles anything: every request is answered 400 and
    the world is as before; a request with a signature and a raw body is
    told that the webhook is not configured, whatever the Stripe library
    would have said about the signature. *)
Theorem stripeWebhookHandler_unconfigured constructEvent env req w :
  truthy_opt (STRIPE_SECRET_KEY env) = false \/
  truthy (nullish (STRIPE_WEBHOOK_SECRET env) "") = false ->
  exists message,
    stripeWebhookHandler constructEvent env req w =
      (Normal {| res_status := 400; res_body := json_error message |}, w) /\
    (forall signature payload,
       header_stripe_signature req = Some signature ->
       signature <> "" ->
       webhook_body req = Some payload ->
       message = "Stripe webhook is not configured.").
Proof.
  intros Hmissing.
  assert (Hthrow : forall payload signature,
             constructStripeEvent constructEvent env payload signature =
             Thrown (new_Error "Stripe webhook is not configured.")).
  { intros payload signature. unfold constructStripeEvent.
    destruct Hmissing as [Hkey | Hsecret].
    - rewrite Hkey. reflexivity.
    - rewrite Hsecret. destruct (truthy_opt (STRIPE_SECRET_KEY env)); [| reflexivity].
      destruct (STRIPE_SECRET_KEY env); reflexivity. }
  unfold stripeWebhookHandler.
  destruct (header_stripe_signature req) as [signature |];
    [| eexists; split; [reflexivity | discriminate]].
  destruct (truthy signature) eqn:Hsig; cbn [negb].
  2: { eexists. split; [reflexivity |]. intros s payload [= <-] Hs.
       apply truthy_true in Hs. congruence. }
  destruct (webhook_body req) as [payload |];
    [| eexists; split; [reflexivity | discriminate]].
  rewrite Hthrow. eexists. split; [reflexivity |]. intros. reflexivity.
Qed.

Lemma getStorageConfig_error env e :
  getStorageConfig env = Thrown e -> e = new_Error "S3_BUCKET is required".
Proof.
  unfold getStorageConfig. destruct (S3_BUCKET env) as [b |]; [| congruence].
  destruct (truthy b); [discriminate | congruence].
Qed.

(** X29: publishing is not atomic.  When the storage bucket is not configured,
    a publish request for an uploaded photo of one's own event fails with
    the storage error, and yet the photo is stored as published and the
    listeners of the event have been told so. *)
Theorem publish_photo_not_atomic
    rekognition getSignedUrl env now emittedAt req user event p s e :
  getStorageConfig env = Thrown e ->
  authUser req = Some user ->
  auth_sub user <> "" ->
  params_eventId req <> "" ->
  photo_params_photoId req <> "" ->
  find (fun e => andb (event_id e === params_eventId req)
                      (event_ownerId e === auth_sub user))
    (events (db (world s))) = Some event ->
  find (fun q => andb (photo_id q === photo_params_photoId req)
                      (photo_eventId q === params_eventId req))
    (photos (db (world s))) = Some p ->
  photo_isUploaded p = true ->
  exists s',
    publish_photo rekognition getSignedUrl env now emittedAt req s =
      (Thrown (new_Error "S3_BUCKET is required"), s') /\
    photos (db (world s')) =
      map (fun q => if photo_id q === photo_id p then with_published now q else q)
        (photos (db (world s))) /\
    calls (bus s') =
      calls (bus s) ++
      map (fun l => (l, {| rt_type := photo_published;
                           rt_eventSlug := event_slug event;
                           rt_photoId := photo_id p;
                           rt_timestamp := emittedAt |}))
        (listenersOf (getChannel (event_slug event)) (bus s)).
Proof.
  intros Hstorage Huser Hsub Hevent Hphoto Hfind Hp Huploaded.
  pose proof (getStorageConfig_error env e Hstorage) as ->.
  assert (Hserialize : forall q w0,
             serializePhoto getSignedUrl env q w0 =
             (Thrown (new_Error "S3_BUCKET is required"), w0)).
  { intros q w0. unfold serializePhoto, createSignedDownloadUrl.
    unfold bind at 1. unfold bind at 1. unfold lift at 1. rewrite Hstorage. reflexivity. }
  unfold publish_photo.
  rewrite (withOwnedPhoto_run req _ s user event p Huser Hsub Hevent Hphoto Hfind Hp).
  destruct s as [w b]. cbn [world bus] in *.
  rewrite Huploaded. cbn [negb].
  unfold hbind at 1. unfold onWorld at 1. cbn [world bus].
  unfold photo_update_published. rewrite photo_update_run.
  fold (with_published now).
  unfold hbind at 1. unfold onWorld at 1. cbn [world bus].
  rewrite faceEmbedding_findFirst_run. cbn [db faceEmbeddings with_photos].
  change (photo_id (with_published now p)) with (photo_id p).
  destruct (find _ (faceEmbeddings (db w))) as [f |].
  - unfold hbind at 1. unfold hret at 1.
    unfold hbind at 1. unfold onBus at 1. cbn [world bus].
    unfold hbind at 1. unfold onWorld at 1. cbn [world bus].
    rewrite Hserialize. eexists. split; [reflexivity |]. cbn. split; reflexivity.
  - unfold hbind at 1. unfold hbind at 1. unfold onWorld at 1. cbn [world bus].
    match goal with
    | |- context [indexPhotoFace rekognition env ?q ?w1] =>
        destruct (indexPhotoFace_effect rekognition env q w1)
          as [result [w2 [Hrun [_ [Hphotos _]]]]]
    end.
    rewrite Hrun. unfold hret at 1.
    unfold hbind at 1. unfold onBus at 1. cbn [world bus].
    unfold hbind at 1. unfold onWorld at 1. cbn [world bus].
    rewrite Hserialize. eexists. split; [reflexivity |]. cbn [world bus].
    split; [exact Hphotos | reflexivity].
Qed.

Lemma stripeWebhookHandler_unconfigured_witness :
  exists message,
    stripeWebhookHandler Demo.constructEvent Demo.bare_env Demo.webhook Demo.pending_world =
    (Normal {| res_status := 400; res_body := json_error message |}, Demo.pending_world).
Proof.
  destruct
    (stripeWebhookHandler_unconfigured Demo.constructEvent Demo.bare_env Demo.webhook
       Demo.pending_world (or_intror eq_refl))
    as [message [Hrun _]].
  exists message. exact Hrun.
Defined.

Lemma publish_photo_not_atomic_witness :
  exists s',
    publish_photo Sample.one_face Sample.getSignedUrl Demo.bare_env 70 71
      (Demo.photo_request "P9") Demo.studio =
    (Thrown (new_Error "S3_BUCKET is required"), s').
Proof.
  destruct
    (publish_photo_not_atomic Sample.one_face Sample.getSignedUrl Demo.bare_env 70 71
       (Demo.photo_request "P9") Demo.owner Demo.gala Sample.P9 Demo.studio
       (new_Error "S3_BUCKET is required")
       eq_refl eq_refl
       ltac:(discriminate) ltac:(discriminate) ltac:(discriminate) eq_refl eq_refl eq_refl)
    as [s' [Hrun _]].
  exists s'. exact Hrun.
Defined.

(** ** The bundle download *)



